(** * tagger: metadata enrichment orchestrator, MusicBrainz adapter and
      filename decomposer

    A shallow embedding of three Go packages of cerberussg/tagger:

    - [pkg/enricher] (enricher.go): errors, data model, the [Enricher]
      orchestrator with its three strategies and [CalculateConfidence];
    - [pkg/enricher/musicbrainz] (musicbrainz.go, types.go): the rate-limited
      adapter and its candidate and release selection;
    - [cmd] (batch.go): the filename decomposer.

    Conventions.  A Go [int], [int64] or [time.Duration] is a [Z] kept in the
    signed 64-bit range by [wrap64]; a [float64] is a primitive binary64
    [float]; a Go [string] is a byte [string], except in package [cmd] where
    the code inspects strings rune by rune and a string is the list of its
    code points; a nil-able pointer is an [option]; a [(T, error)] result of
    the program is a pair whose second component is [None] for a nil error,
    and that of a library call is a sum, the error on the right.  Everything the
    code reaches outside itself (clock, contexts, network, codecs, Unicode
    tables) is a field of the class [Runtime], and effectful code threads the
    runtime's [World] explicitly. *)

From Stdlib Require Import ZArith String Ascii List Bool Floats Lia.
From stdpp Require Import base option list strings pretty gmap.
Set Warnings "-inexact-float".

Local Open Scope string_scope.
Local Open Scope Z_scope.

(** ** Machine integers and time *)

Definition wrap64 (z : Z) : Z := (z + 2 ^ 63) mod 2 ^ 64 - 2 ^ 63.

Definition minInt64 : Z := - 2 ^ 63.
Definition maxInt64 : Z := 2 ^ 63 - 1.

(** [time.Duration] is an int64 count of nanoseconds; a [time.Time] is an
    instant, here nanoseconds on an unbounded line. *)
Definition Duration := Z.
Definition Time := Z.

Definition Second : Duration := 1000000000.

(** [t.Sub(u)]: the difference, saturated to the range of [Duration]. *)
Definition Time_Sub (t u : Time) : Duration :=
  let d := t - u in
  if d <? minInt64 then minInt64 else if maxInt64 <? d then maxInt64 else d.

(** ** Errors *)

(** The error values the three packages create or pass on.  [errorString] is
    [errors.New] or a [fmt.Errorf] without [%w]; [wrapError msg err] is
    [fmt.Errorf(msg + ": %w", err)]; [urlError] is the [*url.Error] in which
    [net/http] returns a failed exchange. *)
Inductive error : Type :=
| ErrNotFound
| ErrRateLimit
| ErrAPIError
| ErrNoProvider
| context_Canceled
| context_DeadlineExceeded
| errorString (msg : string)
| wrapError (msg : string) (err : error)
| urlError (op url : string) (err : error).

(** [errors.Unwrap] and [errors.Is] on these values. *)
Definition errors_Unwrap (e : error) : option error :=
  match e with
  | wrapError _ err => Some err
  | urlError _ _ err => Some err
  | _ => None
  end.

Global Instance error_eq_dec : EqDecision error.
Proof. solve_decision. Defined.

Fixpoint errors_Is (e target : error) : bool :=
  bool_decide (e = target) ||
  match e with
  | wrapError _ err => errors_Is err target
  | urlError _ _ err => errors_Is err target
  | _ => false
  end.

(** ** The world outside the program *)

(** One HTTP request as the adapter builds it. *)
Record Request (Ctx : Type) := mkRequest {
  req_ctx : Ctx;
  req_method : string;
  req_url : string;
  req_header : list (string * string)
}.
Arguments mkRequest {Ctx}.
Arguments req_ctx {Ctx}.
Arguments req_method {Ctx}.
Arguments req_url {Ctx}.
Arguments req_header {Ctx}.

Record Response := mkResponse {
  StatusCode : Z;
  Body : string
}.

Definition StatusOK : Z := 200.

Class Runtime := {
  World : Type;
  Ctx : Type;
  (** [ctx.Err()] *)
  ctx_Err : Ctx -> World -> option error;
  (** [context.WithTimeout(ctx, d)] *)
  context_WithTimeout : Ctx -> Duration -> World -> Ctx * World;
  (** [time.Now()] *)
  time_Now : World -> Time * World;
  (** The statement [select { case <-time.After(d): ... case <-ctx.Done(): ... }]:
      blocks, then tells which case was taken, [true] for the timer. *)
  select_After_Done : Duration -> Ctx -> World -> bool * World;
  (** [http.NewRequestWithContext(ctx, method, url, nil)] *)
  http_NewRequestWithContext : Ctx -> string -> string -> Request Ctx + error;
  (** [client.Do(req)] *)
  client_Do : Request Ctx -> World -> (Response + error) * World;
  (** [io.ReadAll(resp.Body)] *)
  io_ReadAll : Response -> World -> (string + error) * World;
  (** [strings.EqualFold] *)
  strings_EqualFold : string -> string -> bool;
  (** [strconv.Itoa] and [strconv.Atoi] *)
  strconv_Itoa : Z -> string;
  strconv_Atoi : string -> Z + error;
  (** [url.Values.Encode] of the given key/value pairs *)
  url_Encode : list (string * string) -> string
}.

(** ** Package enricher *)

Module enricher.

(** [interface{}] values stored in [TrackMetadata.Extra]. *)
Inductive any : Type :=
| any_string (s : string)
| any_int (n : Z).

Module TrackMetadata.
Record t := mk {
  Artist : string;
  Title : string;
  Album : string;
  Label : string;
  ReleaseDate : string;
  Genre : string;
  CatalogNumber : string;
  Year : Z;
  ProviderID : string;
  ProviderName : string;
  Confidence : float;
  Extra : gmap string any
}.
End TrackMetadata.

Module SearchRequest.
Record t := mk {
  Artist : string;
  Title : string;
  Album : string;
  Genre : string;
  Year : string;
  Duration : Z;
  PreferOriginalRelease : bool;
  MaxResults : Z
}.
End SearchRequest.

Record RateLimitInfo := {
  RequestsPerSecond : float;
  BurstAllowed : Z;
  RequiresUserAgent : bool;
  RequiresAPIKey : bool
}.

Inductive ProviderStrategy : Type :=
| StrategyFirst
| StrategyBest
| StrategyFallback
| StrategyOther (s : string).

Record EnricherConfig := {
  Strategy : ProviderStrategy;
  MinConfidence : float;
  RequireLabel : bool;
  RequestTimeout : Duration;
  CacheEnabled : bool;
  CacheTTL : Duration
}.

(** A lookup result: a pointer to a [TrackMetadata] and an [error]. *)
Definition Result : Type := option TrackMetadata.t * option error.

Section WithRuntime.
Context {R : Runtime}.

(** The interface [MetadataProvider]: a provider is the record of its
    methods; each may read and change the world. *)
Record MetadataProvider := {
  Name : string;
  Lookup_ : Ctx -> string -> string -> World -> Result * World;
  LookupWithHints : Ctx -> SearchRequest.t -> World -> Result * World;
  SupportsGenre : string -> bool;
  RateLimit : RateLimitInfo;
  Close_ : World -> option error * World
}.

Record Enricher := {
  providers : list MetadataProvider;
  config : EnricherConfig
}.

Definition defaultConfig : EnricherConfig :=
  {| Strategy := StrategyFirst;
     MinConfidence := 0.7%float;
     RequireLabel := false;
     RequestTimeout := 30 * Second;
     CacheEnabled := true;
     CacheTTL := 24 * (3600 * Second) |}.

Definition NewEnricher (ps : list MetadataProvider) (cfg : option EnricherConfig) : Enricher :=
  {| providers := ps;
     config := match cfg with Some c => c | None => defaultConfig end |}.

(** The quality gate shared by [lookupFirst] and [lookupBest]:
    [result != nil && result.Confidence >= MinConfidence], then
    the label being non-empty unless [RequireLabel] is off. *)
Definition accepted (cfg : EnricherConfig) (result : option TrackMetadata.t) : bool :=
  match result with
  | Some r =>
      PrimFloat.leb (MinConfidence cfg) (TrackMetadata.Confidence r)
      && (negb (RequireLabel cfg) || bool_decide (TrackMetadata.Label r <> ""))
  | None => false
  end.

(** The loop of [lookupFirst] over the providers still to try. *)
Fixpoint lookupFirst_loop (cfg : EnricherConfig) (ps : list MetadataProvider)
    (ctx : Ctx) (req : SearchRequest.t) (lastErr : option error) (w : World)
    : Result * World :=
  match ps with
  | [] =>
      match lastErr with
      | Some e => ((None, Some e), w)
      | None => ((None, Some ErrNotFound), w)
      end
  | provider :: rest =>
      let '((result, err), w1) := LookupWithHints provider ctx req w in
      match err with
      | Some e => lookupFirst_loop cfg rest ctx req (Some e) w1
      | None =>
          if accepted cfg result
          then ((result, None), w1)
          else lookupFirst_loop cfg rest ctx req lastErr w1
      end
  end.

Definition lookupFirst (e : Enricher) (ctx : Ctx) (req : SearchRequest.t) (w : World)
    : Result * World :=
  lookupFirst_loop (config e) (providers e) ctx req None w.

(** The loop of [lookupBest]. *)
Fixpoint lookupBest_loop (cfg : EnricherConfig) (ps : list MetadataProvider)
    (ctx : Ctx) (req : SearchRequest.t)
    (bestResult : option TrackMetadata.t) (lastErr : option error) (w : World)
    : Result * World :=
  match ps with
  | [] =>
      match bestResult with
      | Some b => ((Some b, None), w)
      | None =>
          match lastErr with
          | Some e => ((None, Some e), w)
          | None => ((None, Some ErrNotFound), w)
          end
      end
  | provider :: rest =>
      let '((result, err), w1) := LookupWithHints provider ctx req w in
      match err with
      | Some e => lookupBest_loop cfg rest ctx req bestResult (Some e) w1
      | None =>
          if accepted cfg result
          then
            match bestResult, result with
            | Some b, Some r =>
                if PrimFloat.ltb (TrackMetadata.Confidence b) (TrackMetadata.Confidence r)
                then lookupBest_loop cfg rest ctx req result lastErr w1
                else lookupBest_loop cfg rest ctx req bestResult lastErr w1
            | _, _ => lookupBest_loop cfg rest ctx req result lastErr w1
            end
          else lookupBest_loop cfg rest ctx req bestResult lastErr w1
      end
  end.

Definition lookupBest (e : Enricher) (ctx : Ctx) (req : SearchRequest.t) (w : World)
    : Result * World :=
  lookupBest_loop (config e) (providers e) ctx req None None w.

(** The request of the second pass of [lookupFallback]; the fields it
    does not name take Go's zero values. *)
Definition simplifiedReq (req : SearchRequest.t) : SearchRequest.t :=
  {| SearchRequest.Artist := SearchRequest.Artist req;
     SearchRequest.Title := SearchRequest.Title req;
     SearchRequest.Album := "";
     SearchRequest.Genre := "";
     SearchRequest.Year := "";
     SearchRequest.Duration := 0;
     SearchRequest.PreferOriginalRelease := SearchRequest.PreferOriginalRelease req;
     SearchRequest.MaxResults := SearchRequest.MaxResults req |}.

Definition lookupFallback (e : Enricher) (ctx : Ctx) (req : SearchRequest.t) (w : World)
    : Result * World :=
  let '((result, err), w1) := lookupFirst e ctx req w in
  match err, result with
  | None, Some r => ((Some r, None), w1)
  | _, _ => lookupFirst e ctx (simplifiedReq req) w1
  end.

Definition LookupWithRequest (e : Enricher) (ctx : Ctx) (req : SearchRequest.t) (w : World)
    : Result * World :=
  let '(ctx, w) := context_WithTimeout ctx (RequestTimeout (config e)) w in
  match Strategy (config e) with
  | StrategyFirst => lookupFirst e ctx req w
  | StrategyBest => lookupBest e ctx req w
  | StrategyFallback => lookupFallback e ctx req w
  | StrategyOther _ => lookupFirst e ctx req w
  end.

Definition Lookup (e : Enricher) (ctx : Ctx) (artist title : string) (w : World)
    : Result * World :=
  if bool_decide (length (providers e) = 0%nat) then ((None, Some ErrNoProvider), w)
  else
    let req :=
      {| SearchRequest.Artist := artist;
         SearchRequest.Title := title;
         SearchRequest.Album := "";
         SearchRequest.Genre := "";
         SearchRequest.Year := "";
         SearchRequest.Duration := 0;
         SearchRequest.PreferOriginalRelease := true;
         SearchRequest.MaxResults := 5 |} in
    LookupWithRequest e ctx req w.

Definition AddProvider (e : Enricher) (provider : MetadataProvider) : Enricher :=
  {| providers := providers e ++ [provider]; config := config e |}.

Definition GetProviders (e : Enricher) : list MetadataProvider := providers e.

(** The loop of [Close]. *)
Fixpoint Close_loop (ps : list MetadataProvider) (lastErr : option error) (w : World)
    : option error * World :=
  match ps with
  | [] => (lastErr, w)
  | provider :: rest =>
      let '(err, w1) := Close_ provider w in
      match err with
      | Some e => Close_loop rest (Some e) w1
      | None => Close_loop rest lastErr w1
      end
  end.

Definition Close (e : Enricher) (w : World) : option error * World :=
  Close_loop (providers e) None w.

End WithRuntime.

(** [CalculateConfidence]: every [+=] is one binary64 addition, in the
    order of the source. *)
Definition CalculateConfidence (metadata : TrackMetadata.t) (exactMatch : bool) : float :=
  let confidence := 0.0%float in
  let confidence := (confidence + 0.2)%float in
  let confidence :=
    if exactMatch then (confidence + 0.4)%float else (confidence + 0.2)%float in
  let confidence :=
    if bool_decide (TrackMetadata.Label metadata <> "")
    then (confidence + 0.2)%float else confidence in
  let confidence :=
    if bool_decide (TrackMetadata.ReleaseDate metadata <> "") || (0 <? TrackMetadata.Year metadata)
    then (confidence + 0.1)%float else confidence in
  let confidence :=
    if bool_decide (TrackMetadata.CatalogNumber metadata <> "")
    then (confidence + 0.1)%float else confidence in
  if PrimFloat.ltb 1.0 confidence then 1.0%float else confidence.

End enricher.

(** ** Package musicbrainz *)

Module musicbrainz.
Import enricher.

(** The JSON types of types.go, with the fields the adapter reads (and the
    identifying ones); the remaining fields are never read by the code. *)
Module Artist.
Record t := mk {
  ID : string;
  Name : string;
  SortName : string
}.
End Artist.

Module ArtistCredit.
Record t := mk {
  Name : string;
  Joinphrase : string;
  Artist : Artist.t
}.
End ArtistCredit.

Module Label.
Record t := mk {
  ID : string;
  Name : string
}.
End Label.

Module LabelInfo.
Record t := mk {
  CatalogNumber : string;
  Label : Label.t
}.
End LabelInfo.

Module Release.
Record t := mk {
  ID : string;
  Title : string;
  Date : string;
  Country : string;
  LabelInfo : list LabelInfo.t
}.
End Release.

Module Recording.
Record t := mk {
  ID : string;
  Title : string;
  Length : Z;
  Score : Z;
  ArtistCredit : list ArtistCredit.t;
  Releases : list Release.t
}.
End Recording.

Module RecordingSearchResult.
Record t := mk {
  Created : string;
  Count : Z;
  Offset : Z;
  Recordings : list Recording.t
}.
End RecordingSearchResult.

Module RecordingDetail.
Record t := mk {
  ID : string;
  Title : string;
  Length : Z;
  ArtistCredit : list ArtistCredit.t;
  Releases : list Release.t
}.
End RecordingDetail.

(** [json.Unmarshal] at the two types the adapter decodes. *)
Class JSON := {
  json_Unmarshal_search : string -> RecordingSearchResult.t + error;
  json_Unmarshal_detail : string -> RecordingDetail.t + error
}.

Definition baseURL : string := "https://musicbrainz.org/ws/2".
Definition userAgent : string := "tagger/0.1.0 (https://github.com/cerberussg/tagger)".
Definition rateLimit : Duration := Second.

(** The zero [time.Time], January 1, year 1, as nanoseconds before the Unix
    epoch. *)
Definition zeroTime : Time := - 62135596800 * Second.

Record MusicBrainzProvider := {
  client_Timeout : Duration;
  mb_userAgent : string;
  lastRequest : Time
}.

Definition NewMusicBrainzProvider : MusicBrainzProvider :=
  {| client_Timeout := 30 * Second; mb_userAgent := userAgent; lastRequest := zeroTime |}.

Definition set_lastRequest (t : Time) (m : MusicBrainzProvider) : MusicBrainzProvider :=
  {| client_Timeout := client_Timeout m; mb_userAgent := mb_userAgent m; lastRequest := t |}.

(** A pointer [&xs[i]] into a slice that is not written to afterwards: the
    index together with the element. *)
Definition ptr (A : Type) : Type := nat * A.

Definition dquote : string := String (ascii_of_nat 34) EmptyString.

(** [Header.Set] *)
Definition Header_Set (k v : string) (h : list (string * string)) : list (string * string) :=
  (k, v) :: filter (fun kv => bool_decide (kv.1 <> k)) h.

Section WithRuntime.
Context {R : Runtime} {J : JSON}.

Definition with_headers (m : MusicBrainzProvider) (r : Request Ctx) : Request Ctx :=
  mkRequest (req_ctx r) (req_method r) (req_url r)
    (Header_Set "Accept" "application/json"
       (Header_Set "User-Agent" (mb_userAgent m) (req_header r))).

(** [waitForRateLimit]: returns the error and the provider as the call
    leaves it. *)
Definition waitForRateLimit (m : MusicBrainzProvider) (ctx : Ctx) (w : World)
    : option error * MusicBrainzProvider * World :=
  let '(now, w) := time_Now w in
  let elapsed := Time_Sub now (lastRequest m) in
  if elapsed <? rateLimit then
    let waitTime := wrap64 (rateLimit - elapsed) in
    let '(timer, w) := select_After_Done waitTime ctx w in
    if timer then
      let '(now, w) := time_Now w in
      (None, set_lastRequest now m, w)
    else
      (ctx_Err ctx w, m, w)
  else
    let '(now, w) := time_Now w in
    (None, set_lastRequest now m, w).

(** The exchange both remote calls share, from [http.NewRequestWithContext]
    to the body read by [io.ReadAll]. *)
Definition fetch (m : MusicBrainzProvider) (ctx : Ctx) (url : string) (w : World)
    : (string + error) * World :=
  match http_NewRequestWithContext ctx "GET" url with
  | inr err => (inr err, w)
  | inl httpReq =>
      let httpReq := with_headers m httpReq in
      match client_Do httpReq w with
      | (inr err, w) => (inr (wrapError "http request failed" err), w)
      | (inl resp, w) =>
          if negb (StatusCode resp =? StatusOK)
          then (inr (errorString ("musicbrainz API returned status " ++ strconv_Itoa (StatusCode resp))), w)
          else
            match io_ReadAll resp w with
            | (inr err, w) => (inr (wrapError "failed to read response body" err), w)
            | (inl body, w) => (inl body, w)
            end
      end
  end.

Definition searchQuery (req : SearchRequest.t) : string :=
  let query :=
    "artist:" ++ dquote ++ SearchRequest.Artist req ++ dquote ++
    " AND recording:" ++ dquote ++ SearchRequest.Title req ++ dquote in
  if bool_decide (SearchRequest.Album req <> "")
  then query ++ " AND release:" ++ dquote ++ SearchRequest.Album req ++ dquote
  else query.

Definition searchRecordings (m : MusicBrainzProvider) (ctx : Ctx) (req : SearchRequest.t)
    (w : World) : (list Recording.t * option error) * World :=
  let params :=
    [("query", searchQuery req);
     ("limit", strconv_Itoa (SearchRequest.MaxResults req));
     ("fmt", "json")] in
  let searchURL := baseURL ++ "/recording?" ++ url_Encode params in
  match fetch m ctx searchURL w with
  | (inr err, w) => (([], Some err), w)
  | (inl body, w) =>
      match json_Unmarshal_search body with
      | inr err => (([], Some (wrapError "failed to parse JSON response" err)), w)
      | inl searchResult => ((RecordingSearchResult.Recordings searchResult, None), w)
      end
  end.

Definition getRecordingReleases (m : MusicBrainzProvider) (ctx : Ctx) (recordingID : string)
    (w : World) : (list Release.t * option error) * MusicBrainzProvider * World :=
  let '(err, m, w) := waitForRateLimit m ctx w in
  match err with
  | Some e => (([], Some e), m, w)
  | None =>
      let params := [("inc", "labels"); ("fmt", "json")] in
      let lookupURL := baseURL ++ "/recording/" ++ recordingID ++ "?" ++ url_Encode params in
      match fetch m ctx lookupURL w with
      | (inr err, w) => (([], Some err), m, w)
      | (inl body, w) =>
          match json_Unmarshal_detail body with
          | inr err => (([], Some (wrapError "failed to parse JSON response" err)), m, w)
          | inl recording => ((RecordingDetail.Releases recording, None), m, w)
          end
      end
  end.

(** Does some credited artist equal the target, case-insensitively?  The
    inner loop with its [break]. *)
Definition creditsArtist (credits : list ArtistCredit.t) (target : string) : bool :=
  existsb
    (fun credit => strings_EqualFold (Artist.Name (ArtistCredit.Artist credit)) target)
    credits.

(** The score [findBestRecordingMatch] gives one candidate. *)
Definition recordingScore (recording : Recording.t) (targetArtist targetTitle : string) : Z :=
  let score := Recording.Score recording in
  let score :=
    if strings_EqualFold (Recording.Title recording) targetTitle
    then wrap64 (score + 10) else score in
  if creditsArtist (Recording.ArtistCredit recording) targetArtist
  then wrap64 (score + 10) else score.

(** The loop of [findBestRecordingMatch], at index [i]. *)
Fixpoint findBestRecordingMatch_loop (recordings : list Recording.t) (i : nat)
    (targetArtist targetTitle : string)
    (bestScore : Z) (bestRecording : option (ptr Recording.t))
    : option (ptr Recording.t) :=
  match recordings with
  | [] => bestRecording
  | recording :: rest =>
      let score := recordingScore recording targetArtist targetTitle in
      if bestScore <? score
      then findBestRecordingMatch_loop rest (S i) targetArtist targetTitle score (Some (i, recording))
      else findBestRecordingMatch_loop rest (S i) targetArtist targetTitle bestScore bestRecording
  end.

Definition findBestRecordingMatch (recordings : list Recording.t)
    (targetArtist targetTitle : string) : option (ptr Recording.t) :=
  if bool_decide (length recordings = 0%nat) then None
  else findBestRecordingMatch_loop recordings 0 targetArtist targetTitle 0 None.

(** The loop of [findBestRelease] for [preferOriginal], at index [i]. *)
Fixpoint findBestRelease_loop (releases : list Release.t) (i : nat)
    (bestRelease : option (ptr Release.t)) (earliestDate : string)
    : option (ptr Release.t) :=
  match releases with
  | [] => bestRelease
  | release :: rest =>
      if bool_decide (Release.Date release <> "") then
        if bool_decide (earliestDate = "") || String.ltb (Release.Date release) earliestDate
        then findBestRelease_loop rest (S i) (Some (i, release)) (Release.Date release)
        else findBestRelease_loop rest (S i) bestRelease earliestDate
      else
        match bestRelease with
        | None => findBestRelease_loop rest (S i) (Some (i, release)) earliestDate
        | Some _ => findBestRelease_loop rest (S i) bestRelease earliestDate
        end
  end.

Definition findBestRelease (releases : list Release.t) (preferOriginal : bool)
    : option (ptr Release.t) :=
  match releases with
  | [] => None
  | first :: _ =>
      if negb preferOriginal then Some (0%nat, first)
      else
        match findBestRelease_loop releases 0 None "" with
        | None => Some (0%nat, first)
        | Some best => Some best
        end
  end.

(** [convertToTrackMetadata] *)
Definition convertToTrackMetadata (recording : Recording.t) (release : Release.t)
    (originalArtist originalTitle : string) : TrackMetadata.t :=
  let Year :=
    if bool_decide (Release.Date release <> "") && (4 <=? Z.of_nat (String.length (Release.Date release)))
    then
      match strconv_Atoi (substring 0 4 (Release.Date release)) with
      | inl year => year
      | inr _ => 0
      end
    else 0 in
  let '(Label, CatalogNumber) :=
    match Release.LabelInfo release with
    | info :: _ => (Label.Name (LabelInfo.Label info), LabelInfo.CatalogNumber info)
    | [] => ("", "")
    end in
  let metadata :=
    TrackMetadata.mk originalArtist originalTitle (Release.Title release) Label
      (Release.Date release) "" CatalogNumber Year (Recording.ID recording) "MusicBrainz"
      0%float ∅ in
  let exactTitleMatch := strings_EqualFold (Recording.Title recording) originalTitle in
  let exactArtistMatch := creditsArtist (Recording.ArtistCredit recording) originalArtist in
  let Confidence := CalculateConfidence metadata (exactArtistMatch && exactTitleMatch) in
  let Extra : gmap string any :=
    <["musicbrainz_score" := any_int (Recording.Score recording)]>
      (<["musicbrainz_release_id" := any_string (Release.ID release)]>
         (<["musicbrainz_recording_id" := any_string (Recording.ID recording)]> ∅)) in
  TrackMetadata.mk originalArtist originalTitle (Release.Title release) Label
    (Release.Date release) "" CatalogNumber Year (Recording.ID recording) "MusicBrainz"
    Confidence Extra.

(** [LookupWithHints]: the result, and the provider as the call leaves it. *)
Definition LookupWithHints (m : MusicBrainzProvider) (ctx : Ctx) (req : SearchRequest.t)
    (w : World) : Result * MusicBrainzProvider * World :=
  let '(err, m, w) := waitForRateLimit m ctx w in
  match err with
  | Some err => ((None, Some err), m, w)
  | None =>
  let '((recordings, err), w) := searchRecordings m ctx req w in
  match err with
  | Some err => ((None, Some (wrapError "musicbrainz recording search failed" err)), m, w)
  | None =>
  if bool_decide (length recordings = 0%nat) then ((None, Some ErrNotFound), m, w) else
  match findBestRecordingMatch recordings (SearchRequest.Artist req) (SearchRequest.Title req) with
  | None => ((None, Some ErrNotFound), m, w)
  | Some (_, bestRecording) =>
  let '((releases, err), m, w) := getRecordingReleases m ctx (Recording.ID bestRecording) w in
  match err with
  | Some err => ((None, Some (wrapError "musicbrainz release lookup failed" err)), m, w)
  | None =>
  match findBestRelease releases (SearchRequest.PreferOriginalRelease req) with
  | None => ((None, Some ErrNotFound), m, w)
  | Some (_, bestRelease) =>
      let metadata :=
        convertToTrackMetadata bestRecording bestRelease
          (SearchRequest.Artist req) (SearchRequest.Title req) in
      ((Some metadata, None), m, w)
  end end end end end.

(** [Lookup] *)
Definition Lookup (m : MusicBrainzProvider) (ctx : Ctx) (artist title : string) (w : World)
    : Result * MusicBrainzProvider * World :=
  let req := SearchRequest.mk artist title "" "" "" 0 true 5 in
  LookupWithHints m ctx req w.

End WithRuntime.
End musicbrainz.

(** ** Package cmd: the filename decomposer of batch.go *)

Module cmd.

(** In this package a string is the list of its code points.  The verbose
    console output of the functions is not part of their results and is left
    out. *)
Definition rune := Z.

(** The runes of an ASCII literal. *)
Definition runes (s : string) : list rune :=
  map (fun a => Z.of_N (N_of_ascii a)) (list_ascii_of_string s).

Definition in_range (lo hi : Z) (r : rune) : bool := (lo <=? r) && (r <=? hi).

(** [unicode.IsSpace]: tab to carriage return, space, U+0085 and U+00A0 in
    Latin-1, and beyond it the characters with the White_Space property
    (U+1680, U+2000 to U+200A, U+2028, U+2029, U+202F, U+205F, U+3000). *)
Definition unicode_IsSpace (r : rune) : bool :=
  in_range 9 13 r || (r =? 32) || (r =? 133) || (r =? 160) ||
  (r =? 5760) || in_range 8192 8202 r || (r =? 8232) || (r =? 8233) ||
  (r =? 8239) || (r =? 8287) || (r =? 12288).

(** The classes of the four patterns in Go's regexp syntax: [\d], [\s]
    (tab, newline, form feed, carriage return, space) and [[A-Z]]. *)
Definition re_digit (r : rune) : bool := in_range 48 57 r.
Definition re_space (r : rune) : bool :=
  (r =? 9) || (r =? 10) || (r =? 12) || (r =? 13) || (r =? 32).
Definition re_upper (r : rune) : bool := in_range 65 90 r.
Definition re_char (c : rune) (r : rune) : bool := r =? c.

Definition hyphen : rune := 45.
Definition period : rune := 46.
Definition slash : rune := 47.

(** *** Library functions *)

Fixpoint dropWhile {A} (p : A -> bool) (l : list A) : list A :=
  match l with
  | x :: l' => if p x then dropWhile p l' else l
  | [] => []
  end.

Fixpoint takeWhile {A} (p : A -> bool) (l : list A) : list A :=
  match l with
  | x :: l' => if p x then x :: takeWhile p l' else []
  | [] => []
  end.

(** [strings.TrimSpace] *)
Definition strings_TrimSpace (s : list rune) : list rune :=
  rev (dropWhile unicode_IsSpace (rev (dropWhile unicode_IsSpace s))).

(** [strings.Fields]: the maximal runs of non-space runes; [cur] is the
    field being read, reversed. *)
Fixpoint Fields_from (s cur : list rune) : list (list rune) :=
  match s with
  | [] => match cur with [] => [] | _ => [rev cur] end
  | x :: s' =>
      if unicode_IsSpace x
      then match cur with [] => Fields_from s' [] | _ => rev cur :: Fields_from s' [] end
      else Fields_from s' (x :: cur)
  end.

Definition strings_Fields (s : list rune) : list (list rune) := Fields_from s [].

(** [strings.Count(s, sep)] and [strings.Index(s, sep)] for a separator of
    one rune. *)
Fixpoint strings_Count (s : list rune) (sep : rune) : Z :=
  match s with
  | [] => 0
  | x :: s' => (if x =? sep then 1 else 0) + strings_Count s' sep
  end.

Fixpoint strings_Index (s : list rune) (sep : rune) : option nat :=
  match s with
  | [] => None
  | x :: s' => if x =? sep then Some 0%nat else option_map S (strings_Index s' sep)
  end.

(** [strings.SplitN(s, sep, n)] for [n > 0]: at most [n] pieces, the last
    one the unsplit rest. *)
Fixpoint SplitN_pieces (n : nat) (s : list rune) (sep : rune) : list (list rune) :=
  match n with
  | O => []
  | S O => [s]
  | S n' =>
      match strings_Index s sep with
      | None => [s]
      | Some m => take m s :: SplitN_pieces n' (drop (S m) s) sep
      end
  end.

Definition strings_SplitN (s : list rune) (sep : rune) (n : Z) : list (list rune) :=
  if n =? 0 then []
  else if n <? 0 then SplitN_pieces (Z.to_nat (strings_Count s sep + 1)) s sep
  else SplitN_pieces (Z.to_nat n) s sep.

Definition strings_Split (s : list rune) (sep : rune) : list (list rune) :=
  strings_SplitN s sep (-1).

(** [strings.HasSuffix] and [strings.TrimSuffix] *)
Definition strings_HasSuffix (s suffix : list rune) : bool :=
  bool_decide (drop (length s - length suffix) s = suffix).

Definition strings_TrimSuffix (s suffix : list rune) : list rune :=
  if strings_HasSuffix s suffix then take (length s - length suffix) s else s.

(** [filepath.Base] and [filepath.Ext] with the separator [/]. *)
Definition isPathSeparator (r : rune) : bool := r =? slash.

Definition filepath_Base (path : list rune) : list rune :=
  match path with
  | [] => [period]
  | _ =>
      let path := rev (dropWhile isPathSeparator (rev path)) in
      let path := rev (takeWhile (fun r => negb (isPathSeparator r)) (rev path)) in
      match path with
      | [] => [slash]
      | _ => path
      end
  end.

(** The scan of [filepath.Ext] from the last rune backwards, on the reversed
    path; [acc] holds the runes already passed. *)
Fixpoint Ext_scan (rpath acc : list rune) : list rune :=
  match rpath with
  | [] => []
  | x :: rpath' =>
      if isPathSeparator x then []
      else if x =? period then x :: acc
      else Ext_scan rpath' (x :: acc)
  end.

Definition filepath_Ext (path : list rune) : list rune := Ext_scan (rev path) [].

(** *** Anchored patterns *)

(** The four patterns are a [^] followed by a sequence of character classes,
    each taken once or under [?], [*] or [+]. *)
Inductive quant : Type := One | Opt | Star | Plus.

Definition regex : Type := list ((rune -> bool) * quant).

(** A class under [*], followed by the rest of the pattern [k]: the star
    takes as many runes as it can and gives one back each time the rest
    fails, as Go's regexp prefers. *)
Fixpoint match_star (c : rune -> bool) (k : list rune -> option (list rune))
    (s : list rune) : option (list rune) :=
  match s with
  | x :: s' =>
      if c x
      then match match_star c k s' with Some r => Some r | None => k s end
      else k s
  | [] => k s
  end.

(** The match of a pattern at the start of [s]: the text left after the
    match. *)
Fixpoint match_here (re : regex) (s : list rune) : option (list rune) :=
  match re with
  | [] => Some s
  | (c, q) :: re' =>
      match q with
      | One =>
          match s with
          | x :: s' => if c x then match_here re' s' else None
          | [] => None
          end
      | Opt =>
          match s with
          | x :: s' =>
              if c x
              then match match_here re' s' with Some r => Some r | None => match_here re' s end
              else match_here re' s
          | [] => match_here re' s
          end
      | Star => match_star c (match_here re') s
      | Plus =>
          match s with
          | x :: s' => if c x then match_star c (match_here re') s' else None
          | [] => None
          end
      end
  end.

(** [regexp.MustCompile(pattern).ReplaceAllString(name, "")] for an anchored
    pattern whose matches are never empty: the only match there can be
    starts the string. *)
Definition ReplaceAllString_empty (re : regex) (name : list rune) : list rune :=
  match match_here re name with
  | Some rest => rest
  | None => name
  end.

(** The list [patterns] of [cleanTrackPrefix]. *)
Definition pattern1 : regex := [(re_digit, Plus); (re_char period, Opt); (re_space, Plus)].
Definition pattern2 : regex :=
  [(re_digit, Plus); (re_space, Star); (re_char hyphen, One); (re_space, Star)].
Definition pattern3 : regex := [(re_upper, One); (re_digit, Plus); (re_space, Plus)].
Definition pattern4 : regex :=
  [(re_upper, One); (re_digit, Plus); (re_space, Star); (re_char hyphen, One); (re_space, Star)].

Definition patterns : list regex := [pattern1; pattern2; pattern3; pattern4].

(** *** The decomposer *)

Definition cleanTrackPrefix (name : list rune) : list rune :=
  strings_TrimSpace (fold_left (fun name re => ReplaceAllString_empty re name) patterns name).

Definition parseOneHyphen (name : list rune) : list rune * list rune :=
  match strings_SplitN name hyphen 2 with
  | [p0; p1] => (strings_TrimSpace p0, strings_TrimSpace p1)
  | _ => ([], [])
  end.

Definition parseTwoHyphens (name : list rune) : list rune * list rune :=
  match strings_SplitN name hyphen 3 with
  | [p0; _; p2] => (strings_TrimSpace p0, strings_TrimSpace p2)
  | _ => ([], [])
  end.

Definition parseFourHyphens (name : list rune) : list rune * list rune :=
  match strings_SplitN name hyphen 5 with
  | [p0; p1; _; _; p4] =>
      let artistPart1 := strings_TrimSpace p0 in
      let artistPart2 := strings_TrimSpace p1 in
      (app artistPart1 (app [slash] artistPart2), strings_TrimSpace p4)
  | _ => ([], [])
  end.

Definition trySpaceSeparated (name : list rune) : list rune * list rune :=
  match strings_Fields name with
  | [w0; w1] => (w0, w1)
  | _ => ([], [])
  end.

Definition tryThreeHyphenFallback (name : list rune) : list rune * list rune :=
  match strings_SplitN name hyphen 4 with
  | [p0; _; _; p3] => (strings_TrimSpace p0, strings_TrimSpace p3)
  | _ => ([], [])
  end.

Definition tryManyHyphenFallback (name : list rune) : list rune * list rune :=
  let parts := strings_Split name hyphen in
  if (3 <=? length parts)%nat
  then (strings_TrimSpace (default [] (head parts)), strings_TrimSpace (default [] (last parts)))
  else ([], []).

Definition handleEdgeCase (name : list rune) (caseType : string) : list rune * list rune :=
  if bool_decide (caseType = "no_hyphens") then trySpaceSeparated name
  else if bool_decide (caseType = "three_hyphens") then tryThreeHyphenFallback name
  else if bool_decide (caseType = "many_hyphens") then tryManyHyphenFallback name
  else ([], []).

(** The name [parseFilenameWithEdgeCase] dispatches on: the base name
    without its extension, cleaned. *)
Definition cleanedName (filePath : list rune) : list rune :=
  let filename := filepath_Base filePath in
  let name := strings_TrimSuffix filename (filepath_Ext filename) in
  cleanTrackPrefix name.

Definition parseFilenameWithEdgeCase (filePath : list rune)
    : list rune * list rune * string :=
  let name := cleanedName filePath in
  let hyphenCount := strings_Count name hyphen in
  match hyphenCount with
  | 0 => (handleEdgeCase name "no_hyphens", "no_hyphens")
  | 1 => (parseOneHyphen name, "")
  | 2 => (parseTwoHyphens name, "")
  | 3 => (handleEdgeCase name "three_hyphens", "three_hyphens")
  | 4 => (parseFourHyphens name, "")
  | _ => (handleEdgeCase name "many_hyphens", "many_hyphens")
  end.

Definition parseFilename (filePath : list rune) : list rune * list rune :=
  let '(artist, title, _) := parseFilenameWithEdgeCase filePath in (artist, title).

(** *** Processing the files of a batch *)

(** What [tag.ReadFrom] returns: the methods of [tag.Metadata] that the
    code calls.  A value of the raw tag map stands for its rendering under
    the verb [%v], the only use the code makes of it; [None] is the nil
    map. *)
Record Metadata := {
  md_Title : list rune;
  md_Artist : list rune;
  md_Album : list rune;
  md_Genre : list rune;
  md_Year : Z;
  md_Raw : option (gmap string (list rune))
}.

(** The label lookup in the raw tags: [labelInfo] and [hasLabel] after the
    frames TPUB and TXXX were looked at, in this order. *)
Definition rawLabel (rawTags : option (gmap string (list rune))) : list rune * bool :=
  match rawTags with
  | None => ([], false)
  | Some rawTags =>
      let '(labelInfo, hasLabel) :=
        match rawTags !! "TPUB" with
        | Some pub => (pub, bool_decide (pub <> []))
        | None => ([], false)
        end in
      match rawTags !! "TXXX" with
      | Some txxx => (txxx, bool_decide (txxx <> []))
      | None => (labelInfo, hasLabel)
      end
  end.

(** The counters and the edge-case map of [runBatch]. *)
Record Tally := {
  needsEnrichment : Z;
  hasLabel : Z;
  errorCount : Z;
  enrichmentSuccess : Z;
  enrichmentFailed : Z;
  edgeCases : gmap string (list (list rune))
}.

Definition emptyTally : Tally :=
  {| needsEnrichment := 0; hasLabel := 0; errorCount := 0;
     enrichmentSuccess := 0; enrichmentFailed := 0; edgeCases := ∅ |}.

(** The [switch status] of the loop. *)
Definition countStatus (status : string) (t : Tally) : Tally :=
  if bool_decide (status = "needs_enrichment") then
    {| needsEnrichment := wrap64 (needsEnrichment t + 1); hasLabel := hasLabel t;
       errorCount := errorCount t; enrichmentSuccess := enrichmentSuccess t;
       enrichmentFailed := enrichmentFailed t; edgeCases := edgeCases t |}
  else if bool_decide (status = "has_label") then
    {| needsEnrichment := needsEnrichment t; hasLabel := wrap64 (hasLabel t + 1);
       errorCount := errorCount t; enrichmentSuccess := enrichmentSuccess t;
       enrichmentFailed := enrichmentFailed t; edgeCases := edgeCases t |}
  else if bool_decide (status = "error") then
    {| needsEnrichment := needsEnrichment t; hasLabel := hasLabel t;
       errorCount := wrap64 (errorCount t + 1); enrichmentSuccess := enrichmentSuccess t;
       enrichmentFailed := enrichmentFailed t; edgeCases := edgeCases t |}
  else if bool_decide (status = "enriched") then
    {| needsEnrichment := needsEnrichment t; hasLabel := hasLabel t;
       errorCount := errorCount t; enrichmentSuccess := wrap64 (enrichmentSuccess t + 1);
       enrichmentFailed := enrichmentFailed t; edgeCases := edgeCases t |}
  else if bool_decide (status = "enrichment_failed") then
    {| needsEnrichment := needsEnrichment t; hasLabel := hasLabel t;
       errorCount := errorCount t; enrichmentSuccess := enrichmentSuccess t;
       enrichmentFailed := wrap64 (enrichmentFailed t + 1); edgeCases := edgeCases t |}
  else t.

(** [edgeCases[edgeCase] = append(edgeCases[edgeCase], file)] when the tag
    is not empty. *)
Definition collectEdgeCase (edgeCase : string) (file : list rune) (t : Tally) : Tally :=
  if bool_decide (edgeCase <> "") then
    {| needsEnrichment := needsEnrichment t; hasLabel := hasLabel t;
       errorCount := errorCount t; enrichmentSuccess := enrichmentSuccess t;
       enrichmentFailed := enrichmentFailed t;
       edgeCases :=
         <[edgeCase := (default [] (edgeCases t !! edgeCase) ++ [file])%list]> (edgeCases t) |}
  else t.

Section Batch.
Context {R : Runtime}.

(** The file system and the tag reader: [os.Open], [tag.ReadFrom], and the
    bytes of a string given by its code points. *)
Variable File : Type.
Variable os_Open : list rune -> World -> (File + error) * World.
Variable tag_ReadFrom : File -> World -> (Metadata + error) * World.
Variable bytes : list rune -> string.

(** [processFileWithEdgeCase]: the status and the edge-case tag. *)
Definition processFileWithEdgeCase (filePath : list rune)
    (metadataEnricher : option enricher.Enricher) (ctx : Ctx) (w : World)
    : (string * string) * World :=
  match os_Open filePath w with
  | (inr _, w) => (("error", ""), w)
  | (inl file, w) =>
      let '(read, w) := tag_ReadFrom file w in
      let '(title, artist, hasLabel, parseEdgeCase) :=
        match read with
        | inr _ =>
            let '(parsedArtist, parsedTitle, edgeType) := parseFilenameWithEdgeCase filePath in
            (parsedTitle, parsedArtist, false, edgeType)
        | inl metadata =>
            (strings_TrimSpace (md_Title metadata), strings_TrimSpace (md_Artist metadata),
             (rawLabel (md_Raw metadata)).2, "")
        end in
      let hasBasicInfo := bool_decide (title <> []) && bool_decide (artist <> []) in
      if negb hasBasicInfo then (("needs_enrichment", parseEdgeCase), w)
      else if hasLabel then (("has_label", parseEdgeCase), w)
      else
        match metadataEnricher with
        | Some e =>
            if hasBasicInfo then
              let '((enrichedData, err), w) :=
                enricher.Lookup e ctx (bytes artist) (bytes title) w in
              match err, enrichedData with
              | Some _, _ => (("enrichment_failed", parseEdgeCase), w)
              | None, Some _ => (("enriched", parseEdgeCase), w)
              | None, None => (("needs_enrichment", parseEdgeCase), w)
              end
            else (("needs_enrichment", parseEdgeCase), w)
        | None => (("needs_enrichment", parseEdgeCase), w)
        end
  end.

(** The processing loop of [runBatch]. *)
Fixpoint processFiles (files : list (list rune))
    (metadataEnricher : option enricher.Enricher) (ctx : Ctx) (t : Tally) (w : World)
    : Tally * World :=
  match files with
  | [] => (t, w)
  | file :: rest =>
      let '((status, edgeCase), w) := processFileWithEdgeCase file metadataEnricher ctx w in
      let t := countStatus status t in
      let t := collectEdgeCase edgeCase file t in
      processFiles rest metadataEnricher ctx t w
  end.

End Batch.

End cmd.

(** ** A scripted runtime

    One concrete [Runtime], used to run the code on examples.  A context is
    [None] for [context.Background()] and [Some (t, e)] for a context that is
    done from instant [t] on with [ctx.Err() = e].  The world is the clock, the
    remote exchanges still to come, each with the time it takes, and the
    state of one adapter.  Time passes only while the program blocks. *)

Module sim.
Import enricher musicbrainz.

Definition SimCtx : Type := option (Time * error).

Record SimWorld := {
  now : Time;
  exchanges : list (Duration * (Response + error));
  adapter : MusicBrainzProvider
}.

Definition at_time (t : Time) (w : SimWorld) : SimWorld :=
  {| now := t; exchanges := exchanges w; adapter := adapter w |}.

Definition sim_Err (c : SimCtx) (w : SimWorld) : option error :=
  match c with
  | Some (t, e) => if t <=? now w then Some e else None
  | None => None
  end.

Definition sim_WithTimeout (c : SimCtx) (d : Duration) (w : SimWorld) : SimCtx * SimWorld :=
  let deadline := now w + d in
  match c with
  | Some (t, e) => if t <=? deadline then (c, w) else (Some (deadline, context_DeadlineExceeded), w)
  | None => (Some (deadline, context_DeadlineExceeded), w)
  end.

(** The timer fires [d] after the select starts; a context done no later
    than that wins. *)
Definition sim_select (d : Duration) (c : SimCtx) (w : SimWorld) : bool * SimWorld :=
  let fire := now w + Z.max d 0 in
  match c with
  | Some (t, e) =>
      if t <=? fire then (false, at_time (Z.max (now w) t) w) else (true, at_time fire w)
  | None => (true, at_time fire w)
  end.

(** An exchange takes the scripted time, unless the request's context is
    done before the answer is in: then it fails with the context's error
    inside a [*url.Error], as [net/http] does. *)
Definition sim_Do (req : Request SimCtx) (w : SimWorld) : (Response + error) * SimWorld :=
  match exchanges w with
  | [] => (inr (urlError "Get" (req_url req) (errorString "connection refused")), w)
  | (latency, answer) :: rest =>
      let w' := {| now := now w; exchanges := rest; adapter := adapter w |} in
      let arrival := now w + latency in
      match req_ctx req with
      | Some (t, e) =>
          if t <=? arrival
          then (inr (urlError "Get" (req_url req) e), at_time (Z.max (now w) t) w')
          else (answer, at_time arrival w')
      | None => (answer, at_time arrival w')
      end
  end.

(** ASCII case folding stands for [strings.EqualFold]. *)
Definition lower (a : ascii) : ascii :=
  let n := nat_of_ascii a in
  if ((65 <=? n) && (n <=? 90))%nat then ascii_of_nat (n + 32) else a.

Definition sim_EqualFold (s t : string) : bool :=
  bool_decide (map lower (list_ascii_of_string s) = map lower (list_ascii_of_string t)).

Definition digit_of (a : ascii) : option Z :=
  let n := Z.of_nat (nat_of_ascii a) in
  if (48 <=? n) && (n <=? 57) then Some (n - 48) else None.

Fixpoint digits_value (acc : Z) (s : list ascii) : option Z :=
  match s with
  | [] => Some acc
  | a :: s' =>
      match digit_of a with
      | Some d => digits_value (10 * acc + d) s'
      | None => None
      end
  end.

Definition sim_Atoi (s : string) : Z + error :=
  let syntax := inr (errorString "strconv.Atoi: invalid syntax") in
  let number (sign : Z) (ds : list ascii) : Z + error :=
    match ds with
    | [] => syntax
    | _ =>
        match digits_value 0 ds with
        | Some v =>
            if (minInt64 <=? sign * v) && (sign * v <=? maxInt64) then inl (sign * v)
            else inr (errorString "strconv.Atoi: value out of range")
        | None => syntax
        end
    end in
  match list_ascii_of_string s with
  | "+"%char :: ds => number 1 ds
  | "-"%char :: ds => number (-1) ds
  | ds => number 1 ds
  end.

Definition sim_Itoa (n : Z) : string := pretty n.

(** Unescaped [key=value] pairs joined by [&] stand for
    [url.Values.Encode]. *)
Definition sim_Encode (kvs : list (string * string)) : string :=
  String.concat "&" (map (fun kv => kv.1 ++ "=" ++ kv.2) kvs).

Global Instance simRuntime : Runtime := {|
  World := SimWorld;
  Ctx := SimCtx;
  ctx_Err := sim_Err;
  context_WithTimeout := sim_WithTimeout;
  time_Now := fun w => (now w, w);
  select_After_Done := sim_select;
  http_NewRequestWithContext := fun c method url => inl (mkRequest c method url []);
  client_Do := sim_Do;
  io_ReadAll := fun resp w => (inl (Body resp), w);
  strings_EqualFold := sim_EqualFold;
  strconv_Itoa := sim_Itoa;
  strconv_Atoi := sim_Atoi;
  url_Encode := sim_Encode
|}.

(** Bodies are decoded by table: the example responses below are the only
    well-formed documents. *)
Definition rec_low : Recording.t :=
  Recording.mk "low-score" "Different Song" 0 50
    [ArtistCredit.mk "" "" (Artist.mk "" "Different Artist" "")] [].
Definition rec_exact : Recording.t :=
  Recording.mk "exact-match" "Music" 0 80
    [ArtistCredit.mk "" "" (Artist.mk "" "LTJ Bukem" "")] [].
Definition rec_high : Recording.t :=
  Recording.mk "high-score-wrong-match" "Wrong Song" 0 90
    [ArtistCredit.mk "" "" (Artist.mk "" "Wrong Artist" "")] [].
Definition rec_zero : Recording.t :=
  Recording.mk "zero-score" "Other" 0 0
    [ArtistCredit.mk "" "" (Artist.mk "" "Someone" "")] [].

Definition rel_reissue : Release.t := Release.mk "reissue" "Music (Reissue)" "2010-01-01" "" [].
Definition rel_original : Release.t :=
  Release.mk "original" "Music" "1993-04-01" ""
    [LabelInfo.mk "GLR001" (Label.mk "" "Good Looking Records")].
Definition rel_later : Release.t :=
  Release.mk "later-release" "Music (Special Edition)" "2000-01-01" "" [].
Definition rel_undated : Release.t := Release.mk "undated" "Music (Promo)" "" "" [].

Definition body_search : string := "search:low,exact,high".
Definition body_detail : string := "detail:reissue,original,later".

Global Instance simJSON : JSON := {|
  json_Unmarshal_search := fun body =>
    if bool_decide (body = body_search)
    then inl (RecordingSearchResult.mk "" 3 0 [rec_low; rec_exact; rec_high])
    else inr (errorString "invalid character");
  json_Unmarshal_detail := fun body =>
    if bool_decide (body = body_detail)
    then inl (RecordingDetail.mk "exact-match" "Music" 0 [] [rel_reissue; rel_original; rel_later])
    else inr (errorString "invalid character")
|}.

(** The adapter held in the world, as a [MetadataProvider]. *)
Definition with_adapter (m : MusicBrainzProvider) (w : SimWorld) : SimWorld :=
  {| now := now w; exchanges := exchanges w; adapter := m |}.

Definition MusicBrainz : MetadataProvider := {|
  Name := "MusicBrainz";
  Lookup_ := fun ctx artist title w =>
    let '(res, m, w) := musicbrainz.Lookup (adapter w) ctx artist title w in
    (res, with_adapter m w);
  enricher.LookupWithHints := fun ctx req w =>
    let '(res, m, w) := musicbrainz.LookupWithHints (adapter w) ctx req w in
    (res, with_adapter m w);
  SupportsGenre := fun _ => true;
  RateLimit := Build_RateLimitInfo 1.0%float 1 true false;
  Close_ := fun w => (None, w)
|}.

(** Providers with a fixed answer, and one that only finds a track when the
    request carries no album hint. *)
Definition answering (name : string) (answer : SearchRequest.t -> Result) : MetadataProvider := {|
  Name := name;
  Lookup_ := fun ctx artist title w =>
    (answer (SearchRequest.mk artist title "" "" "" 0 true 5), w);
  enricher.LookupWithHints := fun ctx req w => (answer req, w);
  SupportsGenre := fun _ => true;
  RateLimit := Build_RateLimitInfo 1.0%float 1 false false;
  Close_ := fun w => (None, w)
|}.

Definition track (label : string) (confidence : float) : TrackMetadata.t :=
  TrackMetadata.mk "LTJ Bukem" "Music" "" label "" "" "" 0 "" "example" confidence ∅.

Definition failing : MetadataProvider :=
  answering "failing" (fun _ => (None, Some ErrAPIError)).
Definition weak : MetadataProvider :=
  answering "weak" (fun _ => (Some (track "Label" 0.5%float), None)).
Definition strong : MetadataProvider :=
  answering "strong" (fun _ => (Some (track "Label" 0.9%float), None)).
Definition picky : MetadataProvider :=
  answering "picky" (fun req =>
    if bool_decide (SearchRequest.Album req = "")
    then (Some (track "Label" 0.9%float), None)
    else (None, Some ErrNotFound)).

Definition world0 : SimWorld :=
  {| now := 1700000000 * Second; exchanges := []; adapter := NewMusicBrainzProvider |}.

(** Both remote calls answer after 0.2 s with the example documents. *)
Definition world_online : SimWorld :=
  {| now := 1700000000 * Second;
     exchanges := [(200000000, inl (mkResponse 200 body_search));
                   (200000000, inl (mkResponse 200 body_detail))];
     adapter := NewMusicBrainzProvider |}.

Definition request : SearchRequest.t :=
  SearchRequest.mk "LTJ Bukem" "Music" "Logical Progression" "dnb" "1993" 0 true 5.

(** A decoder that reads the given recordings and releases out of every
    body. *)
Definition jsonOf (recordings : list Recording.t) (releases : list Release.t) : JSON := {|
  json_Unmarshal_search := fun _ =>
    inl (RecordingSearchResult.mk "" (Z.of_nat (length recordings)) 0 recordings);
  json_Unmarshal_detail := fun _ => inl (RecordingDetail.mk "" "" 0 [] releases)
|}.

(** A scripted file system and tag reader.  A file is its path.  The file
    [gone.aiff] cannot be opened; [tagged.aiff] has tags with a publisher
    frame and [plain.aiff] tags without one; every other file has no tags
    the reader understands. *)
Definition SimFile : Type := list cmd.rune.

Definition sim_Open (path : list cmd.rune) (w : SimWorld) : (SimFile + error) * SimWorld :=
  if bool_decide (path = cmd.runes "gone.aiff")
  then (inr (errorString "open gone.aiff: no such file or directory"), w)
  else (inl path, w).

Definition md_tagged : cmd.Metadata := {|
  cmd.md_Title := cmd.runes " Music ";
  cmd.md_Artist := cmd.runes "LTJ Bukem";
  cmd.md_Album := cmd.runes "Logical Progression";
  cmd.md_Genre := cmd.runes "dnb";
  cmd.md_Year := 1993;
  cmd.md_Raw := Some {[ "TPUB" := cmd.runes "Good Looking Records" ]}
|}.

Definition md_plain : cmd.Metadata := {|
  cmd.md_Title := cmd.runes "Music";
  cmd.md_Artist := cmd.runes "LTJ Bukem";
  cmd.md_Album := [];
  cmd.md_Genre := [];
  cmd.md_Year := 0;
  cmd.md_Raw := Some ∅
|}.

Definition sim_ReadFrom (file : SimFile) (w : SimWorld) : (cmd.Metadata + error) * SimWorld :=
  if bool_decide (file = cmd.runes "tagged.aiff") then (inl md_tagged, w)
  else if bool_decide (file = cmd.runes "plain.aiff") then (inl md_plain, w)
  else (inr (errorString "no tags found"), w).

(** The bytes of a string of ASCII code points. *)
Definition sim_bytes (s : list cmd.rune) : string :=
  string_of_list_ascii (map (fun r => ascii_of_N (Z.to_N r)) s).

End sim.

(** ** Vocabulary of the statements *)

Module spec.
Import enricher.

(** The binary64 minimum, for the clamp of the confidence score. *)
Definition fmin (x y : float) : float := if PrimFloat.ltb y x then y else x.

(** The confidence score in the words of the specification: 0.2, plus 0.4
    for an exact match and 0.2 otherwise, plus 0.2 for a label, 0.1 for a
    release date or year and 0.1 for a catalog number, clamped to 1.0; the
    sum is taken from left to right in binary64. *)
Definition ConfidenceScorer (exactMatch label date catalog : bool) : float :=
  fmin 1.0
    (0.2 + (if exactMatch then 0.4 else 0.2) + (if label then 0.2 else 0)
     + (if date then 0.1 else 0) + (if catalog then 0.1 else 0))%float.

Section WithRuntime.
Context {R : Runtime}.

(** A provider's answer qualifies when it carries no error and a result
    whose confidence is at least [MinConfidence], in binary64, and whose
    label is not empty when [RequireLabel] is set. *)
Definition qualifies (cfg : EnricherConfig) (out : Result) : bool :=
  match out.2 with
  | Some _ => false
  | None =>
      match out.1 with
      | None => false
      | Some r =>
          PrimFloat.leb (MinConfidence cfg) (TrackMetadata.Confidence r)
          && (if RequireLabel cfg then bool_decide (TrackMetadata.Label r <> "") else true)
      end
  end.

(** The answers of the providers [ps] called one after the other, and the
    world they leave. *)
Fixpoint call_all (ps : list MetadataProvider) (ctx : Ctx) (req : SearchRequest.t)
    (w : World) : list Result * World :=
  match ps with
  | [] => ([], w)
  | p :: ps' =>
      let '(out, w1) := LookupWithHints p ctx req w in
      let '(outs, w2) := call_all ps' ctx req w1 in
      (out :: outs, w2)
  end.

(** The error of the last answer that has one, [init] when none has. *)
Definition last_error_from (init : option error) (outs : list Result) : option error :=
  fold_left (fun acc out => match out.2 with Some e => Some e | None => acc end) outs init.

Definition last_error (outs : list Result) : option error := last_error_from None outs.

(** The two ways a pass of any strategy can end. *)
Definition well_formed (cfg : EnricherConfig) (res : Result * World) : Prop :=
  (exists r w1, res = ((Some r, None), w1) /\
     PrimFloat.leb (MinConfidence cfg) (TrackMetadata.Confidence r) = true /\
     (RequireLabel cfg = true -> TrackMetadata.Label r <> "")) \/
  (exists err w1, res = ((None, Some err), w1)).

(** The errors of the providers [ps] closed one after the other, and the
    world they leave. *)
Fixpoint close_all (ps : list MetadataProvider) (w : World) : list (option error) * World :=
  match ps with
  | [] => ([], w)
  | p :: ps' =>
      let '(err, w1) := Close_ p w in
      let '(errs, w2) := close_all ps' w1 in
      (err :: errs, w2)
  end.

(** The candidate [r] at index [i] has the highest adjusted score, and is
    the first to have it. *)
Definition best_scored (recordings : list musicbrainz.Recording.t)
    (targetArtist targetTitle : string) (i : nat) (r : musicbrainz.Recording.t) : Prop :=
  recordings !! i = Some r /\
  (forall j r', recordings !! j = Some r' ->
     musicbrainz.recordingScore r' targetArtist targetTitle
     <= musicbrainz.recordingScore r targetArtist targetTitle) /\
  (forall j r', (j < i)%nat -> recordings !! j = Some r' ->
     musicbrainz.recordingScore r' targetArtist targetTitle
     < musicbrainz.recordingScore r targetArtist targetTitle).

End WithRuntime.

(** The unclamped sum of [CalculateConfidence]. *)
Definition ConfidenceSum (exactMatch label date catalog : bool) : float :=
  (0.2 + (if exactMatch then 0.4 else 0.2) + (if label then 0.2 else 0)
   + (if date then 0.1 else 0) + (if catalog then 0.1 else 0))%float.

(** The order of binary64 numbers through a key: the comparison of two
    floats that are not NaN is the lexicographic comparison of their
    keys. *)
Definition sf_key (x : spec_float) : Z * Z * Z :=
  match x with
  | S754_nan => (0, 0, 0)
  | S754_zero _ => (0, 0, 0)
  | S754_infinity s => (if s then -2 else 2, 0, 0)
  | S754_finite s m e => if s then (-1, - e, - Zpos m) else (1, e, Zpos m)
  end.

Definition key_lt (k1 k2 : Z * Z * Z) : Prop :=
  let '(a1, b1, c1) := k1 in
  let '(a2, b2, c2) := k2 in
  a1 < a2 \/ (a1 = a2 /\ (b1 < b2 \/ (b1 = b2 /\ c1 < c2))).

Definition fnum (f : float) : Prop := Prim2SF f <> S754_nan.
Definition fkey (f : float) : Z * Z * Z := sf_key (Prim2SF f).

(** The answer at index [i] qualifies, no qualifying answer has a higher
    confidence, and every qualifying answer before it has a lower one. *)
Definition best_answer (cfg : EnricherConfig) (outs : list Result)
    (i : nat) (r : TrackMetadata.t) : Prop :=
  outs !! i = Some (Some r, None) /\
  qualifies cfg (Some r, None) = true /\
  (forall j r', outs !! j = Some (Some r', None) -> qualifies cfg (Some r', None) = true ->
     PrimFloat.leb (TrackMetadata.Confidence r') (TrackMetadata.Confidence r) = true) /\
  (forall j r', (j < i)%nat -> outs !! j = Some (Some r', None) ->
     qualifies cfg (Some r', None) = true ->
     PrimFloat.ltb (TrackMetadata.Confidence r') (TrackMetadata.Confidence r) = true).

Definition dated (r : musicbrainz.Release.t) : Prop := musicbrainz.Release.Date r <> "".

(** The release [r] at index [i] carries the smallest non-empty date of the
    list in byte-wise lexicographic order, and is the first to carry it. *)
Definition earliest_dated (releases : list musicbrainz.Release.t)
    (i : nat) (r : musicbrainz.Release.t) : Prop :=
  releases !! i = Some r /\ dated r /\
  (forall j r', releases !! j = Some r' -> dated r' ->
     String.ltb (musicbrainz.Release.Date r') (musicbrainz.Release.Date r) = false) /\
  (forall j r', (j < i)%nat -> releases !! j = Some r' -> dated r' ->
     String.ltb (musicbrainz.Release.Date r) (musicbrainz.Release.Date r') = true).

(** The strings a pattern matches: one run of runes of the class for each
    item, of a length its quantifier allows. *)
Definition quant_ok (q : cmd.quant) (n : nat) : Prop :=
  match q with
  | cmd.One => n = 1%nat
  | cmd.Opt => (n <= 1)%nat
  | cmd.Star => True
  | cmd.Plus => (1 <= n)%nat
  end.

Fixpoint in_lang (re : cmd.regex) (p : list cmd.rune) : Prop :=
  match re with
  | [] => p = []
  | (c, q) :: re' =>
      exists u v, p = (u ++ v)%list /\ Forall (fun x => c x = true) u /\
                  quant_ok q (length u) /\ in_lang re' v
  end.

(** The runs of a match, one for each item of the pattern: runes of the
    item's class, as many as its quantifier allows. *)
Fixpoint runs_of (re : cmd.regex) (us : list (list cmd.rune)) : Prop :=
  match re, us with
  | [], [] => True
  | (c, q) :: re', u :: us' =>
      Forall (fun x => c x = true) u /\ quant_ok q (length u) /\ runs_of re' us'
  | _, _ => False
  end.

(** The preference of Go's regexp among the matches that start at one
    position: [?], [*] and [+] are greedy, so the match whose first run is
    longer is preferred, then the one whose second run is longer, and so
    on. *)
Fixpoint preferred (us vs : list (list cmd.rune)) : Prop :=
  match us, vs with
  | u :: us', v :: vs' =>
      (length v < length u)%nat \/ (length v = length u /\ preferred us' vs')
  | _, _ => True
  end.

(** [us] are the runs of the match of [re] that is taken at the start of
    [s]: a match, preferred to every other match at the start of [s]. *)
Definition selected (re : cmd.regex) (s : list cmd.rune) (us : list (list cmd.rune)) : Prop :=
  runs_of re us /\
  (exists rest, s = (concat us ++ rest)%list) /\
  (forall vs rest, s = (concat vs ++ rest)%list -> runs_of re vs -> preferred us vs).

(** [s'] is [s] without the match of [re] taken at its start when [s]
    starts with a match, and [s] itself when it does not. *)
Definition strips (re : cmd.regex) (s s' : list cmd.rune) : Prop :=
  (exists us, selected re s us /\ s = (concat us ++ s')%list) \/
  (s' = s /\ forall vs rest, s = (concat vs ++ rest)%list -> ~ runs_of re vs).

(** At most one prefix is removed overall: the cleaned name is the trimmed
    name, or the trimmed name after one pattern was applied. *)
Definition at_most_one_prefix (name : list cmd.rune) : Prop :=
  cmd.cleanTrackPrefix name = cmd.strings_TrimSpace name \/
  exists re, In re cmd.patterns /\
    cmd.cleanTrackPrefix name = cmd.strings_TrimSpace (cmd.ReplaceAllString_empty re name).

(** The outcomes of the files of a batch, processed one after the
    other. *)
Fixpoint batch_outcomes {R : Runtime} {File : Type}
    (os_Open : list cmd.rune -> World -> (File + error) * World)
    (tag_ReadFrom : File -> World -> (cmd.Metadata + error) * World)
    (bytes : list cmd.rune -> string)
    (files : list (list cmd.rune)) (metadataEnricher : option enricher.Enricher)
    (ctx : Ctx) (w : World) : list (string * string) * World :=
  match files with
  | [] => ([], w)
  | file :: rest =>
      let '(out, w1) :=
        cmd.processFileWithEdgeCase File os_Open tag_ReadFrom bytes file metadataEnricher
          ctx w in
      let '(outs, w2) :=
        batch_outcomes os_Open tag_ReadFrom bytes rest metadataEnricher ctx w1 in
      (out :: outs, w2)
  end.

(** The files whose outcome carries the tag [tag], in processing order. *)
Definition tagged (tag : string) (files : list (list cmd.rune))
    (outs : list (string * string)) : list (list cmd.rune) :=
  (filter (fun fo => fo.2.2 = tag) (zip files outs)).*1.

(** A string with no white space at either end. *)
Definition trimmed (s : list cmd.rune) : Prop :=
  (forall x, head s = Some x -> cmd.unicode_IsSpace x = false) /\
  (forall x, last s = Some x -> cmd.unicode_IsSpace x = false).

(** A name that does not start like a track prefix: not with a digit, and
    not with an upper-case letter followed by a digit. *)
Definition no_track_prefix (name : list cmd.rune) : Prop :=
  match name with
  | [] => True
  | x :: rest =>
      cmd.re_digit x = false /\
      (cmd.re_upper x = true ->
       match rest with
       | [] => True
       | y :: _ => cmd.re_digit y = false
       end)
  end.

End spec.

(** * Properties *)

(** ** The confidence score *)

Section Confidence.
Import enricher spec.

Lemma CalculateConfidence_cases (md : TrackMetadata.t) (exactMatch : bool) :
  CalculateConfidence md exactMatch =
  ConfidenceScorer exactMatch
    (bool_decide (TrackMetadata.Label md <> ""))
    (bool_decide (TrackMetadata.ReleaseDate md <> "") || (0 <? TrackMetadata.Year md))
    (bool_decide (TrackMetadata.CatalogNumber md <> "")).
Proof.
  unfold CalculateConfidence, ConfidenceScorer.
  destruct exactMatch, (bool_decide (TrackMetadata.Label md <> "")),
    (bool_decide (TrackMetadata.ReleaseDate md <> "") || (0 <? TrackMetadata.Year md)),
    (bool_decide (TrackMetadata.CatalogNumber md <> "")); vm_compute; reflexivity.
Qed.

Lemma ConfidenceScorer_range (exactMatch label date catalog : bool) :
  PrimFloat.leb 0 (ConfidenceScorer exactMatch label date catalog) = true /\
  PrimFloat.leb (ConfidenceScorer exactMatch label date catalog) 1 = true.
Proof. destruct exactMatch, label, date, catalog; split; vm_compute; reflexivity. Qed.

(** C3. [CalculateConfidence] returns the minimum of 1.0 and the sum
    0.2 + (0.4 for an exact match, else 0.2) + (0.2 if the label is
    non-empty) + (0.1 if the release date is non-empty or the year is
    positive) + (0.1 if the catalog number is non-empty), in binary64; an
    exact match with label, date and catalog number scores exactly 1.0, a
    fuzzy match with none of them exactly 0.4, and every score lies between
    0 and 1. *)
Theorem CalculateConfidence_spec (md : TrackMetadata.t) (exactMatch : bool) :
  CalculateConfidence md exactMatch =
    ConfidenceScorer exactMatch
      (bool_decide (TrackMetadata.Label md <> ""))
      (bool_decide (TrackMetadata.ReleaseDate md <> "") || (0 <? TrackMetadata.Year md))
      (bool_decide (TrackMetadata.CatalogNumber md <> "")) /\
  (exactMatch = true -> TrackMetadata.Label md <> "" ->
   TrackMetadata.ReleaseDate md <> "" -> TrackMetadata.CatalogNumber md <> "" ->
   CalculateConfidence md exactMatch = 1.0%float) /\
  (exactMatch = false -> TrackMetadata.Label md = "" ->
   TrackMetadata.ReleaseDate md = "" -> TrackMetadata.Year md <= 0 ->
   TrackMetadata.CatalogNumber md = "" ->
   CalculateConfidence md exactMatch = 0.4%float) /\
  PrimFloat.leb 0 (CalculateConfidence md exactMatch) = true /\
  PrimFloat.leb (CalculateConfidence md exactMatch) 1 = true.
Proof.
  rewrite CalculateConfidence_cases.
  split; [reflexivity|].
  split; [|split; [|apply ConfidenceScorer_range]].
  - intros -> Hl Hd Hc.
    rewrite !bool_decide_eq_true_2 by assumption. reflexivity.
  - intros -> Hl Hd Hy Hc.
    rewrite !bool_decide_eq_false_2 by (intros H; contradiction).
    replace (0 <? TrackMetadata.Year md) with false by (symmetry; apply Z.ltb_ge; lia).
    reflexivity.
Qed.

(** The score of a complete exact match and of a bare fuzzy match. *)
Lemma CalculateConfidence_spec_witness :
  CalculateConfidence (sim.track "Label" 0) false = 0.6000000000000001%float /\
  CalculateConfidence
    (TrackMetadata.mk "a" "t" "" "Label" "1993-04-01" "" "GLR001" 1993 "" "" 0 ∅) true
  = 1.0%float /\
  CalculateConfidence (sim.track "" 0) false = 0.4%float.
Proof.
  split; [reflexivity|]. split.
  - apply (CalculateConfidence_spec
             (TrackMetadata.mk "a" "t" "" "Label" "1993-04-01" "" "GLR001" 1993 "" "" 0 ∅) true);
      [reflexivity | discriminate | discriminate | discriminate].
  - apply (CalculateConfidence_spec (sim.track "" 0) false);
      [reflexivity | reflexivity | reflexivity | simpl; lia | reflexivity].
Defined.

End Confidence.

(** ** The orchestrator *)

Section Orchestrator.
Import enricher spec.
Context {R : Runtime}.

Lemma accepted_Some (cfg : EnricherConfig) (result : option TrackMetadata.t) :
  accepted cfg result = true ->
  exists r, result = Some r /\
    PrimFloat.leb (MinConfidence cfg) (TrackMetadata.Confidence r) = true /\
    (RequireLabel cfg = true -> TrackMetadata.Label r <> "").
Proof.
  destruct result as [r|]; simpl; [|discriminate].
  intros [Hc Hl]%andb_prop. exists r. split; [reflexivity|]. split; [exact Hc|].
  intros Hreq. rewrite Hreq in Hl. simpl in Hl. by apply bool_decide_eq_true in Hl.
Qed.

(** The gate of the code is the gate of the statements. *)
Lemma qualifies_accepted (cfg : EnricherConfig) (result : option TrackMetadata.t) :
  qualifies cfg (result, None) = accepted cfg result.
Proof.
  destruct result as [r|]; [|reflexivity].
  unfold qualifies, accepted. cbn [fst snd]. destruct (RequireLabel cfg); reflexivity.
Qed.

(** What the loop of [lookupFirst] returns, from any point of the list and
    with any error already remembered. *)
Lemma lookupFirst_loop_spec (cfg : EnricherConfig) (ctx : Ctx) (req : SearchRequest.t)
    (ps : list MetadataProvider) :
  forall (lastErr : option error) (w : World),
  (exists pre p post outs w1 r w2,
     ps = (pre ++ p :: post)%list /\
     call_all pre ctx req w = (outs, w1) /\
     Forall (fun out => qualifies cfg out = false) outs /\
     LookupWithHints p ctx req w1 = ((Some r, None), w2) /\
     PrimFloat.leb (MinConfidence cfg) (TrackMetadata.Confidence r) = true /\
     (RequireLabel cfg = true -> TrackMetadata.Label r <> "") /\
     lookupFirst_loop cfg ps ctx req lastErr w = ((Some r, None), w2))
  \/
  (exists outs w1,
     call_all ps ctx req w = (outs, w1) /\
     Forall (fun out => qualifies cfg out = false) outs /\
     lookupFirst_loop cfg ps ctx req lastErr w =
       ((None, Some (default ErrNotFound (last_error_from lastErr outs))), w1)).
Proof.
  induction ps as [|p ps IH]; intros lastErr w.
  - right. exists [], w. simpl. split; [reflexivity|]. split; [constructor|].
    destruct lastErr; reflexivity.
  - simpl. destruct (LookupWithHints p ctx req w) as [[result err] w1] eqn:Hp.
    destruct err as [e|].
    + (* the provider fails: its error is remembered *)
      destruct (IH (Some e) w1) as
        [(pre & q & post & outs & w2 & r & w3 & -> & Hpre & Hall & Hq & Hc & Hl & Hres)
        |(outs & w2 & Hcall & Hall & Hres)].
      * left. exists (p :: pre), q, post, ((result, Some e) :: outs), w2, r, w3.
        simpl. rewrite Hp, Hpre. repeat split; try assumption.
        constructor; [reflexivity | assumption].
      * right. exists ((result, Some e) :: outs), w2.
        rewrite Hcall. repeat split; try assumption.
        constructor; [reflexivity | assumption].
    + destruct (accepted cfg result) eqn:Hacc.
      * (* the provider qualifies: its result is returned *)
        destruct (accepted_Some _ _ Hacc) as (r & -> & Hc & Hl).
        left. exists [], p, ps, [], w, r, w1. simpl. repeat split; try assumption.
        constructor.
      * destruct (IH lastErr w1) as
          [(pre & q & post & outs & w2 & r & w3 & -> & Hpre & Hall & Hq & Hc & Hl & Hres)
          |(outs & w2 & Hcall & Hall & Hres)].
        -- left. exists (p :: pre), q, post, ((result, None) :: outs), w2, r, w3.
           simpl. rewrite Hp, Hpre. repeat split; try assumption.
           constructor; [by rewrite qualifies_accepted | assumption].
        -- right. exists ((result, None) :: outs), w2.
           rewrite Hcall. repeat split; try assumption.
           constructor; [by rewrite qualifies_accepted | assumption].
Qed.

(** C1. With a non-empty provider list, [lookupFirst] returns the result of
    the earliest provider, in registration order, whose [LookupWithHints]
    succeeds with a non-nil result of confidence at least [MinConfidence]
    and, when [RequireLabel] is set, a non-empty label: every provider
    before it was called and did not qualify.  When no provider qualifies it
    returns the error of the last provider that failed, and [ErrNotFound]
    when none failed. *)
Theorem lookupFirst_earliest_qualifying (e : Enricher) (ctx : Ctx) (req : SearchRequest.t)
    (w : World) :
  providers e <> [] ->
  (exists pre p post outs w1 r w2,
     providers e = (pre ++ p :: post)%list /\
     call_all pre ctx req w = (outs, w1) /\
     Forall (fun out => qualifies (config e) out = false) outs /\
     LookupWithHints p ctx req w1 = ((Some r, None), w2) /\
     PrimFloat.leb (MinConfidence (config e)) (TrackMetadata.Confidence r) = true /\
     (RequireLabel (config e) = true -> TrackMetadata.Label r <> "") /\
     lookupFirst e ctx req w = ((Some r, None), w2))
  \/
  (exists outs w1,
     call_all (providers e) ctx req w = (outs, w1) /\
     Forall (fun out => qualifies (config e) out = false) outs /\
     lookupFirst e ctx req w = ((None, Some (default ErrNotFound (last_error outs))), w1)).
Proof. intros _. apply lookupFirst_loop_spec. Qed.

Lemma lookupFirst_empty (cfg : EnricherConfig) (ctx : Ctx) (req : SearchRequest.t) (w : World) :
  lookupFirst {| providers := []; config := cfg |} ctx req w = ((None, Some ErrNotFound), w).
Proof. reflexivity. Qed.

(** [Lookup] guards against an empty registry. *)
Lemma Lookup_empty_registry (cfg : EnricherConfig) (ctx : Ctx) (artist title : string)
    (w : World) :
  Lookup {| providers := []; config := cfg |} ctx artist title w
  = ((None, Some ErrNoProvider), w).
Proof. reflexivity. Qed.

(** C2, at the failing input.  [LookupWithRequest] has no such guard: with
    an empty registry every strategy runs over no provider and reports
    [ErrNotFound], not [ErrNoProvider]. *)
Theorem LookupWithRequest_empty_registry (cfg : EnricherConfig) (ctx : Ctx)
    (req : SearchRequest.t) (w : World) :
  (LookupWithRequest {| providers := []; config := cfg |} ctx req w).1
  = (None, Some ErrNotFound).
Proof.
  unfold LookupWithRequest. simpl.
  destruct (context_WithTimeout ctx (RequestTimeout cfg) w) as [ctx' w'].
  destruct (Strategy cfg); reflexivity.
Qed.

(** A pass of [lookupFirst] ends in exactly one of two ways. *)
Lemma lookupFirst_loop_result (cfg : EnricherConfig) (ctx : Ctx) (req : SearchRequest.t)
    (ps : list MetadataProvider) (lastErr : option error) (w : World) :
  (exists r w1, lookupFirst_loop cfg ps ctx req lastErr w = ((Some r, None), w1)) \/
  (exists err w1, lookupFirst_loop cfg ps ctx req lastErr w = ((None, Some err), w1)).
Proof.
  destruct (lookupFirst_loop_spec cfg ctx req ps lastErr w) as
    [(pre & q & post & outs & w2 & r & w3 & _ & _ & _ & _ & _ & _ & Hres)
    |(outs & w2 & _ & _ & Hres)]; rewrite Hres; eauto.
Qed.

(** C7. When the first pass of [lookupFallback], made with the full
    request, fails, the result is that of a second pass of [lookupFirst]
    made from the world the first pass left, with a request that has the
    Artist, Title, PreferOriginalRelease and MaxResults of the original and
    zero values for Album, Genre, Year and Duration. *)
Theorem lookupFallback_second_pass (e : Enricher) (ctx : Ctx) (req : SearchRequest.t)
    (w : World) (result : option TrackMetadata.t) (err : option error) (w1 : World) :
  lookupFirst e ctx req w = ((result, err), w1) ->
  err <> None \/ result = None ->
  exists req2,
    lookupFallback e ctx req w = lookupFirst e ctx req2 w1 /\
    SearchRequest.Artist req2 = SearchRequest.Artist req /\
    SearchRequest.Title req2 = SearchRequest.Title req /\
    SearchRequest.PreferOriginalRelease req2 = SearchRequest.PreferOriginalRelease req /\
    SearchRequest.MaxResults req2 = SearchRequest.MaxResults req /\
    SearchRequest.Album req2 = "" /\
    SearchRequest.Genre req2 = "" /\
    SearchRequest.Year req2 = "" /\
    SearchRequest.Duration req2 = 0.
Proof.
  intros Hfirst Hfail. exists (simplifiedReq req).
  split; [|repeat split].
  unfold lookupFallback. rewrite Hfirst.
  destruct err as [e1|]; [reflexivity|].
  destruct result as [r|]; [|reflexivity].
  destruct Hfail as [Hfail|Hfail]; [contradiction | discriminate].
Qed.

(** When the first pass succeeds there is no second pass. *)
Lemma lookupFallback_first_pass (e : Enricher) (ctx : Ctx) (req : SearchRequest.t)
    (w : World) (r : TrackMetadata.t) (w1 : World) :
  lookupFirst e ctx req w = ((Some r, None), w1) ->
  lookupFallback e ctx req w = ((Some r, None), w1).
Proof. intros Hfirst. unfold lookupFallback. rewrite Hfirst. reflexivity. Qed.

End Orchestrator.

(** The First strategy on four providers: the first fails, the second
    answers below the threshold, the third qualifies and the fourth is not
    called.  The answer of the third is the only one the statement
    allows. *)
Lemma lookupFirst_earliest_qualifying_witness :
  let e := enricher.NewEnricher [sim.failing; sim.weak; sim.strong; sim.failing] None in
  enricher.providers e <> [] /\
  spec.qualifies (enricher.config e) (None, Some ErrAPIError) = false /\
  spec.qualifies (enricher.config e) (Some (sim.track "Label" 0.5%float), None) = false /\
  spec.qualifies (enricher.config e) (Some (sim.track "Label" 0.9%float), None) = true /\
  enricher.lookupFirst e None sim.request sim.world0
  = ((Some (sim.track "Label" 0.9%float), None), sim.world0).
Proof.
  intros e. split; [discriminate|]. do 3 (split; [vm_compute; reflexivity|]).
  destruct (lookupFirst_earliest_qualifying e None sim.request sim.world0)
    as [(pre & p & post & outs & w1 & r & w2 & Hps & Hcall & Hall & Hp & Hc & Hl & Hres)
       |(outs & w1 & Hcall & Hall & Hres)]; [discriminate | |].
  - destruct pre as [|p0 [|p1 [|p2 [|p3 pre]]]]; cbn [app] in Hps.
    + injection Hps as <- _. cbn in Hcall. injection Hcall as _ <-. discriminate Hp.
    + injection Hps as <- <- _. cbn in Hcall. injection Hcall as _ <-.
      cbn in Hp. injection Hp as <- _. vm_compute in Hc. discriminate Hc.
    + injection Hps as <- <- <- _. cbn in Hcall. injection Hcall as _ <-.
      cbn in Hp. injection Hp as <- <-. exact Hres.
    + injection Hps as <- <- <- <- _. cbn in Hcall. injection Hcall as _ <-.
      discriminate Hp.
    + injection Hps as _ _ _ _ Hnil. destruct pre; discriminate Hnil.
  - cbn in Hcall. injection Hcall as <- _.
    inversion Hall as [|? ? _ Hall1]. inversion Hall1 as [|? ? _ Hall2].
    inversion Hall2 as [|? ? Hstrong _]. vm_compute in Hstrong. discriminate Hstrong.
Defined.

Example lookupFirst_three_providers :
  (enricher.lookupFirst
     (enricher.NewEnricher [sim.failing; sim.weak; sim.strong; sim.failing] None)
     None sim.request sim.world0).1
  = (Some (sim.track "Label" 0.9%float), None).
Proof. reflexivity. Qed.

Example lookupFirst_last_error :
  (enricher.lookupFirst
     (enricher.NewEnricher [sim.failing; sim.weak] None) None sim.request sim.world0).1
  = (None, Some ErrAPIError).
Proof. reflexivity. Qed.

Example lookupFirst_not_found :
  (enricher.lookupFirst
     (enricher.NewEnricher [sim.weak; sim.weak] None) None sim.request sim.world0).1
  = (None, Some ErrNotFound).
Proof. reflexivity. Qed.

(** [LookupWithRequest] on an empty registry, under each strategy. *)
Example LookupWithRequest_no_provider :
  forall s,
    (enricher.LookupWithRequest
       (enricher.NewEnricher []
          (Some (enricher.Build_EnricherConfig s 0.7%float false (30 * Second) true 0)))
       None sim.request sim.world0).1
    = (None, Some ErrNotFound).
Proof. intros []; reflexivity. Qed.

(** The Fallback strategy on a provider that finds the track only without
    the album hint: the first pass fails, the second succeeds. *)
Lemma lookupFallback_second_pass_witness :
  let e :=
    enricher.NewEnricher [sim.picky]
      (Some (enricher.Build_EnricherConfig enricher.StrategyFallback 0.7%float false
               (30 * Second) true 0)) in
  enricher.lookupFirst e None sim.request sim.world0 = ((None, Some ErrNotFound), sim.world0) /\
  exists req2,
    enricher.lookupFallback e None sim.request sim.world0
      = enricher.lookupFirst e None req2 sim.world0 /\
    enricher.SearchRequest.Artist req2 = "LTJ Bukem" /\
    enricher.SearchRequest.Title req2 = "Music" /\
    enricher.SearchRequest.PreferOriginalRelease req2 = true /\
    enricher.SearchRequest.MaxResults req2 = 5 /\
    enricher.SearchRequest.Album req2 = "" /\
    enricher.SearchRequest.Genre req2 = "" /\
    enricher.SearchRequest.Year req2 = "" /\
    enricher.SearchRequest.Duration req2 = 0.
Proof.
  split; [reflexivity|].
  apply (lookupFallback_second_pass
           (enricher.NewEnricher [sim.picky]
              (Some (enricher.Build_EnricherConfig enricher.StrategyFallback 0.7%float false
                       (30 * Second) true 0)))
           None sim.request sim.world0 None (Some ErrNotFound) sim.world0).
  - reflexivity.
  - left. discriminate.
Defined.

Example lookupFallback_picky :
  (enricher.lookupFallback
     (enricher.NewEnricher [sim.picky] None) None sim.request sim.world0).1
  = (Some (sim.track "Label" 0.9%float), None).
Proof. reflexivity. Qed.

(** ** Byte-wise string order *)

Section StringOrder.

Lemma string_ltb_compare (s t : string) : String.ltb s t = true <-> String.compare s t = Lt.
Proof. unfold String.ltb. destruct (String.compare s t); split; congruence. Qed.

Lemma string_compare_refl (s : string) : String.compare s s = Eq.
Proof.
  induction s as [|a s IH]; [reflexivity|]. simpl.
  unfold Ascii.compare. rewrite N.compare_refl. exact IH.
Qed.

Lemma string_compare_trans (s t u : string) :
  String.compare s t = Lt -> String.compare t u = Lt -> String.compare s u = Lt.
Proof.
  revert t u. induction s as [|a s IH]; intros [|b t] [|c u]; simpl; try congruence.
  destruct (Ascii.compare a b) eqn:Hab; try discriminate;
    destruct (Ascii.compare b c) eqn:Hbc; try discriminate; intros Hst Htu.
  - apply Ascii.compare_eq_iff in Hab, Hbc. subst.
    unfold Ascii.compare. rewrite N.compare_refl. eauto.
  - apply Ascii.compare_eq_iff in Hab. subst. rewrite Hbc. reflexivity.
  - apply Ascii.compare_eq_iff in Hbc. subst. rewrite Hab. reflexivity.
  - unfold Ascii.compare in *. rewrite N.compare_lt_iff in Hab, Hbc.
    replace (N_of_ascii a ?= N_of_ascii c)%N with Lt; [reflexivity|].
    symmetry. apply N.compare_lt_iff. lia.
Qed.

Lemma string_ltb_irrefl (s : string) : String.ltb s s = false.
Proof. unfold String.ltb. rewrite string_compare_refl. reflexivity. Qed.

Lemma string_ltb_asym (s t : string) : String.ltb s t = true -> String.ltb t s = false.
Proof.
  unfold String.ltb. rewrite (String.compare_antisym t s).
  destruct (String.compare s t); simpl; congruence.
Qed.

Lemma string_ltb_trans (s t u : string) :
  String.ltb s t = true -> String.ltb t u = true -> String.ltb s u = true.
Proof. rewrite !string_ltb_compare. apply string_compare_trans. Qed.

(** [s < t] and not [u < t] give [s < u]. *)
Lemma string_ltb_le_trans (s t u : string) :
  String.ltb s t = true -> String.ltb u t = false -> String.ltb s u = true.
Proof.
  intros Hst Hut. destruct (String.compare u t) eqn:Hc.
  - apply String.compare_eq_iff in Hc. subst. exact Hst.
  - unfold String.ltb in Hut. rewrite Hc in Hut. discriminate.
  - apply (string_ltb_trans s t u Hst). apply string_ltb_compare.
    rewrite String.compare_antisym, Hc. reflexivity.
Qed.

End StringOrder.

(** ** Release selection *)

Section ReleaseSelection.
Import musicbrainz spec.

Lemma earliest_dated_here (r0 : Release.t) (rest : list Release.t) :
  dated r0 ->
  (forall j r', rest !! j = Some r' -> dated r' ->
     String.ltb (Release.Date r') (Release.Date r0) = false) ->
  earliest_dated (r0 :: rest) 0 r0.
Proof.
  intros Hd Hrest. split; [reflexivity|]. split; [exact Hd|]. split.
  - intros [|j] r' Hj Hd'; simpl in Hj.
    + injection Hj as <-. apply string_ltb_irrefl.
    + eauto.
  - intros j r' Hlt. lia.
Qed.

Lemma earliest_dated_later (r0 : Release.t) (rest : list Release.t) (k : nat) (r : Release.t) :
  earliest_dated rest k r ->
  (dated r0 -> String.ltb (Release.Date r) (Release.Date r0) = true) ->
  earliest_dated (r0 :: rest) (S k) r.
Proof.
  intros (Hk & Hd & Hmin & Hfirst) H0. split; [exact Hk|]. split; [exact Hd|]. split.
  - intros [|j] r' Hj Hd'; simpl in Hj.
    + injection Hj as <-. apply string_ltb_asym. auto.
    + eauto.
  - intros [|j] r' Hlt Hj Hd'; simpl in Hj.
    + injection Hj as <-. auto.
    + apply (Hfirst j); [lia | assumption | assumption].
Qed.

(** The loop once a date has been seen. *)
Lemma findBestRelease_loop_dated (releases : list Release.t) :
  forall (i : nat) (best : option (ptr Release.t)) (earliest : string),
  earliest <> "" -> best <> None ->
  (findBestRelease_loop releases i best earliest = best /\
   forall j r', releases !! j = Some r' -> dated r' ->
     String.ltb (Release.Date r') earliest = false)
  \/
  (exists k r,
     findBestRelease_loop releases i best earliest = Some ((i + k)%nat, r) /\
     earliest_dated releases k r /\
     String.ltb (Release.Date r) earliest = true).
Proof.
  induction releases as [|r0 rest IH]; intros i best earliest Hne Hbest.
  - left. split; [reflexivity|]. intros j r' Hj. discriminate.
  - simpl. destruct (decide (Release.Date r0 <> "")) as [Hd|Hd].
    + rewrite (bool_decide_eq_true_2 _ Hd).
      rewrite (bool_decide_eq_false_2 _ Hne). simpl.
      destruct (String.ltb (Release.Date r0) earliest) eqn:Hlt.
      * destruct (IH (S i) (Some (i, r0)) (Release.Date r0) Hd ltac:(discriminate))
          as [[Hres Hmin]|(k & r & Hres & He & Hlt')].
        -- right. exists 0%nat, r0. rewrite Nat.add_0_r.
           split; [exact Hres|]. split; [|exact Hlt].
           by apply earliest_dated_here.
        -- right. exists (S k), r. rewrite Nat.add_succ_r.
           split; [exact Hres|]. split.
           ++ apply earliest_dated_later; [exact He | intros _; exact Hlt'].
           ++ eapply string_ltb_trans; eassumption.
      * destruct (IH (S i) best earliest Hne Hbest)
          as [[Hres Hmin]|(k & r & Hres & He & Hlt')].
        -- left. split; [exact Hres|].
           intros [|j] r' Hj Hd'; simpl in Hj; [injection Hj as <-; exact Hlt | eauto].
        -- right. exists (S k), r. rewrite Nat.add_succ_r.
           split; [exact Hres|]. split; [|exact Hlt'].
           apply earliest_dated_later; [exact He|].
           intros _. eapply string_ltb_le_trans; eassumption.
    + rewrite (bool_decide_eq_false_2 _ Hd).
      destruct best as [b|]; [|contradiction].
      destruct (IH (S i) (Some b) earliest Hne Hbest)
        as [[Hres Hmin]|(k & r & Hres & He & Hlt')].
      * left. split; [exact Hres|].
        intros [|j] r' Hj Hd'; simpl in Hj; [injection Hj as <-; contradiction | eauto].
      * right. exists (S k), r. rewrite Nat.add_succ_r.
        split; [exact Hres|]. split; [|exact Hlt'].
        apply earliest_dated_later; [exact He | intros Hd0; contradiction].
Qed.

(** The loop while no date has been seen. *)
Lemma findBestRelease_loop_undated (releases : list Release.t) :
  forall (i : nat) (best : option (ptr Release.t)),
  (Forall (fun r => Release.Date r = "") releases /\
   findBestRelease_loop releases i best "" =
     match best, releases with
     | Some b, _ => Some b
     | None, r0 :: _ => Some (i, r0)
     | None, [] => None
     end)
  \/
  (exists k r,
     findBestRelease_loop releases i best "" = Some ((i + k)%nat, r) /\
     earliest_dated releases k r).
Proof.
  induction releases as [|r0 rest IH]; intros i best.
  - left. split; [constructor|]. destruct best; reflexivity.
  - simpl. destruct (decide (Release.Date r0 <> "")) as [Hd|Hd].
    + rewrite (bool_decide_eq_true_2 _ Hd). simpl.
      destruct (findBestRelease_loop_dated rest (S i) (Some (i, r0)) (Release.Date r0)
                  Hd ltac:(discriminate))
        as [[Hres Hmin]|(k & r & Hres & He & Hlt')].
      * right. exists 0%nat, r0. rewrite Nat.add_0_r.
        split; [exact Hres|]. by apply earliest_dated_here.
      * right. exists (S k), r. rewrite Nat.add_succ_r.
        split; [exact Hres|].
        apply earliest_dated_later; [exact He | intros _; exact Hlt'].
    + rewrite (bool_decide_eq_false_2 _ Hd).
      assert (Release.Date r0 = "") as H0 by (destruct (decide (Release.Date r0 = "")); tauto).
      destruct best as [b|].
      * destruct (IH (S i) (Some b)) as [[Hall Hres]|(k & r & Hres & He)].
        -- left. split; [constructor; assumption | exact Hres].
        -- right. exists (S k), r. rewrite Nat.add_succ_r.
           split; [exact Hres|].
           apply earliest_dated_later; [exact He | intros Hd0; contradiction].
      * destruct (IH (S i) (Some (i, r0))) as [[Hall Hres]|(k & r & Hres & He)].
        -- left. split; [constructor; assumption | exact Hres].
        -- right. exists (S k), r. rewrite Nat.add_succ_r.
           split; [exact Hres|].
           apply earliest_dated_later; [exact He | intros Hd0; contradiction].
Qed.

(** C5. On a non-empty release list: without [preferOriginal] the first
    release is selected whatever the dates; with it, the first release is
    selected when no release carries a date, and otherwise a release that
    carries the lexicographically smallest non-empty date. *)
Theorem findBestRelease_spec (releases : list Release.t) :
  releases <> [] ->
  (exists first,
     releases !! 0%nat = Some first /\
     findBestRelease releases false = Some (0%nat, first) /\
     (Forall (fun r => Release.Date r = "") releases ->
      findBestRelease releases true = Some (0%nat, first))) /\
  (Exists dated releases ->
   exists i r,
     findBestRelease releases true = Some (i, r) /\ earliest_dated releases i r).
Proof.
  destruct releases as [|r0 rest]; [contradiction|]. intros _.
  pose proof (findBestRelease_loop_undated (r0 :: rest) 0 None) as Hloop.
  split.
  - exists r0. split; [reflexivity|]. split; [reflexivity|].
    intros Hall. unfold findBestRelease. cbn [negb].
    destruct Hloop as [[_ ->]|(k & r & _ & Hk & Hd & _)]; [reflexivity|].
    exfalso. apply Hd. apply list_elem_of_lookup_2 in Hk.
    rewrite Forall_forall in Hall. apply Hall. exact Hk.
  - intros Hex. unfold findBestRelease. cbn [negb].
    destruct Hloop as [[Hall _]|(k & r & -> & He)].
    + exfalso. apply Exists_exists in Hex as (r & Hin & Hd).
      rewrite Forall_forall in Hall. apply Hd, Hall, Hin.
    + exists k, r. split; [reflexivity | exact He].
Qed.

(** The releases of the test suite, dated 2010, 1993 and 2000. *)
Lemma findBestRelease_spec_witness :
  [sim.rel_reissue; sim.rel_original; sim.rel_later] <> [] /\
  Exists dated [sim.rel_reissue; sim.rel_original; sim.rel_later] /\
  Forall (fun r => Release.Date r = "") [sim.rel_undated; sim.rel_undated] /\
  findBestRelease [sim.rel_reissue; sim.rel_original; sim.rel_later] false
    = Some (0%nat, sim.rel_reissue) /\
  findBestRelease [sim.rel_undated; sim.rel_undated] true = Some (0%nat, sim.rel_undated) /\
  (exists i r,
     findBestRelease [sim.rel_reissue; sim.rel_original; sim.rel_later] true = Some (i, r) /\
     earliest_dated [sim.rel_reissue; sim.rel_original; sim.rel_later] i r).
Proof.
  assert (Exists dated [sim.rel_reissue; sim.rel_original; sim.rel_later]) as Hex
    by (constructor; discriminate).
  assert (Forall (fun r => Release.Date r = "") [sim.rel_undated; sim.rel_undated]) as Hall
    by (repeat constructor).
  split; [discriminate|]. split; [exact Hex|]. split; [exact Hall|].
  split; [reflexivity|]. split.
  - destruct (findBestRelease_spec [sim.rel_undated; sim.rel_undated] ltac:(discriminate))
      as [(first & Hfirst & _ & Hund) _].
    injection Hfirst as <-. exact (Hund Hall).
  - destruct (findBestRelease_spec [sim.rel_reissue; sim.rel_original; sim.rel_later]
                ltac:(discriminate)) as [_ Hdated].
    exact (Hdated Hex).
Defined.

Example findBestRelease_original :
  findBestRelease [sim.rel_reissue; sim.rel_original; sim.rel_later] true
  = Some (1%nat, sim.rel_original) /\
  findBestRelease [sim.rel_reissue; sim.rel_original; sim.rel_later] false
  = Some (0%nat, sim.rel_reissue) /\
  findBestRelease [sim.rel_undated; sim.rel_later; sim.rel_undated; sim.rel_original] true
  = Some (3%nat, sim.rel_original) /\
  findBestRelease [sim.rel_undated; sim.rel_undated] true = Some (0%nat, sim.rel_undated) /\
  findBestRelease [] true = None.
Proof. repeat split. Qed.

End ReleaseSelection.

(** ** Candidate selection *)

Section CandidateSelection.
Import musicbrainz spec.
Context {R : Runtime}.

Lemma best_scored_here (a t : string) (r0 : Recording.t) (rest : list Recording.t) :
  (forall j r', rest !! j = Some r' -> recordingScore r' a t <= recordingScore r0 a t) ->
  best_scored (r0 :: rest) a t 0 r0.
Proof.
  intros Hrest. split; [reflexivity|]. split.
  - intros [|j] r' Hj; simpl in Hj; [injection Hj as <-; lia | eauto].
  - intros j r' Hlt. lia.
Qed.

Lemma best_scored_later (a t : string) (r0 : Recording.t) (rest : list Recording.t)
    (k : nat) (r : Recording.t) :
  best_scored rest a t k r ->
  recordingScore r0 a t < recordingScore r a t ->
  best_scored (r0 :: rest) a t (S k) r.
Proof.
  intros (Hk & Hmax & Hfirst) H0. split; [exact Hk|]. split.
  - intros [|j] r' Hj; simpl in Hj; [injection Hj as <-; lia | eauto].
  - intros [|j] r' Hlt Hj; simpl in Hj.
    + injection Hj as <-. exact H0.
    + apply (Hfirst j); [lia | assumption].
Qed.

(** The loop of [findBestRecordingMatch] keeps what it holds unless a
    candidate beats [bestScore]; then it ends on the first candidate with
    the highest score. *)
Lemma findBestRecordingMatch_loop_spec (a t : string) (recordings : list Recording.t) :
  forall (i : nat) (bestScore : Z) (best : option (ptr Recording.t)),
  (findBestRecordingMatch_loop recordings i a t bestScore best = best /\
   forall j r', recordings !! j = Some r' -> recordingScore r' a t <= bestScore)
  \/
  (exists k r,
     findBestRecordingMatch_loop recordings i a t bestScore best = Some ((i + k)%nat, r) /\
     best_scored recordings a t k r /\
     bestScore < recordingScore r a t).
Proof.
  induction recordings as [|r0 rest IH]; intros i bestScore best.
  - left. split; [reflexivity|]. intros j r' Hj. discriminate.
  - simpl. destruct (bestScore <? recordingScore r0 a t) eqn:Hlt.
    + apply Z.ltb_lt in Hlt.
      destruct (IH (S i) (recordingScore r0 a t) (Some (i, r0)))
        as [[Hres Hmax]|(k & r & Hres & Hb & Hlt')].
      * right. exists 0%nat, r0. rewrite Nat.add_0_r.
        split; [exact Hres|]. split; [by apply best_scored_here | exact Hlt].
      * right. exists (S k), r. rewrite Nat.add_succ_r.
        split; [exact Hres|]. split; [by apply best_scored_later | lia].
    + apply Z.ltb_ge in Hlt.
      destruct (IH (S i) bestScore best) as [[Hres Hmax]|(k & r & Hres & Hb & Hlt')].
      * left. split; [exact Hres|].
        intros [|j] r' Hj; simpl in Hj; [injection Hj as <-; exact Hlt | eauto].
      * right. exists (S k), r. rewrite Nat.add_succ_r.
        split; [exact Hres|]. split; [apply best_scored_later; [exact Hb | lia] | exact Hlt'].
Qed.

(** When some candidate has a positive adjusted score, the first candidate
    with the highest adjusted score is selected. *)
Lemma findBestRecordingMatch_positive (recordings : list Recording.t) (a t : string) :
  Exists (fun r => 0 < recordingScore r a t) recordings ->
  exists i r,
    findBestRecordingMatch recordings a t = Some (i, r) /\ best_scored recordings a t i r.
Proof.
  intros Hex. unfold findBestRecordingMatch.
  destruct recordings as [|r0 rest]; [by apply Exists_nil in Hex|].
  rewrite bool_decide_eq_false_2 by discriminate.
  destruct (findBestRecordingMatch_loop_spec a t (r0 :: rest) 0 0 None)
    as [[_ Hmax]|(k & r & -> & Hb & _)].
  - exfalso. apply Exists_exists in Hex as (r & Hin & Hpos).
    apply list_elem_of_lookup_1 in Hin as [j Hj]. specialize (Hmax j r Hj). lia.
  - exists k, r. split; [reflexivity | exact Hb].
Qed.

(** No candidate is selected exactly when no adjusted score is positive,
    also on a non-empty list. *)
Lemma findBestRecordingMatch_None (recordings : list Recording.t) (a t : string) :
  findBestRecordingMatch recordings a t = None <->
  Forall (fun r => recordingScore r a t <= 0) recordings.
Proof.
  split.
  - intros Hnone. apply Forall_forall. intros r Hin.
    destruct (Z_le_gt_dec (recordingScore r a t) 0) as [Hle|Hgt]; [exact Hle|].
    destruct (findBestRecordingMatch_positive recordings a t) as (i & r' & Hres & _).
    { apply Exists_exists. exists r. split; [exact Hin | lia]. }
    congruence.
  - intros Hall. unfold findBestRecordingMatch.
    destruct (bool_decide (length recordings = 0%nat)); [reflexivity|].
    destruct (findBestRecordingMatch_loop_spec a t recordings 0 0 None)
      as [[-> _]|(k & r & _ & (Hk & _) & Hpos)]; [reflexivity|].
    exfalso. apply list_elem_of_lookup_2 in Hk.
    rewrite Forall_forall in Hall. specialize (Hall r Hk). lia.
Qed.

End CandidateSelection.

(** C4, at the failing input.  The list holds one candidate; its relevance
    score is 0 and neither its title nor its artist matches, so its adjusted
    score is 0, the maximum of the list, and yet no candidate is selected:
    the scan starts from [bestScore = 0] and only accepts a strictly higher
    score. *)
Theorem findBestRecordingMatch_zero_score :
  [sim.rec_zero] <> [] /\
  musicbrainz.recordingScore sim.rec_zero "LTJ Bukem" "Music" = 0 /\
  musicbrainz.findBestRecordingMatch [sim.rec_zero] "LTJ Bukem" "Music" = None.
Proof. split; [discriminate|]. split; reflexivity. Qed.

(** The candidates of the test suite: scores 50, 80 and 90, the second one
    matching artist and title. *)
Example findBestRecordingMatch_exact :
  musicbrainz.findBestRecordingMatch [sim.rec_low; sim.rec_exact; sim.rec_high] "ltj bukem" "MUSIC"
  = Some (1%nat, sim.rec_exact) /\
  musicbrainz.findBestRecordingMatch [sim.rec_high; sim.rec_low; sim.rec_high] "LTJ Bukem" "Music"
  = Some (0%nat, sim.rec_high) /\
  musicbrainz.findBestRecordingMatch [] "LTJ Bukem" "Music" = None.
Proof. repeat split. Qed.

(** ** The rate-limit gate and the errors of the adapter *)

Section Adapter.
Import enricher musicbrainz.
Context {R : Runtime} {J : JSON}.

(** C10. When at least [rateLimit] has elapsed since [lastRequest],
    [waitForRateLimit] records the time and returns nil whatever the
    context is, canceled or not: the context appears nowhere in the result.
    It returns an error only when a wait is pending and the select took
    the context's case, and the error is then [ctx.Err()]. *)
Theorem waitForRateLimit_gate (m : MusicBrainzProvider) (ctx : Ctx) (w w1 : World)
    (now : Time) :
  time_Now w = (now, w1) ->
  (rateLimit <= Time_Sub now (lastRequest m) ->
   waitForRateLimit m ctx w = (None, set_lastRequest (time_Now w1).1 m, (time_Now w1).2)) /\
  (forall e m' w',
     waitForRateLimit m ctx w = (Some e, m', w') ->
     Time_Sub now (lastRequest m) < rateLimit /\
     select_After_Done (wrap64 (rateLimit - Time_Sub now (lastRequest m))) ctx w1
       = (false, w') /\
     ctx_Err ctx w' = Some e /\
     m' = m).
Proof.
  intros Hnow. unfold waitForRateLimit. rewrite Hnow. split.
  - intros Hle. apply Z.ltb_ge in Hle. rewrite Hle.
    destruct (time_Now w1) as [now2 w2]. reflexivity.
  - intros e m' w'.
    destruct (Time_Sub now (lastRequest m) <? rateLimit) eqn:Hlt.
    + apply Z.ltb_lt in Hlt.
      destruct (select_After_Done _ ctx w1) as [timer w2].
      destruct timer.
      * destruct (time_Now w2) as [now2 w3]. discriminate.
      * intros [= He <- <-]. repeat split; assumption.
    + destruct (time_Now w1) as [now2 w2]. discriminate.
Qed.

(** A pending wait that the timer ends also returns nil. *)
Lemma waitForRateLimit_timer (m : MusicBrainzProvider) (ctx : Ctx) (w w1 w2 : World)
    (now : Time) :
  time_Now w = (now, w1) ->
  Time_Sub now (lastRequest m) < rateLimit ->
  select_After_Done (wrap64 (rateLimit - Time_Sub now (lastRequest m))) ctx w1 = (true, w2) ->
  waitForRateLimit m ctx w = (None, set_lastRequest (time_Now w2).1 m, (time_Now w2).2).
Proof.
  intros Hnow Hlt Hsel. unfold waitForRateLimit. rewrite Hnow.
  apply Z.ltb_lt in Hlt. rewrite Hlt, Hsel.
  destruct (time_Now w2) as [now2 w3]. reflexivity.
Qed.

(** The error of the first wait leaves [LookupWithHints] as it is. *)
Lemma LookupWithHints_first_wait (m m1 : MusicBrainzProvider) (ctx : Ctx)
    (req : SearchRequest.t) (w w1 : World) (e : error) :
  waitForRateLimit m ctx w = (Some e, m1, w1) ->
  LookupWithHints m ctx req w = ((None, Some e), m1, w1).
Proof. intros Hwait. unfold LookupWithHints. rewrite Hwait. reflexivity. Qed.

(** Every error of the recording search is wrapped. *)
Lemma LookupWithHints_search_failed (m m1 : MusicBrainzProvider) (ctx : Ctx)
    (req : SearchRequest.t) (w w1 w2 : World) (rs : list Recording.t) (e : error) :
  waitForRateLimit m ctx w = (None, m1, w1) ->
  searchRecordings m1 ctx req w1 = ((rs, Some e), w2) ->
  LookupWithHints m ctx req w
  = ((None, Some (wrapError "musicbrainz recording search failed" e)), m1, w2).
Proof.
  intros Hwait Hsearch. unfold LookupWithHints. rewrite Hwait, Hsearch. reflexivity.
Qed.

(** A failed exchange reaches the caller of [searchRecordings] inside
    [http request failed]. *)
Lemma searchRecordings_Do_failed (m : MusicBrainzProvider) (ctx : Ctx)
    (req : SearchRequest.t) (w : World) (rs : list Recording.t) (e : error) (w1 : World) :
  searchRecordings m ctx req w = ((rs, Some e), w1) ->
  (exists code, e = errorString ("musicbrainz API returned status " ++ strconv_Itoa code)) \/
  (exists msg e', e = wrapError msg e') \/
  (exists url, http_NewRequestWithContext ctx "GET" url = inr e).
Proof.
  unfold searchRecordings, fetch.
  match goal with |- context [http_NewRequestWithContext ctx "GET" ?u] =>
    destruct (http_NewRequestWithContext ctx "GET" u) as [httpReq|err] eqn:Hnew end.
  - destruct (client_Do (with_headers m httpReq) w) as [[resp|err] w2].
    + destruct (negb (StatusCode resp =? StatusOK)).
      * intros [= _ <- _]. left. eauto.
      * destruct (io_ReadAll resp w2) as [[body|err] w3].
        -- destruct (json_Unmarshal_search body); intros [= _ <- _] || intros [=]; eauto.
        -- intros [= _ <- _]. eauto.
    + intros [= _ <- _]. eauto.
  - intros [= _ <- _]. eauto.
Qed.

(** The wait inside [getRecordingReleases] hands its error on unchanged,
    and [LookupWithHints] wraps whatever [getRecordingReleases] returns. *)
Lemma getRecordingReleases_wait (m m1 : MusicBrainzProvider) (ctx : Ctx) (id : string)
    (w w1 : World) (e : error) :
  waitForRateLimit m ctx w = (Some e, m1, w1) ->
  getRecordingReleases m ctx id w = (([], Some e), m1, w1).
Proof. intros Hwait. unfold getRecordingReleases. rewrite Hwait. reflexivity. Qed.

(** The shape of every error [LookupWithHints] returns: the error of the
    first wait as it is, [ErrNotFound], or one of the two wrappers. *)
Lemma LookupWithHints_errors (m m' : MusicBrainzProvider) (ctx : Ctx)
    (req : SearchRequest.t) (w w' : World) (result : option TrackMetadata.t) (e : error) :
  LookupWithHints m ctx req w = ((result, Some e), m', w') ->
  waitForRateLimit m ctx w = (Some e, m', w') \/
  e = ErrNotFound \/
  (exists e', e = wrapError "musicbrainz recording search failed" e') \/
  (exists e', e = wrapError "musicbrainz release lookup failed" e').
Proof.
  unfold LookupWithHints.
  destruct (waitForRateLimit m ctx w) as [[[e0|] m1] w1].
  { intros [= _ <- <- <-]. left. reflexivity. }
  destruct (searchRecordings m1 ctx req w1) as [[rs [e1|]] w2].
  { intros [= _ <- _ _]. right. right. left. eauto. }
  destruct (bool_decide (length rs = 0%nat)).
  { intros [= _ <- _ _]. right. left. reflexivity. }
  destruct (findBestRecordingMatch rs _ _) as [[i best]|].
  2: { intros [= _ <- _ _]. right. left. reflexivity. }
  destruct (getRecordingReleases m1 ctx (Recording.ID best) w2) as [[[rels [e2|]] m2] w3].
  { intros [= _ <- _ _]. right. right. right. eauto. }
  destruct (findBestRelease rels _) as [[k rel]|]; [discriminate|].
  intros [= _ <- _ _]. right. left. reflexivity.
Qed.

(** So a cancellation that strikes after the first wait never comes back
    as the context's own error. *)
Lemma LookupWithHints_cancellation_verbatim_only_first_wait
    (m m' : MusicBrainzProvider) (ctx : Ctx) (req : SearchRequest.t) (w w' : World)
    (result : option TrackMetadata.t) (e : error) :
  e = context_Canceled \/ e = context_DeadlineExceeded ->
  LookupWithHints m ctx req w = ((result, Some e), m', w') ->
  waitForRateLimit m ctx w = (Some e, m', w').
Proof.
  intros He Hres.
  destruct (LookupWithHints_errors _ _ _ _ _ _ _ _ Hres) as [H|[->|[[e' ->]|[e' ->]]]];
    [exact H | | |]; destruct He; discriminate.
Qed.

End Adapter.

(** The gate on a new provider with a context that is already canceled,
    and on a provider that has just made a request. *)
Lemma waitForRateLimit_gate_witness :
  let canceled : sim.SimCtx := Some (0, context_Canceled) in
  let busy := musicbrainz.set_lastRequest (sim.now sim.world0) musicbrainz.NewMusicBrainzProvider in
  sim.sim_Err canceled sim.world0 = Some context_Canceled /\
  musicbrainz.waitForRateLimit musicbrainz.NewMusicBrainzProvider canceled sim.world0
    = (None, busy, sim.world0) /\
  musicbrainz.waitForRateLimit busy canceled sim.world0 = (Some context_Canceled, busy, sim.world0) /\
  Time_Sub (sim.now sim.world0) (musicbrainz.lastRequest busy) < musicbrainz.rateLimit.
Proof.
  split; [reflexivity|]. split; [|split; [reflexivity|]].
  - apply (waitForRateLimit_gate (R := sim.simRuntime) musicbrainz.NewMusicBrainzProvider
             (Some (0, context_Canceled)) sim.world0 sim.world0 (sim.now sim.world0));
      [reflexivity | vm_compute; discriminate].
  - destruct (waitForRateLimit_gate (R := sim.simRuntime)
                (musicbrainz.set_lastRequest (sim.now sim.world0)
                   musicbrainz.NewMusicBrainzProvider)
                (Some (0, context_Canceled)) sim.world0 sim.world0 (sim.now sim.world0)
                eq_refl) as [_ Hpending].
    apply (Hpending context_Canceled
             (musicbrainz.set_lastRequest (sim.now sim.world0)
                musicbrainz.NewMusicBrainzProvider)
             sim.world0).
    reflexivity.
Defined.

(** C6, at the failing inputs.  First the scenario of the repository's
    integration test: a new provider and a context canceled before the call.
    No wait is pending, so the gate lets the call through; the search
    request then fails inside [net/http], and the caller receives the
    cancellation under two wrappers instead of [context.Canceled] itself.
    Second, a context canceled 0.5 s into the call, during the wait that
    precedes the release lookup: the caller receives [context.Canceled]
    under one wrapper. *)
Theorem LookupWithHints_cancellation_wrapped :
  let canceled : sim.SimCtx := Some (0, context_Canceled) in
  let canceled_later : sim.SimCtx :=
    Some (sim.now sim.world_online + 500000000, context_Canceled) in
  sim.sim_Err canceled sim.world_online = Some context_Canceled /\
  (exists url,
     (musicbrainz.Lookup musicbrainz.NewMusicBrainzProvider canceled "LTJ Bukem" "Music"
        sim.world_online).1.1
     = (None,
        Some (wrapError "musicbrainz recording search failed"
                (wrapError "http request failed" (urlError "Get" url context_Canceled))))) /\
  (musicbrainz.LookupWithHints musicbrainz.NewMusicBrainzProvider canceled_later sim.request
     sim.world_online).1.1
  = (None, Some (wrapError "musicbrainz release lookup failed" context_Canceled)).
Proof.
  split; [reflexivity|]. split; [|reflexivity].
  eexists. vm_compute. reflexivity.
Qed.

(** The same lookup with a context that is never done. *)
Example LookupWithHints_online :
  exists md,
    (musicbrainz.LookupWithHints musicbrainz.NewMusicBrainzProvider None sim.request
       sim.world_online).1.1 = (Some md, None) /\
    enricher.TrackMetadata.Label md = "Good Looking Records" /\
    enricher.TrackMetadata.ReleaseDate md = "1993-04-01" /\
    enricher.TrackMetadata.Year md = 1993 /\
    enricher.TrackMetadata.ProviderID md = "exact-match" /\
    enricher.TrackMetadata.Confidence md = 1.0%float.
Proof. eexists. split; [vm_compute; reflexivity|]. repeat split. Qed.

(** A cancellation during a pending first wait is returned as it is. *)
Example LookupWithHints_first_wait_canceled :
  let busy :=
    musicbrainz.set_lastRequest (sim.now sim.world_online) musicbrainz.NewMusicBrainzProvider in
  (musicbrainz.LookupWithHints busy (Some (0, context_Canceled)) sim.request
     sim.world_online).1.1
  = (None, Some context_Canceled).
Proof. reflexivity. Qed.

(** ** The track prefix patterns *)

Section Patterns.
Import cmd spec.

Lemma match_star_sound (c : rune -> bool) (k : list rune -> option (list rune))
    (s rest : list rune) :
  match_star c k s = Some rest ->
  exists u s', s = (u ++ s')%list /\ Forall (fun x => c x = true) u /\ k s' = Some rest.
Proof.
  induction s as [|x s IH]; simpl.
  - intros Hk. exists [], []. auto.
  - destruct (c x) eqn:Hc.
    + destruct (match_star c k s) as [r|] eqn:Hstar.
      * intros [= ->]. destruct (IH eq_refl) as (u & s' & -> & Hu & Hk).
        exists (x :: u), s'. auto.
      * intros Hk. exists [], (x :: s). auto.
    + intros Hk. exists [], (x :: s). auto.
Qed.

Lemma match_star_complete (c : rune -> bool) (k : list rune -> option (list rune))
    (s : list rune) :
  match_star c k s = None ->
  forall u s', s = (u ++ s')%list -> Forall (fun x => c x = true) u -> k s' = None.
Proof.
  induction s as [|x s IH]; simpl.
  - intros Hk u s' Hs _. symmetry in Hs. apply app_eq_nil in Hs as [-> ->]. exact Hk.
  - destruct (c x) eqn:Hc.
    + destruct (match_star c k s) as [r|] eqn:Hstar; [discriminate|].
      intros Hk [|y u] s' Hs Hu; simpl in Hs.
      * subst s'. exact Hk.
      * injection Hs as -> ->. apply (IH eq_refl u s' eq_refl). by inversion Hu.
    + intros Hk [|y u] s' Hs Hu; simpl in Hs.
      * subst s'. exact Hk.
      * injection Hs as -> ->. inversion Hu; congruence.
Qed.

(** What [match_here] finds is a match. *)
Lemma match_here_sound (re : regex) :
  forall s rest, match_here re s = Some rest ->
  exists p, s = (p ++ rest)%list /\ in_lang re p.
Proof.
  induction re as [|[c q] re IH]; intros s rest; simpl.
  - intros [= ->]. exists []. auto.
  - assert (forall x s', c x = true -> match_here re s' = Some rest ->
              exists p, x :: s' = (p ++ rest)%list /\
                exists u v, p = (u ++ v)%list /\ Forall (fun x => c x = true) u /\
                            length u = 1%nat /\ in_lang re v) as Hone.
    { intros x s' Hc Hk. destruct (IH _ _ Hk) as (v & -> & Hv).
      exists (x :: v). split; [reflexivity|]. exists [x], v. auto. }
    assert (forall s', match_here re s' = Some rest ->
              exists p, s' = (p ++ rest)%list /\
                exists u v, p = (u ++ v)%list /\ Forall (fun x => c x = true) u /\
                            length u = 0%nat /\ in_lang re v) as Hzero.
    { intros s' Hk. destruct (IH _ _ Hk) as (v & -> & Hv).
      exists v. split; [reflexivity|]. exists [], v. auto. }
    assert (forall s', match_star c (match_here re) s' = Some rest ->
              exists p, s' = (p ++ rest)%list /\
                exists u v, p = (u ++ v)%list /\ Forall (fun x => c x = true) u /\ in_lang re v)
      as Hstar.
    { intros s' Hk. destruct (match_star_sound _ _ _ _ Hk) as (u & s1 & -> & Hu & Hk1).
      destruct (IH _ _ Hk1) as (v & -> & Hv).
      exists (u ++ v)%list. split; [by rewrite app_assoc|]. exists u, v. auto. }
    destruct q.
    + destruct s as [|x s']; [discriminate|]. destruct (c x) eqn:Hc; [|discriminate].
      intros Hk. destruct (Hone x s' Hc Hk) as (p & Hp & u & v & Hpuv & Hu & Hlen & Hv).
      exists p. split; [exact Hp|]. exists u, v. simpl. auto.
    + assert (match_here re s = Some rest ->
                exists p, s = (p ++ rest)%list /\ in_lang ((c, Opt) :: re) p) as Hskip.
      { intros Hk. destruct (Hzero s Hk) as (p & Hp & u & v & Hpuv & Hu & Hlen & Hv).
        exists p. split; [exact Hp|]. exists u, v. simpl. repeat split; auto; lia. }
      destruct s as [|x s']; [exact Hskip|].
      destruct (c x) eqn:Hc; [|exact Hskip].
      destruct (match_here re s') as [r|] eqn:Hk; [|exact Hskip].
      intros [= ->]. destruct (Hone x s' Hc Hk) as (p & Hp & u & v & Hpuv & Hu & Hlen & Hv).
      exists p. split; [exact Hp|]. exists u, v. simpl. repeat split; auto; lia.
    + intros Hk. destruct (Hstar s Hk) as (p & Hp & u & v & Hpuv & Hu & Hv).
      exists p. split; [exact Hp|]. exists u, v. simpl. auto.
    + destruct s as [|x s']; [discriminate|]. destruct (c x) eqn:Hc; [|discriminate].
      intros Hk. destruct (Hstar s' Hk) as (p & -> & u & v & -> & Hu & Hv).
      exists (x :: u ++ v)%list. split; [reflexivity|].
      exists (x :: u), v. simpl. repeat split; auto; lia.
Qed.

(** When [match_here] finds nothing, no prefix of the text is a match. *)
Lemma match_here_complete (re : regex) :
  forall s, match_here re s = None ->
  forall p rest, s = (p ++ rest)%list -> ~ in_lang re p.
Proof.
  induction re as [|[c q] re IH]; intros s; simpl; [discriminate|].
  intros Hnone p rest -> (u & v & -> & Hu & Hq & Hv).
  rewrite <- app_assoc in Hnone.
  assert (match_here re (v ++ rest) <> None) as Hk.
  { intros Hk. exact (IH _ Hk v rest eq_refl Hv). }
  apply Hk. clear Hk. destruct q; simpl in Hq.
  - destruct u as [|x [|y u]]; simpl in Hq; try lia. simpl in Hnone.
    inversion Hu as [|? ? Hx _]; subst. rewrite Hx in Hnone. exact Hnone.
  - destruct u as [|x [|y u]]; simpl in Hq; try lia; simpl in Hnone.
    + destruct (v ++ rest)%list as [|y l] eqn:Hl; [exact Hnone|].
      destruct (c y); [|exact Hnone].
      destruct (match_here re l); [discriminate | exact Hnone].
    + inversion Hu as [|? ? Hx _]; subst. rewrite Hx in Hnone.
      destruct (match_here re (v ++ rest)); [discriminate | reflexivity].
  - exact (match_star_complete _ _ _ Hnone u (v ++ rest)%list eq_refl Hu).
  - destruct u as [|x u]; simpl in Hq; [lia|]. simpl in Hnone.
    inversion Hu as [|? ? Hx Hu']; subst. rewrite Hx in Hnone.
    exact (match_star_complete _ _ _ Hnone u (v ++ rest)%list eq_refl Hu').
Qed.

(** The runs of a match make a string of the language. *)
Lemma runs_in_lang (re : regex) :
  forall us, runs_of re us -> in_lang re (concat us).
Proof.
  induction re as [|[c q] re IH]; intros [|u us]; simpl; try tauto.
  intros (Hu & Hq & Hus). exists u, (concat us). auto.
Qed.

Lemma runs_of_length (re : regex) :
  forall us, runs_of re us -> length us = length re.
Proof.
  induction re as [|[c q] re IH]; intros [|u us]; simpl; try tauto.
  intros (_ & _ & Hus). f_equal. by apply IH.
Qed.

(** The star takes the longest run after which the rest of the pattern
    matches. *)
Lemma match_star_greedy (c : rune -> bool) (k : list rune -> option (list rune))
    (s rest : list rune) :
  match_star c k s = Some rest ->
  exists u s', s = (u ++ s')%list /\ Forall (fun x => c x = true) u /\ k s' = Some rest /\
    forall v t, s = (v ++ t)%list -> Forall (fun x => c x = true) v ->
      (length u < length v)%nat -> k t = None.
Proof.
  revert rest. induction s as [|x s IH]; intros rest; simpl.
  - intros Hk. exists [], []. repeat split; auto.
    intros v t Hs _ Hlen. symmetry in Hs. apply app_eq_nil in Hs as [-> _].
    simpl in Hlen. lia.
  - destruct (c x) eqn:Hc.
    + destruct (match_star c k s) as [r|] eqn:Hstar.
      * intros [= ->]. destruct (IH rest eq_refl) as (u & s' & -> & Hu & Hk & Hmax).
        exists (x :: u), s'. repeat split; auto.
        intros [|y v] t Hs Hv Hlen; simpl in Hlen; [lia|].
        simpl in Hs. injection Hs as <- Hs. apply (Hmax v t Hs); [by inversion Hv | lia].
      * intros Hk. exists [], (x :: s). repeat split; auto.
        intros [|y v] t Hs Hv Hlen; simpl in Hlen; [lia|].
        simpl in Hs. injection Hs as <- Hs.
        apply (match_star_complete _ _ _ Hstar v t Hs). by inversion Hv.
    + intros Hk. exists [], (x :: s). repeat split; auto.
      intros [|y v] t Hs Hv Hlen; simpl in Hlen; [lia|].
      simpl in Hs. injection Hs as <- Hs. inversion Hv; congruence.
Qed.

(** A first run [u] after which the rest of the pattern matches, and such
    that it fails after every longer run, starts the match that is taken. *)
Lemma selected_cons (c : rune -> bool) (q : quant) (re : regex) (u s' rest : list rune)
    (us : list (list rune)) :
  Forall (fun x => c x = true) u -> quant_ok q (length u) ->
  s' = (concat us ++ rest)%list -> runs_of re us ->
  (forall vs rest', s' = (concat vs ++ rest')%list -> runs_of re vs -> preferred us vs) ->
  (forall v t, (u ++ s')%list = (v ++ t)%list -> Forall (fun x => c x = true) v ->
     quant_ok q (length v) -> (length u < length v)%nat -> match_here re t = None) ->
  (u ++ s')%list = (concat (u :: us) ++ rest)%list /\
  runs_of ((c, q) :: re) (u :: us) /\
  (forall vs rest', (u ++ s')%list = (concat vs ++ rest')%list ->
     runs_of ((c, q) :: re) vs -> preferred (u :: us) vs).
Proof.
  intros Hu Hq Hs' Hus Hbest Hlonger. split; [|split].
  - simpl. rewrite <- app_assoc. by rewrite Hs'.
  - simpl. auto.
  - intros [|v vs] rest' Hs; simpl; [tauto|]. intros (Hv & Hqv & Hvs).
    simpl in Hs. rewrite <- app_assoc in Hs.
    destruct (lt_eq_lt_dec (length v) (length u)) as [[Hlt|Heq]|Hgt].
    + left. exact Hlt.
    + right. split; [exact Heq|].
      apply app_inj_1 in Hs as [-> Hs]; [|by symmetry]. by apply (Hbest vs rest').
    + exfalso. pose proof (Hlonger v _ Hs Hv Hqv Hgt) as Hnone.
      exact (match_here_complete _ _ Hnone (concat vs) rest' eq_refl (runs_in_lang _ _ Hvs)).
Qed.

(** What [match_here] finds is the match that is taken. *)
Lemma match_here_selected (re : regex) :
  forall s rest, match_here re s = Some rest ->
  exists us, s = (concat us ++ rest)%list /\ runs_of re us /\
    forall vs rest', s = (concat vs ++ rest')%list -> runs_of re vs -> preferred us vs.
Proof.
  induction re as [|[c q] re IH]; intros s rest.
  - simpl. intros [= ->]. exists []. repeat split.
  - assert (forall u s', s = (u ++ s')%list ->
              Forall (fun x => c x = true) u -> quant_ok q (length u) ->
              match_here re s' = Some rest ->
              (forall v t, (u ++ s')%list = (v ++ t)%list -> Forall (fun x => c x = true) v ->
                 quant_ok q (length v) -> (length u < length v)%nat ->
                 match_here re t = None) ->
              exists us, s = (concat us ++ rest)%list /\ runs_of ((c, q) :: re) us /\
                forall vs rest', s = (concat vs ++ rest')%list -> runs_of ((c, q) :: re) vs ->
                  preferred us vs) as Hrun.
    { intros u s' -> Hu Hq Hk Hlonger.
      destruct (IH _ _ Hk) as (us & Hs' & Hus & Hbest).
      exists (u :: us). by apply selected_cons. }
    simpl. destruct q.
    + destruct s as [|x s1]; [discriminate|]. destruct (c x) eqn:Hc; [|discriminate].
      intros Hk.
      apply (Hrun [x] s1); [reflexivity | by repeat constructor | reflexivity | exact Hk |].
      intros v t _ _ Hq Hlen. simpl in *. lia.
    + assert (match_here re s = Some rest ->
                (forall x s1, s = x :: s1 -> c x = true -> match_here re s1 = None) ->
                exists us, s = (concat us ++ rest)%list /\ runs_of ((c, Opt) :: re) us /\
                  forall vs rest', s = (concat vs ++ rest')%list ->
                    runs_of ((c, Opt) :: re) vs -> preferred us vs) as Hskip.
      { intros Hk Hno.
        apply (Hrun [] s); [reflexivity | constructor | simpl; lia | exact Hk |].
        intros [|y [|z v]] t Hs Hv Hq Hlen; simpl in *; try lia.
        apply (Hno y t Hs). by inversion Hv. }
      destruct s as [|x s1]; [intros Hk; apply Hskip; [exact Hk | discriminate]|].
      destruct (c x) eqn:Hc.
      * destruct (match_here re s1) as [r|] eqn:Hk.
        -- intros [= ->].
           apply (Hrun [x] s1);
             [reflexivity | by repeat constructor | simpl; lia | exact Hk |].
           intros v t _ _ Hq Hlen. simpl in *. lia.
        -- intros Hk'. apply Hskip; [exact Hk'|]. intros y t [= <- <-] _. exact Hk.
      * intros Hk. apply Hskip; [exact Hk|]. intros y t [= <- <-]. congruence.
    + intros Hk. destruct (match_star_greedy _ _ _ _ Hk) as (u & s' & Hs & Hu & Hk' & Hmax).
      apply (Hrun u s'); [exact Hs | exact Hu | exact I | exact Hk' |].
      intros v t Hvt Hv _ Hlen.
      apply (Hmax v t); [by rewrite Hs | exact Hv | exact Hlen].
    + destruct s as [|x s0]; [discriminate|]. destruct (c x) eqn:Hc; [|discriminate].
      intros Hk. destruct (match_star_greedy _ _ _ _ Hk) as (u & s' & -> & Hu & Hk' & Hmax).
      apply (Hrun (x :: u) s');
        [reflexivity | by constructor | simpl; lia | exact Hk' |].
      intros [|y v] t Hvt Hv _ Hlen; simpl in Hlen; [lia|].
      simpl in Hvt. injection Hvt as <- Hvt.
      apply (Hmax v t Hvt); [by inversion Hv | lia].
Qed.

(** Two matches each preferred to the other have the same length. *)
Lemma preferred_antisym (us vs : list (list rune)) :
  length us = length vs -> preferred us vs -> preferred vs us ->
  length (concat us) = length (concat vs).
Proof.
  revert vs. induction us as [|u us IH]; intros [|v vs]; simpl; try discriminate; auto.
  intros [= Hlen] [Huv|[Huv Hus]] [Hvu|[Hvu Hvs]]; try lia.
  rewrite !length_app, (IH vs Hlen Hus Hvs). lia.
Qed.

(** What one application of a pattern leaves is determined. *)
Lemma strips_functional (re : regex) (s s1 s2 : list rune) :
  strips re s s1 -> strips re s s2 -> s1 = s2.
Proof.
  intros [(us & (Hus & _ & Hbest1) & Hs1)|[-> Hno1]] [(vs & (Hvs & _ & Hbest2) & Hs2)|[-> Hno2]].
  - assert (length (concat us) = length (concat vs)) as Hlen.
    { apply preferred_antisym.
      - by rewrite (runs_of_length _ _ Hus), (runs_of_length _ _ Hvs).
      - by apply (Hbest1 vs s2).
      - by apply (Hbest2 us s1). }
    rewrite Hs1 in Hs2. by apply app_inj_1 in Hs2 as [_ ->].
  - destruct (Hno2 us s1 Hs1 Hus).
  - destruct (Hno1 vs s2 Hs2 Hvs).
  - reflexivity.
Qed.

(** One application of a pattern removes the match taken at the start of
    the name when there is one, and nothing otherwise. *)
Lemma ReplaceAllString_empty_strips (re : regex) (name : list rune) :
  strips re name (ReplaceAllString_empty re name).
Proof.
  unfold strips, ReplaceAllString_empty.
  destruct (match_here re name) as [rest|] eqn:Hm.
  - left. destruct (match_here_selected _ _ _ Hm) as (us & Hs & Hus & Hbest).
    exists us. split; [|exact Hs]. split; [exact Hus|]. split; [by exists rest | exact Hbest].
  - right. split; [reflexivity|]. intros vs rest Hs Hvs.
    exact (match_here_complete _ _ Hm (concat vs) rest Hs (runs_in_lang _ _ Hvs)).
Qed.

(** C9, as amended.  [cleanTrackPrefix] applies the four patterns in their
    order, each one once to what the one before left: each removes from the
    start of the string the match that Go's regexp takes there, the greedy
    one, when the string starts with a match, and is skipped otherwise; the
    result is the last string, trimmed.  The four steps determine the
    result. *)
Theorem cleanTrackPrefix_one_strip_per_pattern (name : list rune) :
  (exists s1 s2 s3 s4,
     strips pattern1 name s1 /\
     strips pattern2 s1 s2 /\
     strips pattern3 s2 s3 /\
     strips pattern4 s3 s4 /\
     cleanTrackPrefix name = strings_TrimSpace s4) /\
  (forall s1 s2 s3 s4,
     strips pattern1 name s1 ->
     strips pattern2 s1 s2 ->
     strips pattern3 s2 s3 ->
     strips pattern4 s3 s4 ->
     cleanTrackPrefix name = strings_TrimSpace s4).
Proof.
  split.
  - exists (ReplaceAllString_empty pattern1 name).
    exists (ReplaceAllString_empty pattern2 (ReplaceAllString_empty pattern1 name)).
    exists (ReplaceAllString_empty pattern3
              (ReplaceAllString_empty pattern2 (ReplaceAllString_empty pattern1 name))).
    exists (ReplaceAllString_empty pattern4
              (ReplaceAllString_empty pattern3
                 (ReplaceAllString_empty pattern2 (ReplaceAllString_empty pattern1 name)))).
    repeat split; apply ReplaceAllString_empty_strips.
  - intros s1 s2 s3 s4 H1 H2 H3 H4.
    rewrite (strips_functional _ _ _ _ H1 (ReplaceAllString_empty_strips pattern1 name)) in H2.
    rewrite (strips_functional _ _ _ _ H2 (ReplaceAllString_empty_strips pattern2 _)) in H3.
    rewrite (strips_functional _ _ _ _ H3 (ReplaceAllString_empty_strips pattern3 _)) in H4.
    rewrite (strips_functional _ _ _ _ H4 (ReplaceAllString_empty_strips pattern4 _)).
    reflexivity.
Qed.

(** C9, the counterexample: pattern 1 removes [01 ] and pattern 2 then
    removes [02 - ], two prefixes in one call; no single pattern gives the
    result. *)
Lemma cleanTrackPrefix_two_prefixes :
  ReplaceAllString_empty pattern1 (runes "01 02 - Artist - Title")
    = runes "02 - Artist - Title" /\
  ReplaceAllString_empty pattern2 (runes "02 - Artist - Title") = runes "Artist - Title" /\
  cleanTrackPrefix (runes "01 02 - Artist - Title") = runes "Artist - Title" /\
  ~ at_most_one_prefix (runes "01 02 - Artist - Title").
Proof.
  split; [reflexivity|]. split; [reflexivity|]. split; [reflexivity|].
  intros [H|(re & Hin & H)].
  - vm_compute in H. discriminate.
  - simpl in Hin. destruct Hin as [<-|[<-|[<-|[<-|[]]]]]; vm_compute in H; discriminate.
Qed.

Example cleanTrackPrefix_examples :
  cleanTrackPrefix (runes "01 Artist - Title") = runes "Artist - Title" /\
  cleanTrackPrefix (runes "1. Artist - Title") = runes "Artist - Title" /\
  cleanTrackPrefix (runes "01-Artist - Title") = runes "Artist - Title" /\
  cleanTrackPrefix (runes "A1 Artist - Title") = runes "Artist - Title" /\
  cleanTrackPrefix (runes "B2-Artist - Title") = runes "Artist - Title" /\
  cleanTrackPrefix (runes "B2 - Artist - Title") = runes "- Artist - Title" /\
  cleanTrackPrefix (runes "Artist - Title") = runes "Artist - Title" /\
  cleanTrackPrefix (runes "1 2-A1 B2-x") = runes "x".
Proof. repeat split. Qed.

End Patterns.

(** ** The filename decomposer *)

Section Decomposer.
Import cmd spec.

Lemma strings_Count_nonneg (s : list rune) (sep : rune) : 0 <= strings_Count s sep.
Proof. induction s as [|x s IH]; simpl; [lia|]. destruct (x =? sep); lia. Qed.

Lemma strings_Index_None (s : list rune) (sep : rune) :
  strings_Index s sep = None -> strings_Count s sep = 0.
Proof.
  induction s as [|x s IH]; simpl; [reflexivity|].
  destruct (x =? sep); [discriminate|].
  destruct (strings_Index s sep); [discriminate|]. intros _. rewrite IH; reflexivity.
Qed.

Lemma strings_Index_Some (s : list rune) (sep : rune) (m : nat) :
  strings_Index s sep = Some m ->
  strings_Count s sep = 1 + strings_Count (drop (S m) s) sep.
Proof.
  revert m. induction s as [|x s IH]; simpl; [discriminate|]. intros m.
  destruct (x =? sep).
  - intros [= <-]. rewrite drop_0. reflexivity.
  - destruct (strings_Index s sep) as [m'|]; [|discriminate].
    intros [= <-]. rewrite (IH m' eq_refl). reflexivity.
Qed.

(** Asked for one piece more than there are separators, [SplitN] cuts at
    every separator. *)
Lemma SplitN_pieces_length (sep : rune) (n : nat) :
  forall s, strings_Count s sep = Z.of_nat n -> length (SplitN_pieces (S n) s sep) = S n.
Proof.
  induction n as [|n IH]; intros s Hc; [reflexivity|].
  change (SplitN_pieces (S (S n)) s sep) with
    (match strings_Index s sep with
     | None => [s]
     | Some m => take m s :: SplitN_pieces (S n) (drop (S m) s) sep
     end).
  destruct (strings_Index s sep) as [m|] eqn:Hi.
  - simpl. f_equal. apply IH. apply strings_Index_Some in Hi. lia.
  - apply strings_Index_None in Hi. lia.
Qed.

Lemma strings_SplitN_length (s : list rune) (sep : rune) (n : nat) :
  strings_Count s sep = Z.of_nat n ->
  length (strings_SplitN s sep (Z.of_nat (S n))) = S n.
Proof.
  intros Hc. unfold strings_SplitN.
  replace (Z.of_nat (S n) =? 0) with false by (symmetry; apply Z.eqb_neq; lia).
  replace (Z.of_nat (S n) <? 0) with false by (symmetry; apply Z.ltb_ge; lia).
  rewrite Nat2Z.id. by apply SplitN_pieces_length.
Qed.

Lemma strings_SplitN_all (s : list rune) (sep : rune) (n : nat) :
  strings_Count s sep = Z.of_nat n ->
  strings_SplitN s sep (Z.of_nat (S n)) = strings_Split s sep.
Proof.
  intros Hc. unfold strings_Split, strings_SplitN. rewrite Hc.
  replace (Z.of_nat (S n) =? 0) with false by (symmetry; apply Z.eqb_neq; lia).
  replace (Z.of_nat (S n) <? 0) with false by (symmetry; apply Z.ltb_ge; lia).
  simpl (-1 =? 0). simpl (-1 <? 0). cbv iota.
  f_equal. lia.
Qed.

(** The dispatch of [parseFilenameWithEdgeCase] on the hyphen count. *)
Lemma parseFilenameWithEdgeCase_cases (filePath : list rune) :
  let name := cleanedName filePath in
  let n := strings_Count name hyphen in
  (n = 0 /\ parseFilenameWithEdgeCase filePath = (trySpaceSeparated name, "no_hyphens")) \/
  (n = 1 /\ parseFilenameWithEdgeCase filePath = (parseOneHyphen name, "")) \/
  (n = 2 /\ parseFilenameWithEdgeCase filePath = (parseTwoHyphens name, "")) \/
  (n = 3 /\
   parseFilenameWithEdgeCase filePath = (tryThreeHyphenFallback name, "three_hyphens")) \/
  (n = 4 /\ parseFilenameWithEdgeCase filePath = (parseFourHyphens name, "")) \/
  (5 <= n /\
   parseFilenameWithEdgeCase filePath = (tryManyHyphenFallback name, "many_hyphens")).
Proof.
  intros name n. unfold parseFilenameWithEdgeCase. fold name. fold n.
  pose proof (strings_Count_nonneg name hyphen) as Hn. fold n in Hn.
  destruct n as [|p|p]; [left; auto | | lia].
  right.
  destruct p as [[[p|p|]|[p|p|]|]|[[p|p|]|[p|p|]|]|];
    first [ left; split; [reflexivity | reflexivity]
          | right; left; split; [reflexivity | reflexivity]
          | right; right; left; split; [reflexivity | reflexivity]
          | right; right; right; left; split; [reflexivity | reflexivity]
          | right; right; right; right; split; [lia | reflexivity] ].
Qed.

(** C8, as amended.  The edge-case tag depends on the hyphen count of the
    cleaned name alone: it is non-empty exactly for 0, 3 and 5 or more
    hyphens, where the artist and the title are the guess of the fallback
    heuristic of that case, and empty for 1, 2 and 4 hyphens. *)
Theorem edgeCase_by_hyphen_count (filePath : list rune) :
  let name := cleanedName filePath in
  let n := strings_Count name hyphen in
  exists artist title edgeCase,
    parseFilenameWithEdgeCase filePath = (artist, title, edgeCase) /\
    (edgeCase <> "" <-> n = 0 \/ n = 3 \/ 5 <= n) /\
    (edgeCase = "" <-> n = 1 \/ n = 2 \/ n = 4) /\
    (n = 0 -> edgeCase = "no_hyphens" /\ (artist, title) = trySpaceSeparated name) /\
    (n = 3 -> edgeCase = "three_hyphens" /\ (artist, title) = tryThreeHyphenFallback name) /\
    (5 <= n -> edgeCase = "many_hyphens" /\ (artist, title) = tryManyHyphenFallback name).
Proof.
  intros name n.
  destruct (parseFilenameWithEdgeCase_cases filePath)
    as [[Hn ->]|[[Hn ->]|[[Hn ->]|[[Hn ->]|[[Hn ->]|[Hn ->]]]]]];
    fold name in Hn |- *; fold n in Hn; clearbody n;
    match goal with
    | |- context [(?f name, _)] => destruct (f name) as [artist title] eqn:Hf
    end;
    eexists artist, title, _; (split; [reflexivity|]);
    repeat split; intros; try lia; try discriminate; try reflexivity; try congruence.
Qed.

(** C8, the counterexample: three hyphens give a non-empty artist and a
    non-empty title together with a tag; so do two words without a hyphen. *)
Lemma parseFilenameWithEdgeCase_tagged_guess :
  parseFilenameWithEdgeCase (runes "A - B - C - D") = (runes "A", runes "D", "three_hyphens") /\
  parseFilenameWithEdgeCase (runes "Artist Title")
    = (runes "Artist", runes "Title", "no_hyphens") /\
  ~ (forall filePath artist title edgeCase,
       parseFilenameWithEdgeCase filePath = (artist, title, edgeCase) ->
       artist <> [] -> title <> [] -> edgeCase = "").
Proof.
  split; [reflexivity|]. split; [reflexivity|].
  intros H.
  specialize (H (runes "A - B - C - D") (runes "A") (runes "D") "three_hyphens" eq_refl).
  discriminate H; discriminate.
Qed.

End Decomposer.

(** ** The segments the decomposer returns *)

Section Segments.
Import cmd.

Lemma split_pieces (name : list rune) (n : nat) :
  strings_Count name hyphen = Z.of_nat n ->
  strings_SplitN name hyphen (Z.of_nat (S n)) = strings_Split name hyphen /\
  length (strings_Split name hyphen) = S n.
Proof.
  intros Hc. split; [by apply strings_SplitN_all|].
  rewrite <- (strings_SplitN_all name hyphen n Hc). by apply strings_SplitN_length.
Qed.

(** With one to four hyphens the name splits into exactly the number of
    pieces the parser expects, so the parser never falls back to the empty
    pair: the artist is the first piece (the first two, joined by a slash,
    for four hyphens) and the title the last, both trimmed. *)
Lemma parse_segments (name : list rune) :
  (strings_Count name hyphen = 1 ->
   exists p0 p1,
     strings_Split name hyphen = [p0; p1] /\
     parseOneHyphen name = (strings_TrimSpace p0, strings_TrimSpace p1)) /\
  (strings_Count name hyphen = 2 ->
   exists p0 p1 p2,
     strings_Split name hyphen = [p0; p1; p2] /\
     parseTwoHyphens name = (strings_TrimSpace p0, strings_TrimSpace p2)) /\
  (strings_Count name hyphen = 3 ->
   exists p0 p1 p2 p3,
     strings_Split name hyphen = [p0; p1; p2; p3] /\
     tryThreeHyphenFallback name = (strings_TrimSpace p0, strings_TrimSpace p3)) /\
  (strings_Count name hyphen = 4 ->
   exists p0 p1 p2 p3 p4,
     strings_Split name hyphen = [p0; p1; p2; p3; p4] /\
     parseFourHyphens name
     = ((strings_TrimSpace p0 ++ [slash] ++ strings_TrimSpace p1)%list, strings_TrimSpace p4)) /\
  (5 <= strings_Count name hyphen ->
   exists p0 mid pl,
     strings_Split name hyphen = (p0 :: mid ++ [pl])%list /\
     Z.of_nat (length mid) = strings_Count name hyphen - 1 /\
     tryManyHyphenFallback name = (strings_TrimSpace p0, strings_TrimSpace pl)).
Proof.
  split; [|split; [|split; [|split]]].
  - intros Hc. destruct (split_pieces name 1 Hc) as [Hall Hlen].
    unfold parseOneHyphen. change 2 with (Z.of_nat 2). rewrite Hall.
    destruct (strings_Split name hyphen) as [|p0 [|p1 [|]]]; try discriminate. eauto.
  - intros Hc. destruct (split_pieces name 2 Hc) as [Hall Hlen].
    unfold parseTwoHyphens. change 3 with (Z.of_nat 3). rewrite Hall.
    destruct (strings_Split name hyphen) as [|p0 [|p1 [|p2 [|]]]]; try discriminate.
    eexists _, _, _. eauto.
  - intros Hc. destruct (split_pieces name 3 Hc) as [Hall Hlen].
    unfold tryThreeHyphenFallback. change 4 with (Z.of_nat 4). rewrite Hall.
    destruct (strings_Split name hyphen) as [|p0 [|p1 [|p2 [|p3 [|]]]]]; try discriminate.
    eexists _, _, _, _. eauto.
  - intros Hc. destruct (split_pieces name 4 Hc) as [Hall Hlen].
    unfold parseFourHyphens. change 5 with (Z.of_nat 5). rewrite Hall.
    destruct (strings_Split name hyphen) as [|p0 [|p1 [|p2 [|p3 [|p4 [|]]]]]];
      try discriminate.
    eexists _, _, _, _, _. eauto.
  - intros Hc.
    destruct (split_pieces name (Z.to_nat (strings_Count name hyphen)) ltac:(lia))
      as [_ Hlen].
    unfold tryManyHyphenFallback.
    destruct (strings_Split name hyphen) as [|p0 rest]; [simpl in Hlen; lia|].
    destruct (exists_last (l := rest)) as (mid & pl & ->).
    { intros ->. simpl in Hlen. lia. }
    simpl in Hlen. rewrite length_app in Hlen. simpl in Hlen.
    exists p0, mid, pl. split; [reflexivity|]. split; [lia|].
    replace (3 <=? length (p0 :: mid ++ [pl]))%nat with true.
    + simpl head. change (p0 :: mid ++ [pl])%list with ((p0 :: mid) ++ [pl])%list.
      rewrite last_snoc. reflexivity.
    + symmetry. apply Nat.leb_le. simpl. rewrite length_app. simpl. lia.
Qed.

Example parseFilenameWithEdgeCase_examples :
  parseFilenameWithEdgeCase (runes "Artist - Title") = (runes "Artist", runes "Title", "") /\
  parseFilenameWithEdgeCase (runes "Artist - Album - Title")
    = (runes "Artist", runes "Title", "") /\
  parseFilenameWithEdgeCase (runes "RandomSingleToken") = ([], [], "no_hyphens") /\
  parseFilenameWithEdgeCase (runes "/music/01 Artist - Title.aiff")
    = (runes "Artist", runes "Title", "") /\
  parseFilenameWithEdgeCase (runes "a-b-c-d-e.mp3") = (runes "a/b", runes "e", "") /\
  parseFilenameWithEdgeCase (runes "a-b-c-d-e-f.mp3") = (runes "a", runes "f", "many_hyphens") /\
  parseFilenameWithEdgeCase (runes " - ") = ([], [], "").
Proof. repeat split. Qed.

End Segments.

(** The tag and the guess for a name with three hyphens. *)
Lemma edgeCase_by_hyphen_count_witness :
  cmd.strings_Count (cmd.cleanedName (cmd.runes "A - B - C - D")) cmd.hyphen = 3 /\
  exists artist title edgeCase,
    cmd.parseFilenameWithEdgeCase (cmd.runes "A - B - C - D") = (artist, title, edgeCase) /\
    edgeCase <> "" /\
    edgeCase = "three_hyphens" /\
    (artist, title) = cmd.tryThreeHyphenFallback (cmd.cleanedName (cmd.runes "A - B - C - D")).
Proof.
  split; [reflexivity|].
  destruct (edgeCase_by_hyphen_count (cmd.runes "A - B - C - D"))
    as (artist & title & edgeCase & Hparse & Htag & _ & _ & Hthree & _).
  exists artist, title, edgeCase. split; [exact Hparse|]. split.
  - apply Htag. right. left. reflexivity.
  - apply Hthree. reflexivity.
Defined.

(** ** The order of binary64 numbers *)

Section FloatOrder.
Import spec.

Lemma SFcompare_key (x y : spec_float) :
  x <> S754_nan -> y <> S754_nan ->
  exists c, SFcompare x y = Some c /\
    (c = Lt <-> key_lt (sf_key x) (sf_key y)) /\
    (c = Gt <-> key_lt (sf_key y) (sf_key x)).
Proof.
  destruct x as [sx|sx| |sx mx ex], y as [sy|sy| |sy my ey]; try congruence; intros _ _;
    try (destruct sx); try (destruct sy); simpl;
    try (eexists; split; [reflexivity|]; split; split; (discriminate || lia || (intros; reflexivity)));
    rewrite Pos.compare_cont_spec; simpl;
    destruct (Z.compare_spec ex ey); try destruct (Pos.compare_spec mx my);
    simpl; eexists; (split; [reflexivity|]); split; split;
    (discriminate || lia || (intros; reflexivity)).
Qed.

Lemma ltb_key (a b : float) :
  fnum a -> fnum b -> (PrimFloat.ltb a b = true <-> key_lt (fkey a) (fkey b)).
Proof.
  intros Ha Hb. rewrite ltb_spec. unfold SFltb, fkey.
  destruct (SFcompare_key _ _ Ha Hb) as (c & -> & Hlt & Hgt).
  destruct c; split; intros H; try discriminate; try reflexivity;
    try (apply Hlt; reflexivity); try (apply Hlt in H; discriminate).
Qed.

Lemma leb_key (a b : float) :
  fnum a -> fnum b -> (PrimFloat.leb a b = true <-> ~ key_lt (fkey b) (fkey a)).
Proof.
  intros Ha Hb. rewrite leb_spec. unfold SFleb, fkey.
  destruct (SFcompare_key _ _ Ha Hb) as (c & -> & Hlt & Hgt).
  destruct c; split; intros H; try discriminate; try reflexivity.
  - intros Hk. apply Hgt in Hk. discriminate.
  - intros Hk. apply Hgt in Hk. discriminate.
  - exfalso. apply H, Hgt. reflexivity.
Qed.

Lemma leb_fnum (a b : float) : PrimFloat.leb a b = true -> fnum a /\ fnum b.
Proof.
  rewrite leb_spec. unfold SFleb, fnum.
  destruct (Prim2SF a), (Prim2SF b); simpl; try discriminate; split; discriminate.
Qed.

Lemma ltb_fnum (a b : float) : PrimFloat.ltb a b = true -> fnum a /\ fnum b.
Proof.
  rewrite ltb_spec. unfold SFltb, fnum.
  destruct (Prim2SF a), (Prim2SF b); simpl; try discriminate; split; discriminate.
Qed.

Lemma ltb_false_key (a b : float) :
  fnum a -> fnum b -> PrimFloat.ltb a b = false -> ~ key_lt (fkey a) (fkey b).
Proof.
  intros Ha Hb H Hk. apply (ltb_key _ _ Ha Hb) in Hk. congruence.
Qed.

Lemma key_lt_trans k1 k2 k3 : key_lt k1 k2 -> key_lt k2 k3 -> key_lt k1 k3.
Proof. destruct k1 as [[? ?] ?], k2 as [[? ?] ?], k3 as [[? ?] ?]. simpl. lia. Qed.

Lemma key_lt_irrefl k : ~ key_lt k k.
Proof. destruct k as [[? ?] ?]. simpl. lia. Qed.

Lemma key_le_lt_trans k1 k2 k3 : ~ key_lt k2 k1 -> key_lt k2 k3 -> key_lt k1 k3.
Proof. destruct k1 as [[? ?] ?], k2 as [[? ?] ?], k3 as [[? ?] ?]. simpl. lia. Qed.

(** From [b <= c] and [c < r], [b < r]. *)
Lemma float_lt_of_le_lt (b c r : float) :
  fnum b -> PrimFloat.ltb c b = false -> PrimFloat.ltb c r = true -> PrimFloat.ltb b r = true.
Proof.
  intros Hb Hcb Hcr. destruct (ltb_fnum _ _ Hcr) as [Hc Hr].
  apply (ltb_key _ _ Hb Hr). apply (ltb_key _ _ Hc Hr) in Hcr.
  apply (ltb_false_key _ _ Hc Hb) in Hcb.
  eapply key_le_lt_trans; eassumption.
Qed.

Lemma float_lt_trans (a b c : float) :
  PrimFloat.ltb a b = true -> PrimFloat.ltb b c = true -> PrimFloat.ltb a c = true.
Proof.
  intros Hab Hbc. destruct (ltb_fnum _ _ Hab) as [Ha Hb]. destruct (ltb_fnum _ _ Hbc) as [_ Hc].
  apply (ltb_key _ _ Ha Hc). apply (ltb_key _ _ Ha Hb) in Hab. apply (ltb_key _ _ Hb Hc) in Hbc.
  eapply key_lt_trans; eassumption.
Qed.

Lemma float_le_of_not_lt (a b : float) :
  fnum a -> fnum b -> PrimFloat.ltb a b = false -> PrimFloat.leb b a = true.
Proof.
  intros Ha Hb H. apply (leb_key _ _ Hb Ha). by apply ltb_false_key.
Qed.

Lemma float_le_of_lt (a b : float) : PrimFloat.ltb a b = true -> PrimFloat.leb a b = true.
Proof.
  intros H. destruct (ltb_fnum _ _ H) as [Ha Hb].
  apply (leb_key _ _ Ha Hb). apply (ltb_key _ _ Ha Hb) in H.
  intros Hk. exact (key_lt_irrefl _ (key_lt_trans _ _ _ H Hk)).
Qed.

Lemma float_le_refl (a : float) : fnum a -> PrimFloat.leb a a = true.
Proof. intros Ha. apply (leb_key _ _ Ha Ha). apply key_lt_irrefl. Qed.

End FloatOrder.

(** ** The Best strategy and the shape of every result *)

Section BestStrategy.
Import enricher spec.
Context {R : Runtime}.

Lemma accepted_fnum (cfg : EnricherConfig) (r : TrackMetadata.t) :
  accepted cfg (Some r) = true -> fnum (TrackMetadata.Confidence r).
Proof. simpl. intros [Hc _]%andb_prop. by destruct (leb_fnum _ _ Hc). Qed.

Lemma best_answer_here (cfg : EnricherConfig) (r0 : TrackMetadata.t) (outs : list Result) :
  accepted cfg (Some r0) = true ->
  (forall j r', outs !! j = Some (Some r', None) -> accepted cfg (Some r') = true ->
     PrimFloat.ltb (TrackMetadata.Confidence r0) (TrackMetadata.Confidence r') = false) ->
  best_answer cfg ((Some r0, None) :: outs) 0 r0.
Proof.
  intros Hacc Hrest. split; [reflexivity|].
  split; [by rewrite qualifies_accepted|]. split.
  - intros [|j] r' Hj Hr'; rewrite qualifies_accepted in Hr'; simpl in Hj.
    + injection Hj as <-. apply float_le_refl. by eapply accepted_fnum.
    + apply float_le_of_not_lt; eauto using accepted_fnum.
  - intros j r' Hlt. lia.
Qed.

Lemma best_answer_later (cfg : EnricherConfig) (out : Result) (outs : list Result)
    (i : nat) (r : TrackMetadata.t) :
  best_answer cfg outs i r ->
  (forall r0, out = (Some r0, None) -> accepted cfg (Some r0) = true ->
     PrimFloat.ltb (TrackMetadata.Confidence r0) (TrackMetadata.Confidence r) = true) ->
  best_answer cfg (out :: outs) (S i) r.
Proof.
  intros (Hi & Hacc & Hmax & Hfirst) Hout. split; [exact Hi|]. split; [exact Hacc|]. split.
  - intros [|j] r' Hj Hr'; simpl in Hj.
    + injection Hj as ->. apply float_le_of_lt. apply Hout; [reflexivity|].
      by rewrite <- qualifies_accepted.
    + eauto.
  - intros [|j] r' Hlt Hj Hr'; simpl in Hj.
    + injection Hj as ->. apply Hout; [reflexivity|]. by rewrite <- qualifies_accepted.
    + apply (Hfirst j); [lia | assumption | assumption].
Qed.

(** The loop of [lookupBest] while it holds a result. *)
Lemma lookupBest_loop_some (cfg : EnricherConfig) (ctx : Ctx) (req : SearchRequest.t)
    (ps : list MetadataProvider) :
  forall (b : TrackMetadata.t) (lastErr : option error) (w : World),
  accepted cfg (Some b) = true ->
  exists outs w1,
    call_all ps ctx req w = (outs, w1) /\
    ((lookupBest_loop cfg ps ctx req (Some b) lastErr w = ((Some b, None), w1) /\
      forall j r', outs !! j = Some (Some r', None) -> accepted cfg (Some r') = true ->
        PrimFloat.ltb (TrackMetadata.Confidence b) (TrackMetadata.Confidence r') = false)
     \/
     (exists i r,
        lookupBest_loop cfg ps ctx req (Some b) lastErr w = ((Some r, None), w1) /\
        best_answer cfg outs i r /\
        PrimFloat.ltb (TrackMetadata.Confidence b) (TrackMetadata.Confidence r) = true)).
Proof.
  induction ps as [|p ps IH]; intros b lastErr w Hb.
  - exists [], w. split; [reflexivity|]. left. split; [reflexivity|]. intros j r' Hj. discriminate.
  - simpl. destruct (LookupWithHints p ctx req w) as [[result err] w0] eqn:Hp.
    destruct err as [e|].
    + destruct (IH b (Some e) w0 Hb) as (outs & w1 & -> & [[Hres Hno]|(i & r & Hres & Hbest & Hlt)]);
        exists ((result, Some e) :: outs), w1; (split; [reflexivity|]).
      * left. split; [exact Hres|]. intros [|j] r' Hj; simpl in Hj; [discriminate | eauto].
      * right. exists (S i), r. split; [exact Hres|]. split; [|exact Hlt].
        apply best_answer_later; [exact Hbest | intros r0 [=]].
    + destruct (accepted cfg result) eqn:Hacc.
      * destruct result as [r0|]; [|discriminate].
        destruct (PrimFloat.ltb (TrackMetadata.Confidence b) (TrackMetadata.Confidence r0))
          eqn:Hcmp.
        -- destruct (IH r0 lastErr w0 Hacc)
             as (outs & w1 & -> & [[Hres Hno]|(i & r & Hres & Hbest & Hlt)]);
             exists ((Some r0, None) :: outs), w1; (split; [reflexivity|]); right.
           ++ exists 0%nat, r0. split; [exact Hres|]. split; [|exact Hcmp].
              by apply best_answer_here.
           ++ exists (S i), r. split; [exact Hres|]. split.
              ** apply best_answer_later; [exact Hbest|]. intros r1 [= <-] _. exact Hlt.
              ** eapply float_lt_trans; eassumption.
        -- destruct (IH b lastErr w0 Hb)
             as (outs & w1 & -> & [[Hres Hno]|(i & r & Hres & Hbest & Hlt)]);
             exists ((Some r0, None) :: outs), w1; (split; [reflexivity|]).
           ++ left. split; [exact Hres|].
              intros [|j] r' Hj Hr'; simpl in Hj; [injection Hj as <-; exact Hcmp | eauto].
           ++ right. exists (S i), r. split; [exact Hres|]. split; [|exact Hlt].
              apply best_answer_later; [exact Hbest|]. intros r1 [= <-] Hr1.
              eapply float_lt_of_le_lt; [by eapply accepted_fnum | exact Hcmp | exact Hlt].
      * destruct (IH b lastErr w0 Hb)
          as (outs & w1 & -> & [[Hres Hno]|(i & r & Hres & Hbest & Hlt)]);
          exists ((result, None) :: outs), w1; (split; [reflexivity|]).
        -- left. split; [exact Hres|].
           intros [|j] r' Hj Hr'; simpl in Hj;
             [injection Hj as ->; simpl in Hacc; congruence | eauto].
        -- right. exists (S i), r. split; [exact Hres|]. split; [|exact Hlt].
           apply best_answer_later; [exact Hbest|]. intros r0 [= ->]. congruence.
Qed.

(** The loop of [lookupBest] while it holds no result. *)
Lemma lookupBest_loop_none (cfg : EnricherConfig) (ctx : Ctx) (req : SearchRequest.t)
    (ps : list MetadataProvider) :
  forall (lastErr : option error) (w : World),
  exists outs w1,
    call_all ps ctx req w = (outs, w1) /\
    ((Forall (fun out => qualifies cfg out = false) outs /\
      lookupBest_loop cfg ps ctx req None lastErr w =
        ((None, Some (default ErrNotFound (last_error_from lastErr outs))), w1))
     \/
     (exists i r,
        lookupBest_loop cfg ps ctx req None lastErr w = ((Some r, None), w1) /\
        best_answer cfg outs i r)).
Proof.
  induction ps as [|p ps IH]; intros lastErr w.
  - exists [], w. split; [reflexivity|]. left. split; [constructor|]. destruct lastErr; reflexivity.
  - simpl. destruct (LookupWithHints p ctx req w) as [[result err] w0] eqn:Hp.
    destruct err as [e|].
    + destruct (IH (Some e) w0) as (outs & w1 & -> & [[Hall Hres]|(i & r & Hres & Hbest)]);
        exists ((result, Some e) :: outs), w1; (split; [reflexivity|]).
      * left. split; [constructor; [reflexivity | exact Hall] | exact Hres].
      * right. exists (S i), r. split; [exact Hres|].
        apply best_answer_later; [exact Hbest | intros r0 [=]].
    + destruct (accepted cfg result) eqn:Hacc.
      * destruct result as [r0|]; [|discriminate].
        destruct (lookupBest_loop_some cfg ctx req ps r0 lastErr w0 Hacc)
          as (outs & w1 & -> & [[Hres Hno]|(i & r & Hres & Hbest & Hlt)]);
          exists ((Some r0, None) :: outs), w1; (split; [reflexivity|]); right.
        -- exists 0%nat, r0. split; [exact Hres|]. by apply best_answer_here.
        -- exists (S i), r. split; [exact Hres|].
           apply best_answer_later; [exact Hbest|]. intros r1 [= <-] _. exact Hlt.
      * destruct (IH lastErr w0) as (outs & w1 & -> & [[Hall Hres]|(i & r & Hres & Hbest)]);
          exists ((result, None) :: outs), w1; (split; [reflexivity|]).
        -- left. split; [constructor; [by rewrite qualifies_accepted | exact Hall] | exact Hres].
        -- right. exists (S i), r. split; [exact Hres|].
           apply best_answer_later; [exact Hbest|]. intros r0 [= ->]. congruence.
Qed.

(** X1. [lookupBest] calls every provider, in order, whatever the answers
    are.  When some answer qualifies it returns a qualifying answer of the
    highest confidence, the earliest one among equals, and the errors of the
    other providers are dropped; when none qualifies it returns the last
    provider error, and [ErrNotFound] when no provider failed. *)
Theorem lookupBest_spec (e : Enricher) (ctx : Ctx) (req : SearchRequest.t) (w : World) :
  exists outs w1,
    call_all (providers e) ctx req w = (outs, w1) /\
    ((Forall (fun out => qualifies (config e) out = false) outs /\
      lookupBest e ctx req w = ((None, Some (default ErrNotFound (last_error outs))), w1))
     \/
     (exists i r,
        lookupBest e ctx req w = ((Some r, None), w1) /\
        best_answer (config e) outs i r)).
Proof. apply lookupBest_loop_none. Qed.

Lemma accepted_gate (cfg : EnricherConfig) (r : TrackMetadata.t) :
  accepted cfg (Some r) = true ->
  PrimFloat.leb (MinConfidence cfg) (TrackMetadata.Confidence r) = true /\
  (RequireLabel cfg = true -> TrackMetadata.Label r <> "").
Proof.
  intros Hacc. destruct (accepted_Some _ _ Hacc) as (r' & [= <-] & Hc & Hl). auto.
Qed.

Lemma lookupFirst_well_formed (e : Enricher) (ctx : Ctx) (req : SearchRequest.t) (w : World) :
  well_formed (config e) (lookupFirst e ctx req w).
Proof.
  destruct (lookupFirst_loop_spec (config e) ctx req (providers e) None w) as
    [(pre & q & post & outs & w2 & r & w3 & _ & _ & _ & _ & Hc & Hl & Hres)
    |(outs & w2 & _ & _ & Hres)]; unfold lookupFirst; rewrite Hres.
  - left. eauto 10.
  - right. eauto.
Qed.

Lemma lookupBest_well_formed (e : Enricher) (ctx : Ctx) (req : SearchRequest.t) (w : World) :
  well_formed (config e) (lookupBest e ctx req w).
Proof.
  destruct (lookupBest_loop_none (config e) ctx req (providers e) None w)
    as (outs & w1 & _ & [[_ Hres]|(i & r & Hres & _ & Hacc & _)]);
    unfold lookupBest; rewrite Hres.
  - right. eauto.
  - left. rewrite qualifies_accepted in Hacc. destruct (accepted_gate _ _ Hacc). eauto 10.
Qed.

Lemma lookupFallback_well_formed (e : Enricher) (ctx : Ctx) (req : SearchRequest.t)
    (w : World) :
  well_formed (config e) (lookupFallback e ctx req w).
Proof.
  unfold lookupFallback.
  destruct (lookupFirst_well_formed e ctx req w)
    as [(r & w1 & -> & Hc & Hl)|(err & w1 & ->)].
  - left. eauto 10.
  - apply lookupFirst_well_formed.
Qed.

(** X2. Whatever the strategy, [LookupWithRequest] and [Lookup] return
    either a result with a nil error or a nil result with an error, never
    both and never neither; and a returned result always passes the quality
    gate: its confidence is at least [MinConfidence] and, when
    [RequireLabel] is set, its label is not empty. *)
Theorem Lookup_result_well_formed (e : Enricher) (ctx : Ctx) (req : SearchRequest.t)
    (artist title : string) (w : World) :
  ((exists r w1, LookupWithRequest e ctx req w = ((Some r, None), w1) /\
      PrimFloat.leb (MinConfidence (config e)) (TrackMetadata.Confidence r) = true /\
      (RequireLabel (config e) = true -> TrackMetadata.Label r <> "")) \/
   (exists err w1, LookupWithRequest e ctx req w = ((None, Some err), w1))) /\
  ((exists r w1, Lookup e ctx artist title w = ((Some r, None), w1) /\
      PrimFloat.leb (MinConfidence (config e)) (TrackMetadata.Confidence r) = true /\
      (RequireLabel (config e) = true -> TrackMetadata.Label r <> "")) \/
   (exists err w1, Lookup e ctx artist title w = ((None, Some err), w1))).
Proof.
  assert (forall req0 w0, well_formed (config e) (LookupWithRequest e ctx req0 w0)) as Hreq.
  { intros req0 w0. unfold LookupWithRequest.
    destruct (context_WithTimeout ctx (RequestTimeout (config e)) w0) as [ctx' w'].
    destruct (Strategy (config e));
      auto using lookupFirst_well_formed, lookupBest_well_formed, lookupFallback_well_formed. }
  split; [apply Hreq|].
  unfold Lookup. destruct (bool_decide (length (providers e) = 0%nat)).
  - right. eauto.
  - apply Hreq.
Qed.

End BestStrategy.

(** ** Closing, adding providers and the fallback of a plain lookup *)

Section Registry.
Import enricher spec.
Context {R : Runtime}.

Lemma default_last_cons {A : Type} (d : option A) (e : A) (l : list A) :
  default d (Some <$> last (e :: l)) = default (Some e) (Some <$> last l).
Proof. rewrite last_cons. destruct (last l); reflexivity. Qed.

Lemma Close_loop_spec (ps : list MetadataProvider) :
  forall (lastErr : option error) (w : World),
  exists errs w1,
    close_all ps w = (errs, w1) /\
    Close_loop ps lastErr w = (default lastErr (Some <$> last (omap id errs)), w1).
Proof.
  induction ps as [|p ps IH]; intros lastErr w.
  - exists [], w. split; reflexivity.
  - simpl. destruct (Close_ p w) as [[e|] w0].
    + destruct (IH (Some e) w0) as (errs & w1 & -> & ->).
      exists (Some e :: errs), w1. split; [reflexivity|]. f_equal.
      change (omap id (Some e :: errs)) with (e :: omap id errs).
      symmetry. apply default_last_cons.
    + destruct (IH lastErr w0) as (errs & w1 & -> & ->).
      exists (None :: errs), w1. split; reflexivity.
Qed.

(** X3. [Close] closes every provider, in registration order, also after
    one of them failed, and returns the error of the last provider whose
    [Close] failed, nil when none failed. *)
Theorem Close_last_error (e : Enricher) (w : World) :
  exists errs w1,
    close_all (providers e) w = (errs, w1) /\
    Close e w = (last (omap id errs), w1).
Proof.
  destruct (Close_loop_spec (providers e) None w) as (errs & w1 & Hall & Hres).
  exists errs, w1. split; [exact Hall|]. unfold Close. rewrite Hres.
  destruct (last (omap id errs)); reflexivity.
Qed.

Lemma lookupFirst_loop_app (cfg : EnricherConfig) (ctx : Ctx) (req : SearchRequest.t)
    (ps qs : list MetadataProvider) :
  forall (lastErr : option error) (w : World) (r : TrackMetadata.t) (w1 : World),
  lookupFirst_loop cfg ps ctx req lastErr w = ((Some r, None), w1) ->
  lookupFirst_loop cfg (ps ++ qs) ctx req lastErr w = ((Some r, None), w1).
Proof.
  induction ps as [|p ps IH]; intros lastErr w r w1; simpl.
  - destruct lastErr; discriminate.
  - destruct (LookupWithHints p ctx req w) as [[result [e|]] w0]; [apply IH|].
    destruct (accepted cfg result); [auto | apply IH].
Qed.

(** X4. [AddProvider] puts the new provider at the end of the registry: a
    lookup that the First strategy already answered is answered the same
    way, from the same provider calls, after any provider is added. *)
Theorem AddProvider_keeps_first_answer (e : Enricher) (p : MetadataProvider) (ctx : Ctx)
    (req : SearchRequest.t) (w w1 : World) (r : TrackMetadata.t) :
  lookupFirst e ctx req w = ((Some r, None), w1) ->
  GetProviders (AddProvider e p) = (GetProviders e ++ [p])%list /\
  lookupFirst (AddProvider e p) ctx req w = ((Some r, None), w1).
Proof.
  intros Hfirst. split; [reflexivity|]. unfold lookupFirst, AddProvider. simpl.
  by apply lookupFirst_loop_app.
Qed.

(** X5. Under the Fallback strategy, [Lookup] (artist and title only) makes
    its second pass with the very request of the first: the request it
    builds carries no hint to drop.  When the first pass fails, the result
    is that of running [lookupFirst] once more, on the same request, from
    the world the first pass left. *)
Theorem Lookup_fallback_repeats (e : Enricher) (ctx ctx' : Ctx) (artist title : string)
    (w w0 w1 : World) (err : error) :
  let req := SearchRequest.mk artist title "" "" "" 0 true 5 in
  providers e <> [] ->
  Strategy (config e) = StrategyFallback ->
  context_WithTimeout ctx (RequestTimeout (config e)) w = (ctx', w0) ->
  lookupFirst e ctx' req w0 = ((None, Some err), w1) ->
  Lookup e ctx artist title w = lookupFirst e ctx' req w1.
Proof.
  intros req Hne Hstrategy Htimeout Hfirst.
  unfold Lookup. rewrite bool_decide_eq_false_2.
  2: { destruct (providers e); [contradiction | discriminate]. }
  unfold LookupWithRequest. rewrite Htimeout, Hstrategy.
  unfold lookupFallback. fold req. rewrite Hfirst. reflexivity.
Qed.

End Registry.

(** Two providers that close with an error and one that closes cleanly. *)
Example Close_three_providers :
  let failing_close (e : error) : enricher.MetadataProvider :=
    enricher.Build_MetadataProvider "p" (fun _ _ _ w => ((None, None), w))
      (fun _ _ w => ((None, None), w)) (fun _ => true)
      (enricher.Build_RateLimitInfo 1.0%float 1 false false) (fun w => (Some e, w)) in
  (enricher.Close
     (enricher.NewEnricher [failing_close ErrAPIError; failing_close ErrRateLimit; sim.strong]
        None) sim.world0).1
  = Some ErrRateLimit.
Proof. reflexivity. Qed.

(** The Best strategy on four providers: the second answers below the
    threshold, the third and the fourth qualify with the same confidence,
    the first fails.  The answer of the third is the only one the statement
    allows; the error of the first is dropped. *)
Lemma lookupBest_spec_witness :
  let e := enricher.NewEnricher
             [sim.failing; sim.weak; sim.strong; sim.answering "other"
                (fun _ => (Some (sim.track "Other" 0.9%float), None))] None in
  enricher.lookupBest e None sim.request sim.world0
  = ((Some (sim.track "Label" 0.9%float), None), sim.world0).
Proof.
  intros e.
  destruct (lookupBest_spec e None sim.request sim.world0)
    as (outs & w1 & Hcall & [[Hall Hres]|(i & r & Hres & Hi & Hq & Hmax & Hfirst)]);
    cbn in Hcall; injection Hcall as <- <-.
  - inversion Hall as [|? ? _ Hall1]. inversion Hall1 as [|? ? _ Hall2].
    inversion Hall2 as [|? ? Hstrong _]. vm_compute in Hstrong. discriminate Hstrong.
  - destruct i as [|[|[|[|i]]]]; cbn in Hi; try discriminate Hi; injection Hi as <-.
    + vm_compute in Hq. discriminate Hq.
    + exact Hres.
    + assert (PrimFloat.ltb 0.9 0.9 = true) as Hlt; [|vm_compute in Hlt; discriminate Hlt].
      apply (Hfirst 2%nat (sim.track "Label" 0.9%float)); [lia | reflexivity |].
      vm_compute. reflexivity.
Defined.

(** A provider added after one that already answers. *)
Lemma AddProvider_keeps_first_answer_witness :
  let e := enricher.NewEnricher [sim.weak; sim.strong] None in
  enricher.lookupFirst e None sim.request sim.world0
    = ((Some (sim.track "Label" 0.9%float), None), sim.world0) /\
  enricher.GetProviders (enricher.AddProvider e sim.failing)
    = [sim.weak; sim.strong; sim.failing] /\
  enricher.lookupFirst (enricher.AddProvider e sim.failing) None sim.request sim.world0
    = ((Some (sim.track "Label" 0.9%float), None), sim.world0).
Proof.
  split; [reflexivity|].
  apply (AddProvider_keeps_first_answer (enricher.NewEnricher [sim.weak; sim.strong] None)
           sim.failing None sim.request sim.world0 sim.world0 (sim.track "Label" 0.9%float)).
  reflexivity.
Defined.

(** [Lookup] under Fallback on a provider that never qualifies. *)
Lemma Lookup_fallback_repeats_witness :
  let cfg :=
    enricher.Build_EnricherConfig enricher.StrategyFallback 0.7%float false (30 * Second)
      true 0 in
  let e := enricher.NewEnricher [sim.weak] (Some cfg) in
  let ctx' : sim.SimCtx := Some (sim.now sim.world0 + 30 * Second, context_DeadlineExceeded) in
  enricher.Lookup e None "LTJ Bukem" "Music" sim.world0
  = enricher.lookupFirst e ctx'
      (enricher.SearchRequest.mk "LTJ Bukem" "Music" "" "" "" 0 true 5) sim.world0.
Proof.
  apply (Lookup_fallback_repeats
           (enricher.NewEnricher [sim.weak]
              (Some (enricher.Build_EnricherConfig enricher.StrategyFallback 0.7%float false
                       (30 * Second) true 0)))
           None (Some (sim.now sim.world0 + 30 * Second, context_DeadlineExceeded))
           "LTJ Bukem" "Music" sim.world0 sim.world0 sim.world0 ErrNotFound).
  - discriminate.
  - reflexivity.
  - reflexivity.
  - reflexivity.
Defined.

(** ** More on the confidence score *)

Section ConfidenceMore.
Import enricher spec.

(** X6. The cap of [CalculateConfidence] never changes the score: the sum
    of the bonuses is at most 1.0 in binary64, and it is at least 0.4, so
    every score lies between 0.4 and 1.0. *)
Theorem CalculateConfidence_sum (md : TrackMetadata.t) (exactMatch : bool) :
  CalculateConfidence md exactMatch =
    ConfidenceSum exactMatch
      (bool_decide (TrackMetadata.Label md <> ""))
      (bool_decide (TrackMetadata.ReleaseDate md <> "") || (0 <? TrackMetadata.Year md))
      (bool_decide (TrackMetadata.CatalogNumber md <> "")) /\
  PrimFloat.leb 0.4 (CalculateConfidence md exactMatch) = true /\
  PrimFloat.leb (CalculateConfidence md exactMatch) 1.0 = true.
Proof.
  rewrite CalculateConfidence_cases.
  destruct exactMatch, (bool_decide (TrackMetadata.Label md <> "")),
    (bool_decide (TrackMetadata.ReleaseDate md <> "") || (0 <? TrackMetadata.Year md)),
    (bool_decide (TrackMetadata.CatalogNumber md <> "")); repeat split.
Qed.

(** X7. Against the threshold 0.7 of the default configuration and of the
    batch command, a score passes exactly when the match is exact and one
    of label, date or year, catalog number is present, or the match is fuzzy
    and the label and one of date or year, catalog number are present. *)
Theorem CalculateConfidence_default_threshold (md : TrackMetadata.t) (exactMatch : bool) :
  let label := bool_decide (TrackMetadata.Label md <> "") in
  let date :=
    bool_decide (TrackMetadata.ReleaseDate md <> "") || (0 <? TrackMetadata.Year md) in
  let catalog := bool_decide (TrackMetadata.CatalogNumber md <> "") in
  MinConfidence defaultConfig = 0.7%float /\
  PrimFloat.leb 0.7 (CalculateConfidence md exactMatch)
  = if exactMatch then label || date || catalog else label && (date || catalog).
Proof.
  intros label date catalog. split; [reflexivity|].
  rewrite CalculateConfidence_cases. fold label date catalog.
  destruct exactMatch, label, date, catalog; reflexivity.
Qed.

(** X8. For the same metadata an exact match scores strictly more than a
    fuzzy one, and a score never exceeds the score of metadata that has
    every field it has: a label, a date or year, a catalog number. *)
Theorem CalculateConfidence_monotone (md md' : TrackMetadata.t) (exactMatch : bool) :
  PrimFloat.ltb (CalculateConfidence md false) (CalculateConfidence md true) = true /\
  ((TrackMetadata.Label md <> "" -> TrackMetadata.Label md' <> "") ->
   (TrackMetadata.ReleaseDate md <> "" \/ 0 < TrackMetadata.Year md ->
    TrackMetadata.ReleaseDate md' <> "" \/ 0 < TrackMetadata.Year md') ->
   (TrackMetadata.CatalogNumber md <> "" -> TrackMetadata.CatalogNumber md' <> "") ->
   PrimFloat.leb (CalculateConfidence md exactMatch) (CalculateConfidence md' exactMatch)
   = true).
Proof.
  rewrite !CalculateConfidence_cases. split.
  - destruct (bool_decide (TrackMetadata.Label md <> "")),
      (bool_decide (TrackMetadata.ReleaseDate md <> "") || (0 <? TrackMetadata.Year md)),
      (bool_decide (TrackMetadata.CatalogNumber md <> "")); reflexivity.
  - intros Hl Hd Hc.
    assert (bool_decide (TrackMetadata.Label md <> "") = true ->
            bool_decide (TrackMetadata.Label md' <> "") = true) as Hl'.
    { rewrite !bool_decide_eq_true. exact Hl. }
    assert (bool_decide (TrackMetadata.CatalogNumber md <> "") = true ->
            bool_decide (TrackMetadata.CatalogNumber md' <> "") = true) as Hc'.
    { rewrite !bool_decide_eq_true. exact Hc. }
    assert (bool_decide (TrackMetadata.ReleaseDate md <> "") || (0 <? TrackMetadata.Year md)
              = true ->
            bool_decide (TrackMetadata.ReleaseDate md' <> "") || (0 <? TrackMetadata.Year md')
              = true) as Hd'.
    { rewrite !orb_true_iff, !bool_decide_eq_true, !Z.ltb_lt. exact Hd. }
    destruct exactMatch,
      (bool_decide (TrackMetadata.Label md <> "")),
      (bool_decide (TrackMetadata.ReleaseDate md <> "") || (0 <? TrackMetadata.Year md)),
      (bool_decide (TrackMetadata.CatalogNumber md <> ""));
      try rewrite (Hl' eq_refl); try rewrite (Hd' eq_refl); try rewrite (Hc' eq_refl);
      destruct (bool_decide (TrackMetadata.Label md' <> "")),
        (bool_decide (TrackMetadata.ReleaseDate md' <> "") || (0 <? TrackMetadata.Year md')),
        (bool_decide (TrackMetadata.CatalogNumber md' <> "")); reflexivity.
Qed.

(** Metadata with a label only, against metadata with label and year. *)
Lemma CalculateConfidence_monotone_witness :
  let md := sim.track "Label" 0 in
  let md' := enricher.TrackMetadata.mk "a" "t" "" "Label" "" "" "" 1993 "" "" 0 ∅ in
  PrimFloat.ltb (CalculateConfidence md false) (CalculateConfidence md true) = true /\
  PrimFloat.leb (CalculateConfidence md false) (CalculateConfidence md' false) = true.
Proof.
  destruct (CalculateConfidence_monotone (sim.track "Label" 0)
              (enricher.TrackMetadata.mk "a" "t" "" "Label" "" "" "" 1993 "" "" 0 ∅) false)
    as [Hexact Hmore].
  split; [exact Hexact|]. apply Hmore.
  - intros _. discriminate.
  - intros [H|H]; [by contradiction H | simpl in H; lia].
  - intros H. by contradiction H.
Defined.

End ConfidenceMore.

(** ** More on the adapter *)

Section AdapterMore.
Import enricher musicbrainz spec.
Context {R : Runtime} {J : JSON}.


(** X10. [findBestRelease] returns nil only for the empty list, and what it
    returns is an element of the list, at the index it gives. *)
Theorem findBestRelease_in_list (releases : list Release.t) (preferOriginal : bool) :
  (findBestRelease releases preferOriginal = None <-> releases = []) /\
  (forall i r, findBestRelease releases preferOriginal = Some (i, r) ->
     releases !! i = Some r).
Proof.
  destruct releases as [|r0 rest]; [split; [split; reflexivity | discriminate]|].
  unfold findBestRelease. destruct preferOriginal; cbn [negb].
  - destruct (findBestRelease_loop_undated (r0 :: rest) 0 None)
      as [[_ ->]|(k & r & -> & Hk & _)].
    + split; [split; discriminate|]. intros i r [= <- <-]. reflexivity.
    + split; [split; discriminate|]. intros i r' [= <- <-]. exact Hk.
  - split; [split; discriminate|]. intros i r [= <- <-]. reflexivity.
Qed.

Lemma CalculateConfidence_range (md : TrackMetadata.t) (exactMatch : bool) :
  PrimFloat.leb 0.4 (CalculateConfidence md exactMatch) = true /\
  PrimFloat.leb (CalculateConfidence md exactMatch) 1.0 = true.
Proof.
  rewrite CalculateConfidence_cases.
  destruct exactMatch, (bool_decide (TrackMetadata.Label md <> "")),
    (bool_decide (TrackMetadata.ReleaseDate md <> "") || (0 <? TrackMetadata.Year md)),
    (bool_decide (TrackMetadata.CatalogNumber md <> "")); repeat split.
Qed.

(** X11. [LookupWithHints] returns either metadata with a nil error or no
    metadata with an error.  Returned metadata names the provider
    MusicBrainz, carries the artist and the title of the request, not those
    of the remote match, and has a confidence between 0.4 and 1.0. *)
Theorem LookupWithHints_result (m : MusicBrainzProvider) (ctx : Ctx)
    (req : SearchRequest.t) (w : World) :
  (exists md,
     (LookupWithHints m ctx req w).1.1 = (Some md, None) /\
     TrackMetadata.ProviderName md = "MusicBrainz" /\
     TrackMetadata.Artist md = SearchRequest.Artist req /\
     TrackMetadata.Title md = SearchRequest.Title req /\
     PrimFloat.leb 0.4 (TrackMetadata.Confidence md) = true /\
     PrimFloat.leb (TrackMetadata.Confidence md) 1.0 = true) \/
  (exists err, (LookupWithHints m ctx req w).1.1 = (None, Some err)).
Proof.
  unfold LookupWithHints.
  destruct (waitForRateLimit m ctx w) as [[[e0|] m1] w1]; [right; eauto|].
  destruct (searchRecordings m1 ctx req w1) as [[rs [e1|]] w2]; [right; eauto|].
  destruct (bool_decide (length rs = 0%nat)); [right; eauto|].
  destruct (findBestRecordingMatch rs _ _) as [[i best]|]; [|right; eauto].
  destruct (getRecordingReleases m1 ctx (Recording.ID best) w2) as [[[rels [e2|]] m2] w3];
    [right; eauto|].
  destruct (findBestRelease rels _) as [[k rel]|]; [|right; eauto].
  left. eexists. split; [reflexivity|].
  unfold convertToTrackMetadata.
  destruct (Release.LabelInfo rel) as [|info infos]; simpl;
    repeat split; apply CalculateConfidence_range.
Qed.

(** X12. The lookup ends with [ErrNotFound], right after the search and
    without asking for releases, when the search returns no candidate, and
    also when it returns candidates none of which has a positive adjusted
    score; and it ends with [ErrNotFound] when the selected recording has no
    release. *)
Theorem LookupWithHints_not_found (m m1 : MusicBrainzProvider) (ctx : Ctx)
    (req : SearchRequest.t) (w w1 w2 : World) (rs : list Recording.t) :
  waitForRateLimit m ctx w = (None, m1, w1) ->
  searchRecordings m1 ctx req w1 = ((rs, None), w2) ->
  (Forall (fun r => recordingScore r (SearchRequest.Artist req) (SearchRequest.Title req) <= 0)
     rs ->
   LookupWithHints m ctx req w = ((None, Some ErrNotFound), m1, w2)) /\
  (forall i best m2 w3,
     findBestRecordingMatch rs (SearchRequest.Artist req) (SearchRequest.Title req)
       = Some (i, best) ->
     getRecordingReleases m1 ctx (Recording.ID best) w2 = (([], None), m2, w3) ->
     LookupWithHints m ctx req w = ((None, Some ErrNotFound), m2, w3)).
Proof.
  intros Hwait Hsearch. unfold LookupWithHints. rewrite Hwait, Hsearch. split.
  - intros Hall. apply findBestRecordingMatch_None in Hall. rewrite Hall.
    destruct (bool_decide (length rs = 0%nat)); reflexivity.
  - intros i best m2 w3 Hbest Hrels. rewrite Hbest, Hrels.
    destruct (bool_decide (length rs = 0%nat)) eqn:Hlen; [|reflexivity].
    apply bool_decide_eq_true in Hlen. destruct rs; discriminate.
Qed.

Lemma errors_Is_refl (e : error) : errors_Is e e = true.
Proof.
  destruct e; cbn [errors_Is]; apply orb_true_iff; left; by apply bool_decide_eq_true.
Qed.

(** X13. The errors of the two remote steps come back wrapped once by
    [LookupWithHints], with the cause kept: [errors.Unwrap] gives back the
    error of [searchRecordings] or of [getRecordingReleases], so [errors.Is]
    still finds it, for instance a cancellation met in the second wait. *)
Theorem LookupWithHints_error_cause (m m1 : MusicBrainzProvider) (ctx : Ctx)
    (req : SearchRequest.t) (w w1 : World) :
  waitForRateLimit m ctx w = (None, m1, w1) ->
  (forall rs e w2,
     searchRecordings m1 ctx req w1 = ((rs, Some e), w2) ->
     exists err,
       (LookupWithHints m ctx req w).1.1 = (None, Some err) /\
       errors_Unwrap err = Some e /\ errors_Is err e = true) /\
  (forall rs w2 i best rels e m2 w3,
     searchRecordings m1 ctx req w1 = ((rs, None), w2) ->
     findBestRecordingMatch rs (SearchRequest.Artist req) (SearchRequest.Title req)
       = Some (i, best) ->
     getRecordingReleases m1 ctx (Recording.ID best) w2 = ((rels, Some e), m2, w3) ->
     exists err,
       (LookupWithHints m ctx req w).1.1 = (None, Some err) /\
       errors_Unwrap err = Some e /\ errors_Is err e = true).
Proof.
  intros Hwait. unfold LookupWithHints. rewrite Hwait. split.
  - intros rs e w2 Hsearch. rewrite Hsearch. eexists. split; [reflexivity|].
    split; [reflexivity|]. simpl. rewrite errors_Is_refl. apply orb_true_r.
  - intros rs w2 i best rels e m2 w3 Hsearch Hbest Hrels. rewrite Hsearch, Hbest.
    destruct (bool_decide (length rs = 0%nat)) eqn:Hlen.
    + apply bool_decide_eq_true in Hlen. destruct rs; [discriminate | discriminate].
    + rewrite Hrels. eexists. split; [reflexivity|].
      split; [reflexivity|]. simpl. rewrite errors_Is_refl. apply orb_true_r.
Qed.

(** X14. With [PreferOriginalRelease], when some release of the selected
    recording carries a date, the release date of the returned metadata is
    not empty and no release of the recording carries a smaller date. *)
Theorem LookupWithHints_earliest_date (m m1 m2 : MusicBrainzProvider) (ctx : Ctx)
    (req : SearchRequest.t) (w w1 w2 w3 : World) (rs : list Recording.t) (i : nat)
    (best : Recording.t) (rels : list Release.t) :
  waitForRateLimit m ctx w = (None, m1, w1) ->
  searchRecordings m1 ctx req w1 = ((rs, None), w2) ->
  findBestRecordingMatch rs (SearchRequest.Artist req) (SearchRequest.Title req)
    = Some (i, best) ->
  getRecordingReleases m1 ctx (Recording.ID best) w2 = ((rels, None), m2, w3) ->
  SearchRequest.PreferOriginalRelease req = true ->
  Exists dated rels ->
  exists md,
    LookupWithHints m ctx req w = ((Some md, None), m2, w3) /\
    TrackMetadata.ProviderID md = Recording.ID best /\
    TrackMetadata.ReleaseDate md <> "" /\
    (forall r', r' ∈ rels -> dated r' ->
       String.ltb (Release.Date r') (TrackMetadata.ReleaseDate md) = false).
Proof.
  intros Hwait Hsearch Hbest Hrels Hprefer Hex.
  unfold LookupWithHints. rewrite Hwait, Hsearch, Hbest.
  destruct (bool_decide (length rs = 0%nat)) eqn:Hlen.
  { apply bool_decide_eq_true in Hlen. destruct rs; discriminate. }
  rewrite Hrels, Hprefer. unfold findBestRelease. cbn [negb].
  destruct rels as [|r0 rest]; [by apply Exists_nil in Hex|].
  destruct (findBestRelease_loop_undated (r0 :: rest) 0 None)
    as [[Hall _]|(k & r & -> & Hk & Hd & Hmin & _)].
  - exfalso. apply Exists_exists in Hex as (r & Hin & Hdr).
    rewrite Forall_forall in Hall. apply Hdr, Hall, Hin.
  - eexists. split; [reflexivity|].
    unfold convertToTrackMetadata.
    destruct (Release.LabelInfo r); simpl;
      (split; [reflexivity|]); (split; [exact Hd|]);
      intros r' Hin Hd'; apply list_elem_of_lookup_1 in Hin as [j Hj];
      exact (Hmin j r' Hj Hd').
Qed.

(** X15. The gate compares the true time elapsed: although the difference
    of the two instants is saturated to the range of a [Duration], no wait
    happens exactly when the clock is at least [rateLimit] past
    [lastRequest], however far back [lastRequest] lies (the zero time of a
    new provider included); and when less time has passed, the timer is
    asked for exactly the remainder of the interval. *)
Theorem waitForRateLimit_exact_interval (m : MusicBrainzProvider) (ctx : Ctx) (w w1 : World)
    (now : Time) :
  time_Now w = (now, w1) ->
  (rateLimit <= now - lastRequest m ->
   waitForRateLimit m ctx w = (None, set_lastRequest (time_Now w1).1 m, (time_Now w1).2)) /\
  (0 <= now - lastRequest m < rateLimit ->
   forall w2,
     select_After_Done (rateLimit - (now - lastRequest m)) ctx w1 = (true, w2) ->
     waitForRateLimit m ctx w = (None, set_lastRequest (time_Now w2).1 m, (time_Now w2).2)).
Proof.
  intros Hnow. unfold waitForRateLimit. rewrite Hnow. split.
  - intros Hle.
    assert (rateLimit <= Time_Sub now (lastRequest m)) as Hsub.
    { unfold Time_Sub, rateLimit, Second, minInt64, maxInt64 in *.
      destruct (now - lastRequest m <? - 2 ^ 63) eqn:H1; [apply Z.ltb_lt in H1; lia|].
      destruct (2 ^ 63 - 1 <? now - lastRequest m) eqn:H2; lia. }
    apply Z.ltb_ge in Hsub. rewrite Hsub.
    destruct (time_Now w1) as [now2 w2]. reflexivity.
  - intros Hlt w2 Hsel.
    assert (Time_Sub now (lastRequest m) = now - lastRequest m) as Hsub.
    { unfold Time_Sub, rateLimit, Second, minInt64, maxInt64 in *.
      destruct (now - lastRequest m <? - 2 ^ 63) eqn:H1; [apply Z.ltb_lt in H1; lia|].
      destruct (2 ^ 63 - 1 <? now - lastRequest m) eqn:H2; [apply Z.ltb_lt in H2; lia|].
      reflexivity. }
    rewrite Hsub.
    replace (now - lastRequest m <? rateLimit) with true by (symmetry; apply Z.ltb_lt; lia).
    assert (wrap64 (rateLimit - (now - lastRequest m)) = rateLimit - (now - lastRequest m))
      as Hwrap.
    { unfold wrap64, rateLimit, Second in *.
      rewrite Z.mod_small by lia. lia. }
    rewrite Hwrap, Hsel. destruct (time_Now w2) as [now2 w3]. reflexivity.
Qed.

End AdapterMore.


(** The releases of the test suite: the selected release is in the list. *)
Lemma findBestRelease_in_list_witness :
  [sim.rel_reissue; sim.rel_original; sim.rel_later] !! 1%nat = Some sim.rel_original /\
  musicbrainz.findBestRelease [] true <> Some (0%nat, sim.rel_original).
Proof.
  destruct (findBestRelease_in_list [sim.rel_reissue; sim.rel_original; sim.rel_later] true)
    as [_ Hin].
  destruct (findBestRelease_in_list [] true) as [Hnil _].
  split.
  - apply Hin. reflexivity.
  - rewrite (proj2 Hnil eq_refl). discriminate.
Defined.

(** A search that returns one candidate of score 0, and a recording
    without releases. *)
Lemma LookupWithHints_not_found_witness :
  (musicbrainz.LookupWithHints (J := sim.jsonOf [sim.rec_zero] [])
     musicbrainz.NewMusicBrainzProvider None sim.request sim.world_online).1.1
  = (None, Some ErrNotFound) /\
  (musicbrainz.LookupWithHints (J := sim.jsonOf [sim.rec_exact] [])
     musicbrainz.NewMusicBrainzProvider None sim.request sim.world_online).1.1
  = (None, Some ErrNotFound).
Proof.
  split.
  - edestruct (@LookupWithHints_not_found sim.simRuntime (sim.jsonOf [sim.rec_zero] []))
      with (m := musicbrainz.NewMusicBrainzProvider) (ctx := @None (Time * error))
           (req := sim.request) (w := sim.world_online)
      as [Hzero _]; [reflexivity | reflexivity |].
    rewrite Hzero; [reflexivity|]. repeat constructor. discriminate.
  - edestruct (@LookupWithHints_not_found sim.simRuntime (sim.jsonOf [sim.rec_exact] []))
      with (m := musicbrainz.NewMusicBrainzProvider) (ctx := @None (Time * error))
           (req := sim.request) (w := sim.world_online)
      as [_ Hnone]; [reflexivity | reflexivity |].
    erewrite Hnone; reflexivity.
Defined.

(** A context canceled before the call, and one canceled during the second
    wait. *)
Lemma LookupWithHints_error_cause_witness :
  (exists e err,
     (musicbrainz.LookupWithHints musicbrainz.NewMusicBrainzProvider
        (Some (0, context_Canceled)) sim.request sim.world_online).1.1 = (None, Some err) /\
     errors_Is e context_Canceled = true /\
     errors_Unwrap err = Some e /\ errors_Is err e = true) /\
  (exists err,
     (musicbrainz.LookupWithHints musicbrainz.NewMusicBrainzProvider
        (Some (sim.now sim.world_online + 500000000, context_Canceled)) sim.request
        sim.world_online).1.1 = (None, Some err) /\
     errors_Unwrap err = Some context_Canceled /\ errors_Is err context_Canceled = true).
Proof.
  split.
  - edestruct (@LookupWithHints_error_cause sim.simRuntime sim.simJSON)
      with (m := musicbrainz.NewMusicBrainzProvider) (ctx := Some (0, context_Canceled))
           (req := sim.request) (w := sim.world_online)
      as [Hsearch _]; [reflexivity|].
    edestruct Hsearch as (err & Hres & Hun & His); [reflexivity|].
    eexists _, err. split; [exact Hres|]. split; [|split; eassumption]. reflexivity.
  - edestruct (@LookupWithHints_error_cause sim.simRuntime sim.simJSON)
      with (m := musicbrainz.NewMusicBrainzProvider)
           (ctx := Some (sim.now sim.world_online + 500000000, context_Canceled))
           (req := sim.request) (w := sim.world_online)
      as [_ Hrel]; [reflexivity|].
    edestruct Hrel as (err & Hres & Hun & His); [reflexivity | reflexivity | reflexivity |].
    exists err. split; [exact Hres|]. split; assumption.
Defined.

(** The lookup of the example world: the release dated 1993 is selected. *)
Lemma LookupWithHints_earliest_date_witness :
  Exists spec.dated [sim.rel_reissue; sim.rel_original; sim.rel_later] /\
  exists md,
    (musicbrainz.LookupWithHints musicbrainz.NewMusicBrainzProvider None sim.request
       sim.world_online).1.1 = (Some md, None) /\
    enricher.TrackMetadata.ProviderID md = "exact-match" /\
    enricher.TrackMetadata.ReleaseDate md <> "" /\
    (forall r', r' ∈ [sim.rel_reissue; sim.rel_original; sim.rel_later] -> spec.dated r' ->
       String.ltb (musicbrainz.Release.Date r') (enricher.TrackMetadata.ReleaseDate md) = false).
Proof.
  assert (Exists spec.dated [sim.rel_reissue; sim.rel_original; sim.rel_later]) as Hex
    by (constructor; discriminate).
  split; [exact Hex|].
  edestruct (@LookupWithHints_earliest_date sim.simRuntime sim.simJSON)
    with (m := musicbrainz.NewMusicBrainzProvider) (ctx := @None (Time * error))
         (req := sim.request) (w := sim.world_online)
    as (md & Hres & Hid & Hd & Hmin);
    [reflexivity | reflexivity | reflexivity | reflexivity | reflexivity | exact Hex |].
  exists md. rewrite Hres. auto.
Defined.

(** A new provider, whose last request lies in year 1, and a provider that
    has just made a request. *)
Lemma waitForRateLimit_exact_interval_witness :
  let busy :=
    musicbrainz.set_lastRequest (sim.now sim.world0) musicbrainz.NewMusicBrainzProvider in
  maxInt64 < sim.now sim.world0 - musicbrainz.zeroTime /\
  musicbrainz.waitForRateLimit musicbrainz.NewMusicBrainzProvider
    (Some (0, context_Canceled)) sim.world0 = (None, busy, sim.world0) /\
  musicbrainz.waitForRateLimit busy None sim.world0
  = (None, musicbrainz.set_lastRequest (sim.now sim.world0 + Second) busy,
     sim.at_time (sim.now sim.world0 + Second) sim.world0).
Proof.
  cbv zeta. split; [reflexivity|].
  destruct (waitForRateLimit_exact_interval (R := sim.simRuntime)
              musicbrainz.NewMusicBrainzProvider (Some (0, context_Canceled))
              sim.world0 sim.world0 (sim.now sim.world0) eq_refl) as [Hfar _].
  destruct (waitForRateLimit_exact_interval (R := sim.simRuntime)
              (musicbrainz.set_lastRequest (sim.now sim.world0)
                 musicbrainz.NewMusicBrainzProvider)
              None sim.world0 sim.world0 (sim.now sim.world0) eq_refl) as [_ Hnear].
  split.
  - refine (Hfar _). vm_compute. intros H. discriminate H.
  - refine (Hnear _ (sim.at_time (sim.now sim.world0 + Second) sim.world0) _).
    + vm_compute. split; [intros H; discriminate H | reflexivity].
    + reflexivity.
Defined.

(** ** More on the decomposer *)

Section DecomposerMore.
Import cmd spec.

Lemma dropWhile_head {A : Type} (p : A -> bool) (l : list A) (x : A) :
  head (dropWhile p l) = Some x -> p x = false.
Proof.
  induction l as [|y l IH]; simpl; [discriminate|].
  destruct (p y) eqn:Hp; [exact IH|]. simpl. intros [= <-]. exact Hp.
Qed.

Lemma dropWhile_last {A : Type} (p : A -> bool) (l : list A) (x : A) :
  last (dropWhile p l) = Some x -> last l = Some x.
Proof.
  induction l as [|y l IH]; simpl; [discriminate|].
  destruct (p y); [|auto]. intros H. specialize (IH H).
  rewrite last_cons, IH. reflexivity.
Qed.

Lemma head_rev {A : Type} (l : list A) : head (rev l) = last l.
Proof.
  induction l as [|y l IH] using rev_ind; [reflexivity|].
  rewrite rev_app_distr, last_snoc. reflexivity.
Qed.

Lemma last_rev {A : Type} (l : list A) : last (rev l) = head l.
Proof. rewrite <- (rev_involutive l) at 2. symmetry. apply head_rev. Qed.

(** [strings.TrimSpace] leaves no white space at either end. *)
Lemma strings_TrimSpace_trimmed (s : list rune) : trimmed (strings_TrimSpace s).
Proof.
  unfold strings_TrimSpace, trimmed. split; intros x.
  - rewrite head_rev. intros H. apply dropWhile_last in H.
    rewrite last_rev in H. by apply dropWhile_head in H.
  - rewrite last_rev. apply dropWhile_head.
Qed.

Lemma trimmed_no_space (s : list rune) :
  Forall (fun x => unicode_IsSpace x = false) s -> trimmed s.
Proof.
  intros Hall. rewrite Forall_forall in Hall. split; intros x Hx; apply Hall.
  - by apply head_Some_elem_of.
  - by apply last_Some_elem_of.
Qed.

(** The fields of [strings.Fields] are not empty and hold no white space. *)
Lemma Fields_from_spec (s : list rune) :
  forall cur,
  Forall (fun x => unicode_IsSpace x = false) cur ->
  Forall (fun f => f <> [] /\ Forall (fun x => unicode_IsSpace x = false) f)
    (Fields_from s cur).
Proof.
  induction s as [|x s IH]; intros cur Hcur; simpl.
  - destruct cur as [|c cur]; [constructor|]. constructor; [|constructor]. split.
    + intros H. apply (f_equal (@length rune)) in H. rewrite length_rev in H. discriminate.
    + apply Forall_rev. exact Hcur.
  - destruct (unicode_IsSpace x) eqn:Hx.
    + destruct cur as [|c cur]; [apply IH; constructor|].
      constructor; [|apply IH; constructor]. split.
      * intros H. apply (f_equal (@length rune)) in H. rewrite length_rev in H. discriminate.
      * apply Forall_rev. exact Hcur.
    + apply IH. constructor; assumption.
Qed.

Lemma trimmed_join (s t : list rune) :
  trimmed s -> trimmed t -> trimmed (s ++ [slash] ++ t).
Proof.
  intros [Hs1 Hs2] [Ht1 Ht2]. split; intros x.
  - destruct s as [|y s]; simpl; [intros [= <-]; reflexivity | intros [= <-]; by apply Hs1].
  - rewrite app_assoc. destruct t as [|y t] using rev_ind.
    + rewrite app_nil_r, last_snoc. intros [= <-]. reflexivity.
    + rewrite app_assoc, last_snoc. intros [= <-]. apply Ht2. by rewrite last_snoc.
Qed.

Lemma trimmed_nil : trimmed [].
Proof. split; intros x; discriminate. Qed.

(** X16. Whatever the path, the artist and the title that
    [parseFilenameWithEdgeCase] returns carry no white space at either
    end. *)
Theorem parseFilenameWithEdgeCase_trimmed (filePath : list rune) :
  trimmed (parseFilenameWithEdgeCase filePath).1.1 /\
  trimmed (parseFilenameWithEdgeCase filePath).1.2.
Proof.
  destruct (parseFilenameWithEdgeCase_cases filePath)
    as [[_ ->]|[[_ ->]|[[_ ->]|[[_ ->]|[[_ ->]|[_ ->]]]]]]; cbn [fst snd].
  - unfold trySpaceSeparated, strings_Fields.
    pose proof (Fields_from_spec (cleanedName filePath) [] ltac:(constructor)) as Hf.
    destruct (Fields_from (cleanedName filePath) []) as [|w0 [|w1 [|w2 ws]]];
      cbn [fst snd]; auto using trimmed_nil.
    inversion Hf as [|? ? [_ H0] Hf']; subst. inversion Hf' as [|? ? [_ H1] _]; subst.
    split; by apply trimmed_no_space.
  - unfold parseOneHyphen.
    destruct (strings_SplitN (cleanedName filePath) hyphen 2) as [|p0 [|p1 [|p2 ps]]];
      cbn [fst snd]; auto using trimmed_nil, strings_TrimSpace_trimmed.
  - unfold parseTwoHyphens.
    destruct (strings_SplitN (cleanedName filePath) hyphen 3) as [|p0 [|p1 [|p2 [|p3 ps]]]];
      cbn [fst snd]; auto using trimmed_nil, strings_TrimSpace_trimmed.
  - unfold tryThreeHyphenFallback.
    destruct (strings_SplitN (cleanedName filePath) hyphen 4)
      as [|p0 [|p1 [|p2 [|p3 [|p4 ps]]]]];
      cbn [fst snd]; auto using trimmed_nil, strings_TrimSpace_trimmed.
  - unfold parseFourHyphens.
    destruct (strings_SplitN (cleanedName filePath) hyphen 5)
      as [|p0 [|p1 [|p2 [|p3 [|p4 [|p5 ps]]]]]];
      cbn [fst snd]; auto using trimmed_nil, strings_TrimSpace_trimmed.
    split; [|apply strings_TrimSpace_trimmed].
    apply trimmed_join; apply strings_TrimSpace_trimmed.
  - unfold tryManyHyphenFallback.
    destruct (3 <=? length (strings_Split (cleanedName filePath) hyphen))%nat;
      cbn [fst snd]; auto using trimmed_nil, strings_TrimSpace_trimmed.
Qed.

End DecomposerMore.

(** ** Hyphens, pieces and prefixes *)

Section DecomposerPieces.
Import cmd spec.

Lemma strings_Count_app (s t : list rune) (sep : rune) :
  strings_Count (s ++ t) sep = strings_Count s sep + strings_Count t sep.
Proof. induction s as [|x s IH]; simpl; [reflexivity|]. rewrite IH. lia. Qed.

Lemma strings_Count_rev (s : list rune) (sep : rune) :
  strings_Count (rev s) sep = strings_Count s sep.
Proof.
  induction s as [|x s IH]; [reflexivity|]. simpl.
  rewrite strings_Count_app, IH. simpl. lia.
Qed.

Lemma strings_Count_dropWhile (p : rune -> bool) (s : list rune) (sep : rune) :
  strings_Count s sep = 0 -> strings_Count (dropWhile p s) sep = 0.
Proof.
  induction s as [|x s IH]; [reflexivity|]. intros H. simpl.
  destruct (p x); [|exact H]. apply IH. simpl in H.
  pose proof (strings_Count_nonneg s sep). destruct (x =? sep); lia.
Qed.

Lemma strings_Count_TrimSpace (s : list rune) (sep : rune) :
  strings_Count s sep = 0 -> strings_Count (strings_TrimSpace s) sep = 0.
Proof.
  intros H. unfold strings_TrimSpace.
  rewrite strings_Count_rev. apply strings_Count_dropWhile.
  rewrite strings_Count_rev. by apply strings_Count_dropWhile.
Qed.

Lemma strings_Index_take (s : list rune) (sep : rune) (m : nat) :
  strings_Index s sep = Some m -> strings_Count (take m s) sep = 0.
Proof.
  revert m. induction s as [|x s IH]; simpl; [discriminate|]. intros m.
  destruct (x =? sep) eqn:Hx.
  - intros [= <-]. reflexivity.
  - destruct (strings_Index s sep) as [m'|]; [|discriminate].
    intros [= <-]. simpl. rewrite Hx, (IH m' eq_refl). reflexivity.
Qed.

(** No piece of a full split holds the separator. *)
Lemma SplitN_pieces_no_sep (sep : rune) (n : nat) :
  forall s, strings_Count s sep = Z.of_nat n ->
  Forall (fun p => strings_Count p sep = 0) (SplitN_pieces (S n) s sep).
Proof.
  induction n as [|n IH]; intros s Hc; [by repeat constructor|].
  change (SplitN_pieces (S (S n)) s sep) with
    (match strings_Index s sep with
     | None => [s]
     | Some m => take m s :: SplitN_pieces (S n) (drop (S m) s) sep
     end).
  destruct (strings_Index s sep) as [m|] eqn:Hi.
  - constructor; [by eapply strings_Index_take|].
    apply IH. apply strings_Index_Some in Hi. lia.
  - apply strings_Index_None in Hi. lia.
Qed.

Lemma strings_Split_no_sep (s : list rune) (sep : rune) :
  Forall (fun p => strings_Count p sep = 0) (strings_Split s sep).
Proof.
  pose proof (strings_Count_nonneg s sep) as Hn.
  rewrite <- (strings_SplitN_all s sep (Z.to_nat (strings_Count s sep))) by lia.
  unfold strings_SplitN.
  replace (Z.of_nat (S (Z.to_nat (strings_Count s sep))) =? 0) with false
    by (symmetry; apply Z.eqb_neq; lia).
  replace (Z.of_nat (S (Z.to_nat (strings_Count s sep))) <? 0) with false
    by (symmetry; apply Z.ltb_ge; lia).
  rewrite Nat2Z.id. apply SplitN_pieces_no_sep. lia.
Qed.

Lemma Fields_from_no_sep (sep : rune) (s : list rune) :
  forall cur,
  strings_Count s sep = 0 -> strings_Count cur sep = 0 ->
  Forall (fun f => strings_Count f sep = 0) (Fields_from s cur).
Proof.
  induction s as [|x s IH]; intros cur Hs Hcur; simpl.
  - destruct cur; [constructor|]. repeat constructor. by rewrite strings_Count_rev.
  - simpl in Hs. pose proof (strings_Count_nonneg s sep).
    assert ((if x =? sep then 1 else 0) = 0 /\ strings_Count s sep = 0) as [Hx Hs']
      by (destruct (x =? sep); lia).
    destruct (unicode_IsSpace x).
    + destruct cur as [|c cur]; [by apply IH|].
      constructor; [by rewrite strings_Count_rev | by apply IH].
    + apply IH; [exact Hs'|]. simpl. lia.
Qed.

(** The pieces the decomposer works from: the full split of the cleaned
    name has one piece more than the name has hyphens, the title is the
    last piece and the artist the first piece, or the first two joined by a
    slash when there are four hyphens, all trimmed. *)
Lemma parseFilenameWithEdgeCase_pieces (filePath : list rune) :
  let name := cleanedName filePath in
  let n := strings_Count name hyphen in
  1 <= n ->
  exists p0 mid pl,
    strings_Split name hyphen = (p0 :: mid ++ [pl])%list /\
    Z.of_nat (length mid) = n - 1 /\
    (parseFilenameWithEdgeCase filePath).1.2 = strings_TrimSpace pl /\
    (n <> 4 -> (parseFilenameWithEdgeCase filePath).1.1 = strings_TrimSpace p0) /\
    (n = 4 ->
     exists p1 rest,
       mid = p1 :: rest /\
       (parseFilenameWithEdgeCase filePath).1.1
       = (strings_TrimSpace p0 ++ [slash] ++ strings_TrimSpace p1)%list).
Proof.
  intros name n Hn.
  destruct (parse_segments name) as (H1 & H2 & H3 & H4 & H5).
  destruct (parseFilenameWithEdgeCase_cases filePath)
    as [[Hc _]|[[Hc ->]|[[Hc ->]|[[Hc ->]|[[Hc ->]|[Hc ->]]]]]];
    fold name in Hc |- *; fold n in Hc; cbn [fst snd].
  - lia.
  - destruct (H1 Hc) as (p0 & p1 & -> & ->).
    exists p0, [], p1. repeat split; intros; first [reflexivity | simpl; lia].
  - destruct (H2 Hc) as (p0 & p1 & p2 & -> & ->).
    exists p0, [p1], p2. repeat split; intros; first [reflexivity | simpl; lia].
  - destruct (H3 Hc) as (p0 & p1 & p2 & p3 & -> & ->).
    exists p0, [p1; p2], p3. repeat split; intros; first [reflexivity | simpl; lia].
  - destruct (H4 Hc) as (p0 & p1 & p2 & p3 & p4 & -> & ->).
    exists p0, [p1; p2; p3], p4.
    repeat split; intros; first [reflexivity | simpl; lia | eauto].
  - destruct (H5 Hc) as (p0 & mid & pl & -> & Hlen & ->).
    exists p0, mid, pl. repeat split; intros; first [reflexivity | lia].
Qed.

(** X17. With at least one hyphen in the cleaned name, the title is the
    trimmed last piece of the name split at every hyphen, and the artist the
    trimmed first piece, or for exactly four hyphens the first two trimmed
    pieces joined by a slash; the split has as many pieces as the parser
    expects, so its fallback to an empty artist and title is never taken. *)
Theorem parseFilenameWithEdgeCase_segments (filePath : list rune) :
  let name := cleanedName filePath in
  let n := strings_Count name hyphen in
  1 <= n ->
  exists p0 mid pl,
    strings_Split name hyphen = (p0 :: mid ++ [pl])%list /\
    Z.of_nat (length mid) = n - 1 /\
    (parseFilenameWithEdgeCase filePath).1.2 = strings_TrimSpace pl /\
    (n <> 4 -> (parseFilenameWithEdgeCase filePath).1.1 = strings_TrimSpace p0) /\
    (n = 4 ->
     exists p1 rest,
       mid = p1 :: rest /\
       (parseFilenameWithEdgeCase filePath).1.1
       = (strings_TrimSpace p0 ++ [slash] ++ strings_TrimSpace p1)%list).
Proof. apply parseFilenameWithEdgeCase_pieces. Qed.

(** X18. Whatever the path, neither the artist nor the title that
    [parseFilenameWithEdgeCase] returns holds a hyphen. *)
Theorem parseFilenameWithEdgeCase_no_hyphen (filePath : list rune) :
  strings_Count (parseFilenameWithEdgeCase filePath).1.1 hyphen = 0 /\
  strings_Count (parseFilenameWithEdgeCase filePath).1.2 hyphen = 0.
Proof.
  set (name := cleanedName filePath).
  destruct (Z_le_gt_dec 1 (strings_Count name hyphen)) as [Hn|Hn].
  - destruct (parseFilenameWithEdgeCase_pieces filePath Hn)
      as (p0 & mid & pl & Hsplit & _ & -> & Hartist & Hfour).
    pose proof (strings_Split_no_sep name hyphen) as Hall. fold name in Hsplit.
    rewrite Hsplit in Hall.
    apply Forall_cons in Hall as [H0 Hall]. apply Forall_app in Hall as [Hmid Hl].
    apply Forall_cons in Hl as [Hl _].
    split; [|by apply strings_Count_TrimSpace].
    destruct (decide (strings_Count (cleanedName filePath) hyphen = 4)) as [H4|H4].
    + destruct (Hfour H4) as (p1 & rest & -> & ->).
      apply Forall_cons in Hmid as [H1 _].
      rewrite !strings_Count_app, !strings_Count_TrimSpace by assumption. reflexivity.
    + rewrite (Hartist H4). by apply strings_Count_TrimSpace.
  - destruct (parseFilenameWithEdgeCase_cases filePath)
      as [[Hc ->]|[[Hc _]|[[Hc _]|[[Hc _]|[[Hc _]|[Hc _]]]]]]; fold name in Hc; try lia.
    cbn [fst snd]. unfold trySpaceSeparated, strings_Fields. fold name.
    pose proof (Fields_from_no_sep hyphen name [] Hc eq_refl) as Hf.
    destruct (Fields_from name []) as [|w0 [|w1 [|w2 ws]]]; cbn [fst snd]; auto.
    apply Forall_cons in Hf as [H0 Hf]. apply Forall_cons in Hf as [H1 _]. auto.
Qed.

(** X19. A name without hyphens yields an artist and a title exactly when
    it consists of two words, which are then the artist and the title;
    any other number of words yields neither. *)
Theorem parseFilenameWithEdgeCase_two_words (filePath : list rune) :
  let name := cleanedName filePath in
  strings_Count name hyphen = 0 ->
  (forall w0 w1, strings_Fields name = [w0; w1] ->
     parseFilenameWithEdgeCase filePath = (w0, w1, "no_hyphens") /\ w0 <> [] /\ w1 <> []) /\
  (length (strings_Fields name) <> 2%nat ->
   parseFilenameWithEdgeCase filePath = ([], [], "no_hyphens")).
Proof.
  intros name Hc.
  destruct (parseFilenameWithEdgeCase_cases filePath)
    as [[_ ->]|[[Hn _]|[[Hn _]|[[Hn _]|[[Hn _]|[Hn _]]]]]];
    fold name; try (fold name in Hn; lia).
  unfold trySpaceSeparated. split.
  - intros w0 w1 Hf. rewrite Hf. split; [reflexivity|].
    pose proof (Fields_from_spec name [] ltac:(constructor)) as Hall.
    unfold strings_Fields in Hf. rewrite Hf in Hall.
    apply Forall_cons in Hall as [[H0 _] Hall]. apply Forall_cons in Hall as [[H1 _] _].
    auto.
  - intros Hlen. destruct (strings_Fields name) as [|w0 [|w1 [|w2 ws]]];
      try reflexivity. simpl in Hlen. lia.
Qed.

Lemma ReplaceAllString_empty_skip (re : regex) (c : rune -> bool) (q : quant)
    (name : list rune) :
  (q = One \/ q = Plus) ->
  match name with [] => True | x :: _ => c x = false end ->
  ReplaceAllString_empty ((c, q) :: re) name = name.
Proof.
  intros Hq Hx. unfold ReplaceAllString_empty.
  destruct name as [|x rest]; destruct Hq as [-> | ->]; simpl; try reflexivity;
    rewrite Hx; reflexivity.
Qed.

(** X20. [cleanTrackPrefix] only trims a name that does not start like a
    track prefix, that is neither with a digit nor with an upper-case
    letter followed by a digit: no pattern matches it. *)
Theorem cleanTrackPrefix_no_prefix (name : list rune) :
  no_track_prefix name -> cleanTrackPrefix name = strings_TrimSpace name.
Proof.
  intros Hname. unfold cleanTrackPrefix, patterns. cbn [fold_left].
  assert (ReplaceAllString_empty pattern1 name = name) as ->.
  { apply ReplaceAllString_empty_skip; [auto|]. destruct name; [exact I | apply Hname]. }
  assert (ReplaceAllString_empty pattern2 name = name) as ->.
  { apply ReplaceAllString_empty_skip; [auto|]. destruct name; [exact I | apply Hname]. }
  assert (forall re, ReplaceAllString_empty ((re_upper, One) :: (re_digit, Plus) :: re) name
                     = name) as Hupper.
  { intros re. unfold ReplaceAllString_empty. destruct name as [|x rest]; [reflexivity|].
    destruct Hname as [_ Hup]. cbn [match_here]. destruct (re_upper x); [|reflexivity].
    destruct rest as [|y rest]; [reflexivity|]. rewrite (Hup eq_refl). reflexivity. }
  unfold pattern3, pattern4. rewrite !Hupper. reflexivity.
Qed.

End DecomposerPieces.

(** A name with one hyphen and a name with four. *)
Lemma parseFilenameWithEdgeCase_segments_witness :
  (exists p0 mid pl,
     cmd.strings_Split (cmd.cleanedName (cmd.runes "a-b-c-d-e.mp3")) cmd.hyphen
       = (p0 :: mid ++ [pl])%list /\
     (cmd.parseFilenameWithEdgeCase (cmd.runes "a-b-c-d-e.mp3")).1.2 = cmd.strings_TrimSpace pl /\
     exists p1 rest,
       mid = p1 :: rest /\
       (cmd.parseFilenameWithEdgeCase (cmd.runes "a-b-c-d-e.mp3")).1.1
       = (cmd.strings_TrimSpace p0 ++ [cmd.slash] ++ cmd.strings_TrimSpace p1)%list) /\
  (exists p0 mid pl,
     cmd.strings_Split (cmd.cleanedName (cmd.runes "Artist - Title")) cmd.hyphen
       = (p0 :: mid ++ [pl])%list /\
     (cmd.parseFilenameWithEdgeCase (cmd.runes "Artist - Title")).1.2 = cmd.strings_TrimSpace pl /\
     (cmd.parseFilenameWithEdgeCase (cmd.runes "Artist - Title")).1.1 = cmd.strings_TrimSpace p0).
Proof.
  split.
  - destruct (parseFilenameWithEdgeCase_segments (cmd.runes "a-b-c-d-e.mp3"))
      as (p0 & mid & pl & Hsplit & _ & Htitle & _ & Hfour); [vm_compute; discriminate|].
    exists p0, mid, pl. split; [exact Hsplit|]. split; [exact Htitle|].
    apply Hfour. reflexivity.
  - destruct (parseFilenameWithEdgeCase_segments (cmd.runes "Artist - Title"))
      as (p0 & mid & pl & Hsplit & _ & Htitle & Hartist & _); [vm_compute; discriminate|].
    exists p0, mid, pl. split; [exact Hsplit|]. split; [exact Htitle|].
    apply Hartist. vm_compute. discriminate.
Defined.

(** Two words, and three. *)
Lemma parseFilenameWithEdgeCase_two_words_witness :
  cmd.parseFilenameWithEdgeCase (cmd.runes "Artist Title.aiff")
    = (cmd.runes "Artist", cmd.runes "Title", "no_hyphens") /\
  cmd.parseFilenameWithEdgeCase (cmd.runes "One Two Three.aiff") = ([], [], "no_hyphens").
Proof.
  split.
  - destruct (parseFilenameWithEdgeCase_two_words (cmd.runes "Artist Title.aiff") eq_refl)
      as [Htwo _].
    apply (Htwo (cmd.runes "Artist") (cmd.runes "Title")). reflexivity.
  - destruct (parseFilenameWithEdgeCase_two_words (cmd.runes "One Two Three.aiff") eq_refl)
      as [_ Hother].
    apply Hother. vm_compute. discriminate.
Defined.

(** A name that starts with an upper-case letter and no digit. *)
Lemma cleanTrackPrefix_no_prefix_witness :
  spec.no_track_prefix (cmd.runes " Artist - Title ") /\
  spec.no_track_prefix (cmd.runes "LTJ Bukem - Music") /\
  cmd.cleanTrackPrefix (cmd.runes "LTJ Bukem - Music")
    = cmd.strings_TrimSpace (cmd.runes "LTJ Bukem - Music").
Proof.
  assert (spec.no_track_prefix (cmd.runes "LTJ Bukem - Music")) as Hname
    by (split; [reflexivity | intros _; reflexivity]).
  split; [split; [reflexivity | intros H; discriminate H]|]. split; [exact Hname|].
  exact (cleanTrackPrefix_no_prefix (cmd.runes "LTJ Bukem - Music") Hname).
Defined.

(** ** Processing a batch *)

Section BatchProperties.
Import cmd spec.
Context {R : Runtime}.
Variable File : Type.
Variable os_Open : list rune -> World -> (File + error) * World.
Variable tag_ReadFrom : File -> World -> (Metadata + error) * World.
Variable bytes : list rune -> string.

Lemma enricher_Lookup_well_formed (e : enricher.Enricher) (ctx : Ctx)
    (artist title : string) (w : World) :
  well_formed (enricher.config e) (enricher.Lookup e ctx artist title w).
Proof.
  unfold enricher.Lookup.
  destruct (bool_decide (length (enricher.providers e) = 0%nat)); [right; eauto|].
  unfold enricher.LookupWithRequest.
  destruct (context_WithTimeout ctx _ w) as [ctx' w'].
  destruct (enricher.Strategy (enricher.config e));
    auto using lookupFirst_well_formed, lookupBest_well_formed, lookupFallback_well_formed.
Qed.

Lemma parseFilenameWithEdgeCase_tag (filePath : list rune) :
  (parseFilenameWithEdgeCase filePath).2 = "" \/
  (parseFilenameWithEdgeCase filePath).2 = "no_hyphens" \/
  (parseFilenameWithEdgeCase filePath).2 = "three_hyphens" \/
  (parseFilenameWithEdgeCase filePath).2 = "many_hyphens".
Proof.
  destruct (parseFilenameWithEdgeCase_cases filePath)
    as [[_ ->]|[[_ ->]|[[_ ->]|[[_ ->]|[[_ ->]|[_ ->]]]]]]; simpl; auto.
Qed.

(** The statuses and tags [processFileWithEdgeCase] can return; [enriched]
    and [enrichment_failed] need an enricher. *)
Lemma process_outcome (filePath : list rune) (metadataEnricher : option enricher.Enricher)
    (ctx : Ctx) (w : World) :
  let out := (processFileWithEdgeCase File os_Open tag_ReadFrom bytes filePath
                metadataEnricher ctx w).1 in
  (out.1 = "error" \/ out.1 = "needs_enrichment" \/ out.1 = "has_label" \/
   (metadataEnricher <> None /\ (out.1 = "enriched" \/ out.1 = "enrichment_failed"))) /\
  (out.2 = "" \/ out.2 = "no_hyphens" \/ out.2 = "three_hyphens" \/ out.2 = "many_hyphens") /\
  (out.1 = "error" -> out.2 = "").
Proof.
  unfold processFileWithEdgeCase.
  destruct (os_Open filePath w) as [[file|err] w1]; [|simpl; auto].
  destruct (tag_ReadFrom file w1) as [[md|err] w2].
  - destruct (negb _); [simpl; intuition discriminate|].
    destruct ((rawLabel (md_Raw md)).2); [simpl; intuition discriminate|].
    destruct metadataEnricher as [e|]; [|simpl; intuition discriminate].
    destruct (_ && _); [|simpl; intuition discriminate].
    destruct (enricher.Lookup e ctx _ _ w2) as [[[d|] [err2|]] w3];
      simpl; intuition discriminate.
  - pose proof (parseFilenameWithEdgeCase_tag filePath) as Htag.
    destruct (parseFilenameWithEdgeCase filePath) as [[artist title] tag]. simpl in Htag.
    destruct (negb _); [simpl; intuition discriminate|].
    destruct metadataEnricher as [e|]; [|simpl; intuition discriminate].
    destruct (_ && _); [|simpl; intuition discriminate].
    destruct (enricher.Lookup e ctx _ _ w2) as [[[d|] [err2|]] w3];
      simpl; intuition discriminate.
Qed.

(** X21. [processFileWithEdgeCase] returns one of the five statuses the
    batch loop counts and one of the four edge-case tags.  A file that
    cannot be opened is an [error] without a tag; a file whose embedded tags
    can be read never carries an edge-case tag, since its name is not
    parsed; and without an enricher no file is [enriched] or
    [enrichment_failed]. *)
Theorem processFileWithEdgeCase_outcome (filePath : list rune)
    (metadataEnricher : option enricher.Enricher) (ctx : Ctx) (w : World) :
  let out := (processFileWithEdgeCase File os_Open tag_ReadFrom bytes filePath
                metadataEnricher ctx w).1 in
  (out.1 = "error" \/ out.1 = "needs_enrichment" \/ out.1 = "has_label" \/
   (metadataEnricher <> None /\ (out.1 = "enriched" \/ out.1 = "enrichment_failed"))) /\
  (out.2 = "" \/ out.2 = "no_hyphens" \/ out.2 = "three_hyphens" \/ out.2 = "many_hyphens") /\
  (forall err w1, os_Open filePath w = (inr err, w1) ->
     processFileWithEdgeCase File os_Open tag_ReadFrom bytes filePath metadataEnricher ctx w
     = (("error", ""), w1)) /\
  (forall file w1 md w2,
     os_Open filePath w = (inl file, w1) -> tag_ReadFrom file w1 = (inl md, w2) ->
     out.2 = "").
Proof.
  intros out. destruct (process_outcome filePath metadataEnricher ctx w) as (Hs & Ht & _).
  split; [exact Hs|]. split; [exact Ht|]. split.
  - intros err w1 Hopen. unfold processFileWithEdgeCase. rewrite Hopen. reflexivity.
  - intros file w1 md w2 Hopen Hread. subst out.
    unfold processFileWithEdgeCase. rewrite Hopen, Hread.
    destruct (negb _); [reflexivity|].
    destruct ((rawLabel (md_Raw md)).2); [reflexivity|].
    destruct metadataEnricher as [e|]; [|reflexivity].
    destruct (_ && _); [|reflexivity].
    destruct (enricher.Lookup e ctx _ _ w2) as [[[d|] [err2|]] w3]; reflexivity.
Qed.

(** X22. A file without readable tags is judged by its name.  If the name
    gives no artist or no title the file is [needs_enrichment] and the
    enricher is not called.  Otherwise, with an enricher, [Lookup] is called
    once with the parsed artist and title, and the file is [enriched] when
    it returns a result and [enrichment_failed] when it returns an error:
    it is never left [needs_enrichment].  The tag of the parser is returned
    in every case. *)
Theorem processFileWithEdgeCase_untagged (filePath : list rune)
    (metadataEnricher : option enricher.Enricher) (ctx : Ctx) (w w1 w2 : World)
    (file : File) (err : error) (artist title : list rune) (tag : string) :
  os_Open filePath w = (inl file, w1) ->
  tag_ReadFrom file w1 = (inr err, w2) ->
  parseFilenameWithEdgeCase filePath = (artist, title, tag) ->
  (artist = [] \/ title = [] \/ metadataEnricher = None ->
   processFileWithEdgeCase File os_Open tag_ReadFrom bytes filePath metadataEnricher ctx w
   = (("needs_enrichment", tag), w2)) /\
  (forall e, artist <> [] -> title <> [] -> metadataEnricher = Some e ->
   exists res w3,
     enricher.Lookup e ctx (bytes artist) (bytes title) w2 = (res, w3) /\
     ((exists md, res = (Some md, None) /\
         processFileWithEdgeCase File os_Open tag_ReadFrom bytes filePath metadataEnricher
           ctx w = (("enriched", tag), w3)) \/
      (exists err', res = (None, Some err') /\
         processFileWithEdgeCase File os_Open tag_ReadFrom bytes filePath metadataEnricher
           ctx w = (("enrichment_failed", tag), w3)))).
Proof.
  intros Hopen Hread Hparse. unfold processFileWithEdgeCase.
  rewrite Hopen, Hread, Hparse. split.
  - intros [-> | [-> | ->]].
    + rewrite (bool_decide_eq_false_2 ([] <> [])) by (intros H; by apply H).
      rewrite andb_false_r. reflexivity.
    + rewrite (bool_decide_eq_false_2 ([] <> [])) by (intros H; by apply H).
      reflexivity.
    + destruct (negb _); reflexivity.
  - intros e Ha Ht ->.
    rewrite (bool_decide_eq_true_2 _ Ha), (bool_decide_eq_true_2 _ Ht). cbn [andb negb].
    destruct (enricher_Lookup_well_formed e ctx (bytes artist) (bytes title) w2)
      as [(md & w3 & Hres & _)|(err' & w3 & Hres)]; rewrite Hres; eauto 10.
Qed.


End BatchProperties.

(** A file without tags whose name gives artist and title, with one
    provider that answers with confidence 0.9. *)
Lemma processFileWithEdgeCase_untagged_witness :
  let filePath := cmd.runes "LTJ Bukem - Music.aiff" in
  let e := enricher.NewEnricher [sim.strong] None in
  cmd.parseFilenameWithEdgeCase filePath = (cmd.runes "LTJ Bukem", cmd.runes "Music", "") /\
  exists res w3,
    enricher.Lookup e None "LTJ Bukem" "Music" sim.world0 = (res, w3) /\
    ((exists md, res = (Some md, None) /\
        cmd.processFileWithEdgeCase sim.SimFile sim.sim_Open sim.sim_ReadFrom sim.sim_bytes
          filePath (Some e) None sim.world0 = (("enriched", ""), w3)) \/
     (exists err', res = (None, Some err') /\
        cmd.processFileWithEdgeCase sim.SimFile sim.sim_Open sim.sim_ReadFrom sim.sim_bytes
          filePath (Some e) None sim.world0 = (("enrichment_failed", ""), w3))).
Proof.
  intros filePath e. split; [vm_compute; reflexivity|].
  destruct (@processFileWithEdgeCase_untagged sim.simRuntime sim.SimFile sim.sim_Open
              sim.sim_ReadFrom sim.sim_bytes filePath (Some e) None sim.world0 sim.world0
              sim.world0 filePath (errorString "no tags found")
              (cmd.runes "LTJ Bukem") (cmd.runes "Music") "") as [_ H];
    [vm_compute; reflexivity .. |].
  apply (H e); [discriminate | discriminate | reflexivity].
Defined.


(** ** The tally of a batch *)

Section BatchTally.
Import cmd spec.
Context {R : Runtime}.
Variable File : Type.
Variable os_Open : list rune -> World -> (File + error) * World.
Variable tag_ReadFrom : File -> World -> (Metadata + error) * World.
Variable bytes : list rune -> string.

Lemma wrap64_small (z : Z) : minInt64 <= z <= maxInt64 -> wrap64 z = z.
Proof.
  unfold wrap64, minInt64, maxInt64. intros H. rewrite Z.mod_small by lia. lia.
Qed.

Lemma edgeCases_countStatus (status : string) (t : Tally) :
  edgeCases (countStatus status t) = edgeCases t.
Proof. unfold countStatus. repeat (destruct (bool_decide _); [reflexivity|]). reflexivity. Qed.

(** One step of the loop adds one to exactly one counter. *)
Lemma countStatus_step (status edgeCase : string) (file : list rune) (t : Tally) :
  status = "error" \/ status = "needs_enrichment" \/ status = "has_label" \/
  status = "enriched" \/ status = "enrichment_failed" ->
  0 <= needsEnrichment t -> 0 <= hasLabel t -> 0 <= errorCount t ->
  0 <= enrichmentSuccess t -> 0 <= enrichmentFailed t ->
  needsEnrichment t + hasLabel t + errorCount t + enrichmentSuccess t + enrichmentFailed t
    < maxInt64 ->
  let t' := collectEdgeCase edgeCase file (countStatus status t) in
  0 <= needsEnrichment t' /\ 0 <= hasLabel t' /\ 0 <= errorCount t' /\
  0 <= enrichmentSuccess t' /\ 0 <= enrichmentFailed t' /\
  needsEnrichment t' + hasLabel t' + errorCount t' + enrichmentSuccess t' + enrichmentFailed t'
  = needsEnrichment t + hasLabel t + errorCount t + enrichmentSuccess t + enrichmentFailed t
    + 1 /\
  (status <> "enriched" -> enrichmentSuccess t' = enrichmentSuccess t) /\
  (status <> "enrichment_failed" -> enrichmentFailed t' = enrichmentFailed t).
Proof.
  intros Hs H1 H2 H3 H4 H5 Hsum.
  assert (forall z, 0 <= z ->
            z <= needsEnrichment t + hasLabel t + errorCount t + enrichmentSuccess t
                 + enrichmentFailed t ->
            wrap64 (z + 1) = z + 1) as Hw.
  { intros z Hz Hle. apply wrap64_small. unfold minInt64, maxInt64 in *. lia. }
  unfold collectEdgeCase, countStatus.
  destruct Hs as [-> | [-> | [-> | [-> | ->]]]];
    repeat (case_bool_decide; try discriminate; try congruence);
    cbn -[wrap64]; rewrite Hw by lia; repeat split; intros; try lia; try congruence.
Qed.

Lemma processFiles_counts (metadataEnricher : option enricher.Enricher) (ctx : Ctx)
    (files : list (list rune)) :
  forall (t : Tally) (w : World),
  0 <= needsEnrichment t -> 0 <= hasLabel t -> 0 <= errorCount t ->
  0 <= enrichmentSuccess t -> 0 <= enrichmentFailed t ->
  needsEnrichment t + hasLabel t + errorCount t + enrichmentSuccess t + enrichmentFailed t
    + Z.of_nat (length files) <= maxInt64 ->
  let t' := (processFiles File os_Open tag_ReadFrom bytes files metadataEnricher ctx t w).1 in
  0 <= needsEnrichment t' /\ 0 <= hasLabel t' /\ 0 <= errorCount t' /\
  0 <= enrichmentSuccess t' /\ 0 <= enrichmentFailed t' /\
  needsEnrichment t' + hasLabel t' + errorCount t' + enrichmentSuccess t' + enrichmentFailed t'
  = needsEnrichment t + hasLabel t + errorCount t + enrichmentSuccess t + enrichmentFailed t
    + Z.of_nat (length files) /\
  (metadataEnricher = None ->
   enrichmentSuccess t' = enrichmentSuccess t /\ enrichmentFailed t' = enrichmentFailed t).
Proof.
  induction files as [|file rest IH]; intros t w H1 H2 H3 H4 H5 Hsum.
  - simpl. repeat split; try assumption; lia.
  - cbn [processFiles].
    pose proof (process_outcome File os_Open tag_ReadFrom bytes file metadataEnricher ctx w)
      as (Hstatus & _ & _).
    destruct (processFileWithEdgeCase File os_Open tag_ReadFrom bytes file metadataEnricher
                ctx w) as [[status edgeCase] w1].
    cbn [fst snd] in Hstatus. cbn [length] in Hsum. cbn [length]. cbv beta iota zeta.
    destruct (countStatus_step status edgeCase file t) as (G1 & G2 & G3 & G4 & G5 & G6 & G7 & G8);
      try assumption; [tauto | lia |].
    destruct (IH (collectEdgeCase edgeCase file (countStatus status t)) w1)
      as (F1 & F2 & F3 & F4 & F5 & F6 & F7); try assumption; [lia|].
    do 5 (split; [assumption|]). split; [lia|].
    intros Hnone. destruct (F7 Hnone) as [-> ->]. split.
    + apply G7. intros ->. destruct Hstatus as [H|[H|[H|[Hne _]]]]; congruence.
    + apply G8. intros ->. destruct Hstatus as [H|[H|[H|[Hne _]]]]; congruence.
Qed.

(** X24. After the loop of [runBatch] the five counters add up to the
    number of files: every file is counted once, under exactly one status
    (the counters being machine integers, for a list that a machine can
    hold).  Without an enricher the two enrichment counters stay at zero. *)
Theorem processFiles_partition (metadataEnricher : option enricher.Enricher) (ctx : Ctx)
    (files : list (list rune)) (w : World) :
  Z.of_nat (length files) <= maxInt64 ->
  let t := (processFiles File os_Open tag_ReadFrom bytes files metadataEnricher ctx
              emptyTally w).1 in
  needsEnrichment t + hasLabel t + errorCount t + enrichmentSuccess t + enrichmentFailed t
  = Z.of_nat (length files) /\
  0 <= needsEnrichment t /\ 0 <= hasLabel t /\ 0 <= errorCount t /\
  0 <= enrichmentSuccess t /\ 0 <= enrichmentFailed t /\
  (metadataEnricher = None -> enrichmentSuccess t = 0 /\ enrichmentFailed t = 0).
Proof.
  intros Hlen t.
  destruct (processFiles_counts metadataEnricher ctx files emptyTally w)
    as (F1 & F2 & F3 & F4 & F5 & F6 & F7);
    try (cbn [emptyTally needsEnrichment hasLabel errorCount enrichmentSuccess
              enrichmentFailed]; lia).
  fold t in F1, F2, F3, F4, F5, F6, F7.
  cbn [emptyTally needsEnrichment hasLabel errorCount enrichmentSuccess enrichmentFailed]
    in F6, F7.
  split; [lia|]. do 5 (split; [assumption|]). exact F7.
Qed.

Lemma tagged_cons (tag : string) (file : list rune) (files : list (list rune))
    (out : string * string) (outs : list (string * string)) :
  tagged tag (file :: files) (out :: outs)
  = ((if bool_decide (out.2 = tag) then [file] else []) ++ tagged tag files outs)%list.
Proof.
  unfold tagged. cbn [zip zip_with]. rewrite filter_cons. cbn [snd].
  destruct (decide (out.2 = tag)) as [H|H].
  - rewrite (bool_decide_eq_true_2 _ H). reflexivity.
  - rewrite (bool_decide_eq_false_2 _ H). reflexivity.
Qed.

Lemma edgeCases_collectEdgeCase (edgeCase : string) (file : list rune) (t : Tally) :
  (forall tag, tag <> "" ->
     default [] (edgeCases (collectEdgeCase edgeCase file t) !! tag)
     = (default [] (edgeCases t !! tag)
        ++ (if bool_decide (edgeCase = tag) then [file] else []))%list) /\
  edgeCases (collectEdgeCase edgeCase file t) !! "" = edgeCases t !! "".
Proof.
  unfold collectEdgeCase. destruct (decide (edgeCase = "")) as [->|He].
  - rewrite (bool_decide_eq_false_2 ("" <> "")) by (intros H; by apply H).
    split; [|reflexivity]. intros tag Hne.
    rewrite bool_decide_eq_false_2 by congruence. by rewrite app_nil_r.
  - rewrite (bool_decide_eq_true_2 _ He). cbn [edgeCases]. split.
    + intros tag Hne. destruct (decide (edgeCase = tag)) as [->|Hdiff].
      * rewrite lookup_insert_eq, bool_decide_eq_true_2 by reflexivity. reflexivity.
      * rewrite lookup_insert_ne, bool_decide_eq_false_2, app_nil_r by assumption.
        reflexivity.
    + by rewrite lookup_insert_ne.
Qed.

Lemma processFiles_edgeCases (metadataEnricher : option enricher.Enricher) (ctx : Ctx)
    (files : list (list rune)) :
  forall (t : Tally) (w : World),
  exists outs w',
    batch_outcomes os_Open tag_ReadFrom bytes files metadataEnricher ctx w = (outs, w') /\
    (processFiles File os_Open tag_ReadFrom bytes files metadataEnricher ctx t w).2 = w' /\
    (forall tag, tag <> "" ->
       default [] (edgeCases (processFiles File os_Open tag_ReadFrom bytes files
                                metadataEnricher ctx t w).1 !! tag)
       = (default [] (edgeCases t !! tag) ++ tagged tag files outs)%list) /\
    edgeCases (processFiles File os_Open tag_ReadFrom bytes files metadataEnricher ctx t w).1
      !! "" = edgeCases t !! "".
Proof.
  induction files as [|file rest IH]; intros t w.
  - exists [], w. repeat split. intros tag _. simpl. by rewrite app_nil_r.
  - cbn [processFiles batch_outcomes].
    destruct (processFileWithEdgeCase File os_Open tag_ReadFrom bytes file metadataEnricher
                ctx w) as [[status edgeCase] w1].
    cbv beta iota zeta.
    destruct (IH (collectEdgeCase edgeCase file (countStatus status t)) w1)
      as (outs & w' & -> & Hw & Htag & Hempty).
    destruct (edgeCases_collectEdgeCase edgeCase file (countStatus status t))
      as [Hcollect Hcollect0].
    exists ((status, edgeCase) :: outs), w'. split; [reflexivity|]. split; [exact Hw|].
    split.
    + intros tag Hne. rewrite (Htag tag Hne), (Hcollect tag Hne), tagged_cons.
      cbn [snd]. rewrite edgeCases_countStatus, app_assoc. reflexivity.
    + rewrite Hempty, Hcollect0. by rewrite edgeCases_countStatus.
Qed.

(** X25. After the loop, the edge-case map holds under each tag exactly
    the files whose outcome carries that tag, in the order they were
    processed, and nothing under the empty tag; the files are processed one
    after the other, each from the world the one before left. *)
Theorem processFiles_edgeCases_by_tag (metadataEnricher : option enricher.Enricher)
    (ctx : Ctx) (files : list (list rune)) (w : World) :
  exists outs w',
    batch_outcomes os_Open tag_ReadFrom bytes files metadataEnricher ctx w = (outs, w') /\
    (processFiles File os_Open tag_ReadFrom bytes files metadataEnricher ctx emptyTally w).2
      = w' /\
    (forall tag, tag <> "" ->
       default [] (edgeCases (processFiles File os_Open tag_ReadFrom bytes files
                                metadataEnricher ctx emptyTally w).1 !! tag)
       = tagged tag files outs) /\
    edgeCases (processFiles File os_Open tag_ReadFrom bytes files metadataEnricher ctx
                 emptyTally w).1 !! "" = None.
Proof.
  destruct (processFiles_edgeCases metadataEnricher ctx files emptyTally w)
    as (outs & w' & Hout & Hw & Htag & Hempty).
  exists outs, w'. split; [exact Hout|]. split; [exact Hw|]. split.
  - intros tag Hne. rewrite (Htag tag Hne). reflexivity.
  - rewrite Hempty. reflexivity.
Qed.

End BatchTally.

(** Four files: one that cannot be opened, one with a label, one with tags
    and no label, one without tags. *)
Lemma processFiles_partition_witness :
  let files := [cmd.runes "gone.aiff"; cmd.runes "tagged.aiff"; cmd.runes "plain.aiff";
                cmd.runes "LTJ Bukem - Music.aiff"] in
  let t := (cmd.processFiles sim.SimFile sim.sim_Open sim.sim_ReadFrom sim.sim_bytes files
              (Some (enricher.NewEnricher [sim.failing] None)) None cmd.emptyTally
              sim.world0).1 in
  cmd.needsEnrichment t + cmd.hasLabel t + cmd.errorCount t + cmd.enrichmentSuccess t
    + cmd.enrichmentFailed t = 4 /\
  cmd.errorCount t = 1 /\ cmd.hasLabel t = 1 /\ cmd.enrichmentFailed t = 2.
Proof.
  intros files t. split; [|vm_compute; auto].
  apply (@processFiles_partition sim.simRuntime sim.SimFile sim.sim_Open sim.sim_ReadFrom
           sim.sim_bytes (Some (enricher.NewEnricher [sim.failing] None)) None files
           sim.world0).
  vm_compute. discriminate.
Defined.
